(** * ani-web: the client-side behaviour scripts, embedded and verified

    Sources embedded here:
    - [static/page-behavior.js]: navbar, custom video player and its
      controls, mode switch buttons, watchlist store and watchlist view
      synchroniser;
    - the autocomplete script (search field and suggestion list).

    JavaScript strings are sequences of UTF-16 code units, exceptions do not
    roll back the effects that preceded them, and closures that capture a DOM
    node are represented by a constructor carrying that node's identity.
    Playback times are exact rationals (the rounding of IEEE doubles is not
    represented), and a write to [localStorage] always succeeds.  The
    player's block stands twice in [page-behavior.js] (lines 18-169 and
    174-325) with the same statements; it is embedded once, from the first. *)

From Stdlib Require Import NArith ZArith QArith Qround Lqa Lia String Ascii List.
From stdpp Require Import base option list gmap.
Import ListNotations.

Set Warnings "-register-all".

Local Open Scope N_scope.
Local Open Scope list_scope.

(** ** JavaScript strings *)

Module JSString.

(** A string is a list of UTF-16 code units. *)
Abbreviation jsstring := (list N).

(** The code units of an ASCII literal. *)
Definition js (s : string) : jsstring :=
  map N_of_ascii (list_ascii_of_string s).

Definition jsstring_eqb (a b : jsstring) : bool := bool_decide (a = b).

(** [s.startsWith(t)] *)
Fixpoint is_prefix (t s : jsstring) : bool :=
  match t, s with
  | [], _ => true
  | _ :: _, [] => false
  | a :: t', b :: s' => (a =? b) && is_prefix t' s'
  end.

(** [s.includes(t)]: [t] occurs in [s] as a substring. *)
Fixpoint String_includes (s t : jsstring) : bool :=
  is_prefix t s ||
  match s with
  | [] => false
  | _ :: s' => String_includes s' t
  end.

End JSString.
Export JSString.

(** ** JSON values, [JSON.parse] and [JSON.stringify] (ECMA-404 / ECMA-262) *)

Module JSON.

(** Values that the watchlist code manipulates: what [JSON.parse] can
    return, plus [undefined] (the value of a missing [data-anime]
    attribute, which [push] can store into the array).  A number is kept
    as the literal that denotes it; no identifier is a number. *)
Inductive JSValue : Type :=
| JUndefined
| JNull
| JBool (b : bool)
| JNum (literal : jsstring)
| JStr (s : jsstring)
| JArr (elements : list JSValue)
| JObj (members : list (jsstring * JSValue)).

(** *** Lexical helpers *)

Definition is_ws (c : N) : bool :=
  (c =? 32) || (c =? 9) || (c =? 10) || (c =? 13).

Fixpoint skip_ws (s : jsstring) : jsstring :=
  match s with
  | c :: r => if is_ws c then skip_ws r else s
  | [] => []
  end.

Definition is_digit (c : N) : bool := (48 <=? c) && (c <=? 57).

Fixpoint take_digits (s : jsstring) : jsstring * jsstring :=
  match s with
  | c :: r =>
      if is_digit c then let '(ds, rest) := take_digits r in (c :: ds, rest)
      else ([], s)
  | [] => ([], [])
  end.

Definition hexval (c : N) : option N :=
  if (48 <=? c) && (c <=? 57) then Some (c - 48)
  else if (65 <=? c) && (c <=? 70) then Some (c - 55)
  else if (97 <=? c) && (c <=? 102) then Some (c - 87)
  else None.

Definition hexdigit (d : N) : N := if d <? 10 then 48 + d else 87 + d.

Definition hex4 (c : N) : jsstring :=
  [hexdigit (c / 4096 mod 16); hexdigit (c / 256 mod 16);
   hexdigit (c / 16 mod 16); hexdigit (c mod 16)].

(** *** [JSON.parse] *)

(** The characters of a string literal after its opening quote, up to and
    including the closing quote. *)
Fixpoint parse_chars (s : jsstring) : option (jsstring * jsstring) :=
  match s with
  | [] => None
  | c :: r =>
      if c =? 34 then Some ([], r)
      else if c =? 92 then
        match r with
        | [] => None
        | e :: r' =>
            if e =? 117 then
              match r' with
              | h1 :: h2 :: h3 :: h4 :: r'' =>
                  a ← hexval h1; b ← hexval h2; c' ← hexval h3; d ← hexval h4;
                  '(t, rest) ← parse_chars r'';
                  Some ((((a * 16 + b) * 16 + c') * 16 + d) :: t, rest)
              | _ => None
              end
            else
              u ← (if e =? 34 then Some 34
                   else if e =? 92 then Some 92
                   else if e =? 47 then Some 47
                   else if e =? 98 then Some 8
                   else if e =? 102 then Some 12
                   else if e =? 110 then Some 10
                   else if e =? 114 then Some 13
                   else if e =? 116 then Some 9
                   else None);
              '(t, rest) ← parse_chars r';
              Some (u :: t, rest)
        end
      else if c <? 32 then None
      else '(t, rest) ← parse_chars r; Some (c :: t, rest)
  end.

(** A number literal: an optional minus sign, an integer part (a single
    zero, or a non-zero digit followed by digits), an optional fraction
    (a dot and at least one digit) and an optional exponent (e or E, an
    optional sign, at least one digit). *)
Definition lex_int (s : jsstring) : option (jsstring * jsstring) :=
  match s with
  | c :: r =>
      if c =? 48 then Some ([48], r)
      else if is_digit c then
        let '(ds, rest) := take_digits r in Some (c :: ds, rest)
      else None
  | [] => None
  end.

Definition lex_frac (s : jsstring) : option (jsstring * jsstring) :=
  match s with
  | c :: r =>
      if c =? 46 then
        match take_digits r with
        | ([], _) => None
        | (ds, rest) => Some (c :: ds, rest)
        end
      else Some ([], s)
  | [] => Some ([], s)
  end.

Definition lex_exp (s : jsstring) : option (jsstring * jsstring) :=
  match s with
  | c :: r =>
      if (c =? 101) || (c =? 69) then
        let '(sign, r1) :=
          match r with
          | g :: r' => if (g =? 43) || (g =? 45) then ([g], r') else ([], r)
          | [] => ([], r)
          end in
        match take_digits r1 with
        | ([], _) => None
        | (ds, rest) => Some (c :: sign ++ ds, rest)
        end
      else Some ([], s)
  | [] => Some ([], s)
  end.

Definition lex_number (s : jsstring) : option (jsstring * jsstring) :=
  let '(sign, s1) :=
    match s with
    | c :: r => if c =? 45 then ([c], r) else ([], s)
    | [] => ([], s)
    end in
  '(i, s2) ← lex_int s1;
  '(f, s3) ← lex_frac s2;
  '(e, s4) ← lex_exp s3;
  Some (sign ++ i ++ f ++ e, s4).

(** Recursive descent on values; [fuel] bounds the number of nested calls
    and [JSON_parse] supplies two units per input character, which is
    always enough. *)
Fixpoint parse_value (fuel : nat) (s : jsstring) : option (JSValue * jsstring) :=
  match fuel with
  | O => None
  | S fuel' =>
      match skip_ws s with
      | [] => None
      | c :: r =>
          if c =? 34 then '(t, rest) ← parse_chars r; Some (JStr t, rest)
          else if c =? 91 then
            match skip_ws r with
            | [] => None
            | d :: rest =>
                if d =? 93 then Some (JArr [], rest)
                else '(vs, rest') ← parse_elements fuel' r; Some (JArr vs, rest')
            end
          else if c =? 123 then
            match skip_ws r with
            | [] => None
            | d :: rest =>
                if d =? 125 then Some (JObj [], rest)
                else '(ms, rest') ← parse_members fuel' r; Some (JObj ms, rest')
            end
          else if is_prefix (js "true") (c :: r) then Some (JBool true, drop 4 (c :: r))
          else if is_prefix (js "false") (c :: r) then Some (JBool false, drop 5 (c :: r))
          else if is_prefix (js "null") (c :: r) then Some (JNull, drop 4 (c :: r))
          else '(lit, rest) ← lex_number (c :: r); Some (JNum lit, rest)
      end
  end
with parse_elements (fuel : nat) (s : jsstring) : option (list JSValue * jsstring) :=
  match fuel with
  | O => None
  | S fuel' =>
      '(v, r) ← parse_value fuel' s;
      match skip_ws r with
      | [] => None
      | d :: r' =>
          if d =? 44 then '(vs, rest) ← parse_elements fuel' r'; Some (v :: vs, rest)
          else if d =? 93 then Some ([v], r')
          else None
      end
  end
with parse_members (fuel : nat) (s : jsstring)
  : option (list (jsstring * JSValue) * jsstring) :=
  match fuel with
  | O => None
  | S fuel' =>
      match skip_ws s with
      | [] => None
      | c :: r =>
          if c =? 34 then
            '(k, r1) ← parse_chars r;
            match skip_ws r1 with
            | [] => None
            | d :: r2 =>
                if d =? 58 then
                  '(v, r3) ← parse_value fuel' r2;
                  match skip_ws r3 with
                  | [] => None
                  | e :: r4 =>
                      if e =? 44 then
                        '(ms, rest) ← parse_members fuel' r4; Some ((k, v) :: ms, rest)
                      else if e =? 125 then Some ([(k, v)], r4)
                      else None
                  end
                else None
            end
          else None
      end
  end.

(** [JSON.parse text]: [None] stands for the [SyntaxError] it throws. *)
Definition JSON_parse (text : jsstring) : option JSValue :=
  '(v, rest) ← parse_value (2 * length text + 2) text;
  match skip_ws rest with
  | [] => Some v
  | _ => None
  end.

(** *** [JSON.stringify] *)

Definition is_lead (c : N) : bool := (55296 <=? c) && (c <=? 56319).
Definition is_trail (c : N) : bool := (56320 <=? c) && (c <=? 57343).

Definition unicode_escape (c : N) : jsstring := 92 :: 117 :: hex4 c.

(** One code unit that is not part of a surrogate pair. *)
Definition quote_unit (c : N) : jsstring :=
  if c =? 8 then [92; 98]
  else if c =? 9 then [92; 116]
  else if c =? 10 then [92; 110]
  else if c =? 12 then [92; 102]
  else if c =? 13 then [92; 114]
  else if c =? 34 then [92; 34]
  else if c =? 92 then [92; 92]
  else if (c <? 32) || is_lead c || is_trail c then unicode_escape c
  else [c].

(** [QuoteJSONString] without the surrounding quotes: a leading surrogate
    followed by a trailing one is copied, a lone surrogate is escaped. *)
Fixpoint quote_chars (s : jsstring) : jsstring :=
  match s with
  | [] => []
  | c :: r =>
      if is_lead c then
        match r with
        | d :: r' =>
            if is_trail d then c :: d :: quote_chars r'
            else unicode_escape c ++ quote_chars r
        | [] => unicode_escape c
        end
      else quote_unit c ++ quote_chars r
  end.

Definition QuoteJSONString (s : jsstring) : jsstring :=
  34 :: quote_chars s ++ [34].

Fixpoint join_comma (parts : list jsstring) : jsstring :=
  match parts with
  | [] => []
  | [p] => p
  | p :: ps => p ++ 44 :: join_comma ps
  end.

Definition is_undefined (v : JSValue) : bool :=
  match v with JUndefined => true | _ => false end.

(** [SerializeJSONProperty]: inside an array [undefined] is written as
    [null]; an object member whose value is [undefined] is left out. *)
Fixpoint stringify_value (v : JSValue) : jsstring :=
  match v with
  | JUndefined | JNull => js "null"
  | JBool true => js "true"
  | JBool false => js "false"
  | JNum literal => literal
  | JStr s => QuoteJSONString s
  | JArr elements => 91 :: join_comma (map stringify_value elements) ++ [93]
  | JObj members =>
      123 :: join_comma
               ((fix properties (ms : list (jsstring * JSValue)) : list jsstring :=
                   match ms with
                   | [] => []
                   | (k, x) :: ms' =>
                       if is_undefined x then properties ms'
                       else (QuoteJSONString k ++ 58 :: stringify_value x)
                              :: properties ms'
                   end) members)
          ++ [125]
  end.

(** [JSON.stringify] of an array (the only call in the source). *)
Definition JSON_stringify (elements : list JSValue) : jsstring :=
  stringify_value (JArr elements).

End JSON.
Export JSON.

(** ** Statements that may throw *)

Module Effects.

Inductive Exception : Type := SyntaxError | TypeError | NotSupportedError.

(** A statement either completes normally or throws; in both cases the
    effects it had on the state stay. *)
Inductive Completion (A : Type) : Type :=
| Normal (a : A)
| Throw (e : Exception).
Arguments Normal {A} a.
Arguments Throw {A} e.

Definition Eff (S A : Type) : Type := S -> Completion A * S.

#[global] Instance Eff_ret {S : Type} : MRet (Eff S) :=
  fun A a st => (Normal a, st).

#[global] Instance Eff_bind {S : Type} : MBind (Eff S) := fun A B k m st =>
  match m st with
  | (Normal a, st') => k a st'
  | (Throw e, st') => (Throw e, st')
  end.

Definition throw {S A : Type} (e : Exception) : Eff S A := fun st => (Throw e, st).

Definition get_state {S : Type} : Eff S S := fun st => (Normal st, st).

Definition modify {S : Type} (f : S -> S) : Eff S unit := fun st => (Normal tt, f st).

(** [Array.prototype.forEach] / [NodeList.prototype.forEach] / [for...of]
    over a list that the body does not change. *)
Fixpoint forEach {S A : Type} (l : list A) (body : A -> Eff S unit) : Eff S unit :=
  match l with
  | [] => mret tt
  | x :: r => body x ;; forEach r body
  end.

End Effects.
Export Effects.

(** ** The page: DOM nodes, storage, events *)

Module DOM.

(** A node is named by its position in the page's node table, which lists
    the elements in document order. *)
Abbreviation NodeId := nat (only parsing).

Inductive ParentNode : Type :=
| Detached                 (* no parent: removed from its tree *)
| OfDocument               (* the document element *)
| ChildOf (p : NodeId).

(** The closures that the scripts register as click listeners.  Each
    constructor stands for one function expression of the source and
    carries the variable it captures. *)
Inductive Listener : Type :=
| WatchlistClick (btn : NodeId)     (* e => { e.preventDefault(); ...; toggleWatchlist(anime) } *)
| DescriptionClick (btn : NodeId)   (* e => { ...; toggleWatchlist(anime) } *)
| NavigationHandler (url : jsstring).
    (* a click listener of the page's own templates that opens [url] *)

Record Element : Type := mkElement {
  parentNode : ParentNode;
  id_attr : jsstring;                 (* empty when there is no id *)
  classList : list jsstring;
  dataset_anime : option jsstring;    (* data-anime; [None] is undefined *)
  href : option jsstring;             (* link target of an anchor *)
  textContent : jsstring;
  clickListeners : list Listener      (* in registration order *)
}.

Record MutationRecord : Type := mkMutation {
  mutation_type : jsstring;
  addedNodes : list NodeId
}.

Record State : Type := mkState {
  localStorage : gmap jsstring jsstring;
  document : list Element;
  defaultPrevented : bool;            (* flags of the event being dispatched *)
  propagationStopped : bool;
  location : option jsstring;         (* [Some url] once a navigation started *)
  observed : list NodeId;             (* targets of observer.observe *)
  console : list jsstring;
  reported : list Exception           (* exceptions no handler caught *)
}.

(** *** Field updates *)

Definition set_parentNode (p : ParentNode) (e : Element) : Element :=
  mkElement p (id_attr e) (classList e) (dataset_anime e) (href e)
    (textContent e) (clickListeners e).

Definition set_text (t : jsstring) (e : Element) : Element :=
  mkElement (parentNode e) (id_attr e) (classList e) (dataset_anime e) (href e)
    t (clickListeners e).

Definition add_listener (l : Listener) (e : Element) : Element :=
  mkElement (parentNode e) (id_attr e) (classList e) (dataset_anime e) (href e)
    (textContent e) (clickListeners e ++ [l]).

Definition with_localStorage (m : gmap jsstring jsstring) (st : State) : State :=
  mkState m (document st) (defaultPrevented st) (propagationStopped st)
    (location st) (observed st) (console st) (reported st).

Definition with_document (d : list Element) (st : State) : State :=
  mkState (localStorage st) d (defaultPrevented st) (propagationStopped st)
    (location st) (observed st) (console st) (reported st).

Definition with_event (prevented stopped : bool) (st : State) : State :=
  mkState (localStorage st) (document st) prevented stopped
    (location st) (observed st) (console st) (reported st).

Definition with_location (l : option jsstring) (st : State) : State :=
  mkState (localStorage st) (document st) (defaultPrevented st)
    (propagationStopped st) l (observed st) (console st) (reported st).

Definition with_observed (o : list NodeId) (st : State) : State :=
  mkState (localStorage st) (document st) (defaultPrevented st)
    (propagationStopped st) (location st) o (console st) (reported st).

Definition with_console (c : list jsstring) (st : State) : State :=
  mkState (localStorage st) (document st) (defaultPrevented st)
    (propagationStopped st) (location st) (observed st) c (reported st).

Definition with_reported (r : list Exception) (st : State) : State :=
  mkState (localStorage st) (document st) (defaultPrevented st)
    (propagationStopped st) (location st) (observed st) (console st) r.

(** Statements of the watchlist script run on the page state. *)
Abbreviation JS := (Eff State).

(** *** Reading the tree *)

Definition blank : Element :=
  mkElement Detached [] [] None None [] [].

(** The element behind a node reference.  References only come from
    queries on the same page, so [blank] is never observed. *)
Definition element (doc : list Element) (n : NodeId) : Element :=
  default blank (doc !! n).

Fixpoint connected_from (fuel : nat) (doc : list Element) (n : NodeId) : bool :=
  match fuel with
  | O => false
  | S fuel' =>
      match parentNode (element doc n) with
      | OfDocument => true
      | Detached => false
      | ChildOf p => connected_from fuel' doc p
      end
  end.

(** [node.isConnected]: the chain of parents ends at the document. *)
Definition isConnected (doc : list Element) (n : NodeId) : bool :=
  connected_from (length doc) doc n.

Definition has_class (cls : jsstring) (e : Element) : bool :=
  existsb (jsstring_eqb cls) (classList e).

(** [document.querySelectorAll("." + cls)]: a static list, in document
    order, of the connected elements that carry the class. *)
Definition querySelectorAll_class (cls : jsstring) (doc : list Element) : list NodeId :=
  List.filter (fun n => isConnected doc n && has_class cls (element doc n))
              (seq 0 (length doc)).

(** [document.getElementById(id)]: the first connected element with that
    id, [None] for null. *)
Definition getElementById (id : jsstring) (doc : list Element) : option NodeId :=
  List.find (fun n => isConnected doc n && jsstring_eqb (id_attr (element doc n)) id)
            (seq 0 (length doc)).

(** [node.parentElement] *)
Definition parentElement (doc : list Element) (n : NodeId) : option NodeId :=
  match parentNode (element doc n) with
  | ChildOf p => Some p
  | _ => None
  end.

(** [classList[i]]: [None] is undefined. *)
Definition classList_item (doc : list Element) (n : NodeId) (i : nat) : option jsstring :=
  classList (element doc n) !! i.

(** *** Changing the tree *)

(** [node.remove()]: the node leaves its parent, its subtree stays below
    it. *)
Definition Element_remove (n : NodeId) : JS unit :=
  modify (fun st => with_document (alter (set_parentNode Detached) n (document st)) st).

(** [node.textContent = t]: every child of the node is removed from it
    and the node's text becomes [t]. *)
Definition retext (n : NodeId) (t : jsstring) (i : nat) (e : Element) : Element :=
  if Nat.eqb i n then set_text t e
  else match parentNode e with
       | ChildOf p => if Nat.eqb p n then set_parentNode Detached e else e
       | _ => e
       end.

Definition replace_children (n : NodeId) (t : jsstring) (doc : list Element)
  : list Element :=
  imap (retext n t) doc.

Definition set_textContent (n : NodeId) (t : jsstring) : JS unit :=
  modify (fun st => with_document (replace_children n t (document st)) st).

(** [node.addEventListener("click", l)] with a fresh function object [l]. *)
Definition addEventListener_click (n : NodeId) (l : Listener) : JS unit :=
  modify (fun st => with_document (alter (add_listener l) n (document st)) st).

(** [e.preventDefault()] on the event being dispatched. *)
Definition preventDefault : JS unit :=
  modify (fun st => with_event true (propagationStopped st) st).

Definition console_log (msg : jsstring) : JS unit :=
  modify (fun st => with_console (console st ++ [msg]) st).

End DOM.
Export DOM.

(** ** Watchlist functionality ([page-behavior.js], lines 373-470) *)

Module Watchlist.

Definition WATCHLIST_KEY : jsstring := js "aniweb_watchlist".

Definition star_filled : jsstring := [9733].    (* U+2605 *)
Definition star_hollow : jsstring := [9734].    (* U+2606 *)

(** The value of [btn.dataset.anime]: a string, or undefined. *)
Definition anime_value (anime : option jsstring) : JSValue :=
  match anime with
  | Some s => JStr s
  | None => JUndefined
  end.

(** [x === anime] for a stored value [x]. *)
Definition same_as (anime : option jsstring) (x : JSValue) : bool :=
  match anime, x with
  | Some s, JStr t => jsstring_eqb t s
  | None, JUndefined => true
  | _, _ => false
  end.

(** [watchlist.includes(anime)] on an array. *)
Definition Array_includes (items : list JSValue) (anime : option jsstring) : bool :=
  existsb (same_as anime) items.

(** [ToString(anime)], the argument conversion of
    [String.prototype.includes]. *)
Definition ToString (anime : option jsstring) : jsstring :=
  match anime with
  | Some s => s
  | None => js "undefined"
  end.

(** <<
    function getWatchlist() {
        const stored = localStorage.getItem(WATCHLIST_KEY);
        return stored ? JSON.parse(stored) : [];
    }
    >> *)
Definition getWatchlist : JS JSValue := fun st =>
  match localStorage st !! WATCHLIST_KEY with
  | None => (Normal (JArr []), st)
  | Some [] => (Normal (JArr []), st)
  | Some stored =>
      match JSON_parse stored with
      | Some v => (Normal v, st)
      | None => (Throw SyntaxError, st)
      end
  end.

(** <<
    function saveWatchlist(list) {
        localStorage.setItem(WATCHLIST_KEY, JSON.stringify(list));
    }
    >>
    The full sequence replaces the stored payload. *)
Definition saveWatchlist (items : list JSValue) : JS unit :=
  modify (fun st =>
    with_localStorage (<[WATCHLIST_KEY := JSON_stringify items]> (localStorage st)) st).

(** <<
    function isInWatchlist(anime) {
        return getWatchlist().includes(anime);
    }
    >>
    An array answers by membership, a string by substring search, and
    every other decoded value has no callable [includes]. *)
Definition isInWatchlist (anime : option jsstring) : JS bool :=
  watchlist ← getWatchlist;
  match watchlist with
  | JArr items => mret (Array_includes items anime)
  | JStr s => mret (String_includes s (ToString anime))
  | _ => throw TypeError
  end.

(** <<
    function updateWatchlistButtons() {
        document.querySelectorAll('.watchlist-btn').forEach(btn => {
            const anime = btn.dataset.anime;
            btn.textContent = isInWatchlist(anime) ? '★' : '☆';
            if (btn.textContent == '☆' && btn.classList[1] === "remove-btn") {
                btn.parentElement.remove();
            }
        });
        var btn = document.getElementById("description-watchlist-btn")
        if (btn) {
            const anime = btn.dataset.anime;
            btn.textContent = isInWatchlist(anime) ? 'Remove from watchlist' : 'Add to watchlist';
        }
    }
    >> *)
Definition update_button (btn : NodeId) : JS unit :=
  st ← get_state;
  let anime := dataset_anime (element (document st) btn) in
  present ← isInWatchlist anime;
  set_textContent btn (if present : bool then star_filled else star_hollow) ;;
  st ← get_state;
  if jsstring_eqb (textContent (element (document st) btn)) star_hollow
     && bool_decide (classList_item (document st) btn 1 = Some (js "remove-btn"))
  then
    match parentElement (document st) btn with
    | Some card => Element_remove card
    | None => throw TypeError
    end
  else mret tt.

Definition update_description_button : JS unit :=
  st ← get_state;
  match getElementById (js "description-watchlist-btn") (document st) with
  | Some btn =>
      let anime := dataset_anime (element (document st) btn) in
      present ← isInWatchlist anime;
      set_textContent btn
        (if present : bool then js "Remove from watchlist" else js "Add to watchlist")
  | None => mret tt
  end.

Definition updateWatchlistButtons : JS unit :=
  st ← get_state;
  forEach (querySelectorAll_class (js "watchlist-btn") (document st)) update_button ;;
  update_description_button.

(** <<
    function toggleWatchlist(anime) {
        let watchlist = getWatchlist();
        if (watchlist.includes(anime)) {
            watchlist = watchlist.filter(id => id !== anime);
        } else {
            watchlist.push(anime);
        }
        saveWatchlist(watchlist);
        updateWatchlistButtons();
    }
    >>
    A decoded string has [includes] but neither [filter] nor [push]; the
    other non-array values have none of the three. *)
Definition toggled (items : list JSValue) (anime : option jsstring) : list JSValue :=
  if Array_includes items anime
  then List.filter (fun id => negb (same_as anime id)) items
  else items ++ [anime_value anime].

Definition toggleWatchlist (anime : option jsstring) : JS unit :=
  watchlist ← getWatchlist;
  match watchlist with
  | JArr items =>
      saveWatchlist (toggled items anime) ;;
      updateWatchlistButtons
  | _ => throw TypeError
  end.

(** The bodies of the registered click listeners. *)
Definition run_listener (l : Listener) : JS unit :=
  match l with
  | WatchlistClick btn =>
      preventDefault ;;
      st ← get_state;
      toggleWatchlist (dataset_anime (element (document st) btn))
  | DescriptionClick btn =>
      st ← get_state;
      toggleWatchlist (dataset_anime (element (document st) btn))
  | NavigationHandler url =>
      modify (with_location (Some url))
  end.

(** <<
    document.querySelectorAll('.watchlist-btn').forEach(btn => {
        btn.addEventListener('click', e => { ... });
    });
    >> (lines 427-433 and, inside the observer, 452-458) *)
Definition bind_watchlist_buttons : JS unit :=
  st ← get_state;
  forEach (querySelectorAll_class (js "watchlist-btn") (document st))
          (fun btn => addEventListener_click btn (WatchlistClick btn)).

(** The observer callback (lines 449-463). *)
Definition observer_callback (mutationsList : list MutationRecord) : JS unit :=
  forEach mutationsList (fun mutation =>
    if jsstring_eqb (mutation_type mutation) (js "childList")
       && (0 <? length (addedNodes mutation))%nat
    then
      bind_watchlist_buttons ;;
      updateWatchlistButtons ;;
      console_log (js "mutations deteced")
    else mret tt).

(** The [DOMContentLoaded] listener of the watchlist block (lines
    373-470). *)
Definition init : JS unit :=
  bind_watchlist_buttons ;;
  st ← get_state;
  match getElementById (js "description-watchlist-btn") (document st) with
  | None => throw TypeError          (* btn.addEventListener on null *)
  | Some btn => addEventListener_click btn (DescriptionClick btn)
  end ;;
  updateWatchlistButtons ;;
  st ← get_state;
  match getElementById (js "watchlist-grid") (document st) with
  | Some target => modify (fun st => with_observed (observed st ++ [target]) st)
  | None => mret tt
  end.

(** *** Dispatching a click

    The event path is the target followed by its ancestors, fixed when the
    dispatch starts.  Every listener of a node on the path runs unless
    propagation was stopped; an exception thrown by a listener is reported
    and the dispatch goes on.  If no listener prevented the default
    action, the nearest link on the path is followed. *)
Fixpoint event_path (fuel : nat) (doc : list Element) (n : NodeId) : list NodeId :=
  match fuel with
  | O => []
  | S fuel' =>
      n :: match parentElement doc n with
           | Some p => event_path fuel' doc p
           | None => []
           end
  end.

Definition invoke (l : Listener) (st : State) : State :=
  match run_listener l st with
  | (Normal _, st') => st'
  | (Throw e, st') => with_reported (reported st' ++ [e]) st'
  end.

Definition invoke_listeners (n : NodeId) (st : State) : State :=
  if propagationStopped st then st
  else fold_left (fun s l => invoke l s) (clickListeners (element (document st) n)) st.

Definition activation_target (doc : list Element) (path : list NodeId)
  : option jsstring :=
  match List.find (fun n => bool_decide (is_Some (href (element doc n)))) path with
  | Some n => href (element doc n)
  | None => None
  end.

Definition dispatch_click (target : NodeId) (st : State) : State :=
  let path := event_path (length (document st)) (document st) target in
  let link := activation_target (document st) path in
  let st1 := fold_left (fun s n => invoke_listeners n s) path (with_event false false st) in
  if defaultPrevented st1 then st1
  else match link with
       | Some url => with_location (Some url) st1
       | None => st1
       end.

End Watchlist.
Export Watchlist.

(** ** Custom video player logic ([page-behavior.js], lines 18-169) *)

Module Player.

Local Open Scope Q_scope.

(** The values of [video.currentTime] and [video.duration]: a finite
    number, taken with exact arithmetic, or NaN (the duration before the
    metadata is known). *)
Inductive Number : Type :=
| NaN
| Num (q : Q).

Definition Math_min (a b : Number) : Number :=
  match a, b with
  | Num x, Num y => if Qle_bool x y then Num x else Num y
  | _, _ => NaN
  end.

Definition Math_max (a b : Number) : Number :=
  match a, b with
  | Num x, Num y => if Qle_bool x y then Num y else Num x
  | _, _ => NaN
  end.

(** *** The timestamp *)

(** [x % y]: the remainder has the sign of the dividend. *)
Definition trunc (x : Q) : Z :=
  if Qle_bool 0 x then Qfloor x else Qceiling x.

Definition remainder (x y : Q) : Q := x - y * inject_Z (trunc (x / y)).

(** First significant decimal digit of a positive number below one. *)
Fixpoint leading_digit_small (fuel : nat) (x : Q) : Z :=
  match fuel with
  | O => 0%Z
  | S fuel' =>
      if Qle_bool 1 x then Qfloor x else leading_digit_small fuel' (x * 10)
  end.

(** First decimal digit of a number that is at least one. *)
Fixpoint leading_digit_large (fuel : nat) (x : Q) : Z :=
  match fuel with
  | O => 0%Z
  | S fuel' =>
      if Qle_bool 10 x then leading_digit_large fuel' (x / 10) else Qfloor x
  end.

(** The bounds of plain decimal notation in the conversion of a number to
    a string. *)
Definition exponent_from : Q := 1000000000000000000000.    (* 1e21 *)
Definition exponent_below : Q := 1 # 1000000.               (* 1e-6 *)

(** [parseInt(x)] applied to a number: the number is first converted to a
    string and the leading run of digits of that string is read.  The
    string is in plain decimal notation from 1e-6 up to 1e21 and in
    exponent notation (one digit, then the fraction and the exponent)
    outside that range. *)
Definition parseInt_magnitude (a : Q) : Z :=
  if Qeq_bool a 0 then 0%Z
  else if Qle_bool exponent_from a then
    leading_digit_large (Pos.size_nat (Z.to_pos (Qnum a))) a
  else if Qle_bool exponent_below a then Qfloor a
  else leading_digit_small (Pos.size_nat (Qden a)) a.

Definition parseInt (x : Q) : Z :=
  if Qle_bool 0 x then parseInt_magnitude x
  else (- parseInt_magnitude (- x))%Z.

(** A non-negative number that is written in plain decimal notation. *)
Definition plain (x : Q) : Prop := x == 0 \/ exponent_below <= x.

Fixpoint uint_units (d : Decimal.uint) : jsstring :=
  match d with
  | Decimal.Nil => []
  | Decimal.D0 r => 48%N :: uint_units r
  | Decimal.D1 r => 49%N :: uint_units r
  | Decimal.D2 r => 50%N :: uint_units r
  | Decimal.D3 r => 51%N :: uint_units r
  | Decimal.D4 r => 52%N :: uint_units r
  | Decimal.D5 r => 53%N :: uint_units r
  | Decimal.D6 r => 54%N :: uint_units r
  | Decimal.D7 r => 55%N :: uint_units r
  | Decimal.D8 r => 56%N :: uint_units r
  | Decimal.D9 r => 57%N :: uint_units r
  end.

(** [n.toLocaleString('en-US', {minimumIntegerDigits: 2, useGrouping: false})]
    for an integer [n]. *)
Definition toLocaleString_2 (n : Z) : jsstring :=
  let digits := uint_units (N.to_uint (Z.abs_N n)) in
  (if (n <? 0)%Z then [45%N] else [])
    ++ (if (length digits <? 2)%nat then 48%N :: digits else digits).

(** The text written to [timestamp.innerHTML] (lines 60-67). *)
Definition timestamp_text (currentTime : Q) : jsstring :=
  toLocaleString_2 (parseInt (remainder (currentTime / 60) 60))
    ++ js ":" ++ toLocaleString_2 (parseInt (remainder currentTime 60)).

(** *** The page as the player sees it *)

Inductive Handler : Type :=
| TogglePlay | VideoClick | Timeupdate | SeekInput | Keydown | Rewind
| Forward | Fullscreen | Ended | ResetControlsTimer | SpeedToggle
| SpeedSelect (option_index : nat) | CloseSpeedMenu.

Inductive Target : Type :=
| ById (id : jsstring)
| TheDocument
| SpeedOption (option_index : nat).

Record Binding : Type := mkBinding {
  target : Target;
  event_type : jsstring;
  handler : Handler
}.

Record Page : Type := mkPage {
  present : jsstring -> bool;     (* getElementById(id) is not null *)
  controls_bar : bool;            (* the container holds a .controls-bar *)
  speedOptions : nat;             (* buttons inside the speed menu *)
  currentTime : Q;
  duration : Number;
  playbackRate : Q;
  seekBar_value : Q;
  timestamp_innerHTML : jsstring;
  controls_opacity : jsstring;
  hideControlsTimeout : bool;     (* a hide timer is pending *)
  bindings : list Binding         (* listeners, in registration order *)
}.

Definition with_currentTime (t : Q) (p : Page) : Page :=
  mkPage (present p) (controls_bar p) (speedOptions p) t (duration p)
    (playbackRate p) (seekBar_value p) (timestamp_innerHTML p)
    (controls_opacity p) (hideControlsTimeout p) (bindings p).

Definition with_playbackRate (r : Q) (p : Page) : Page :=
  mkPage (present p) (controls_bar p) (speedOptions p) (currentTime p) (duration p)
    r (seekBar_value p) (timestamp_innerHTML p)
    (controls_opacity p) (hideControlsTimeout p) (bindings p).

Definition with_seekBar_value (v : Q) (p : Page) : Page :=
  mkPage (present p) (controls_bar p) (speedOptions p) (currentTime p) (duration p)
    (playbackRate p) v (timestamp_innerHTML p)
    (controls_opacity p) (hideControlsTimeout p) (bindings p).

Definition with_timestamp (t : jsstring) (p : Page) : Page :=
  mkPage (present p) (controls_bar p) (speedOptions p) (currentTime p) (duration p)
    (playbackRate p) (seekBar_value p) t
    (controls_opacity p) (hideControlsTimeout p) (bindings p).

Definition with_controls (opacity : jsstring) (timer : bool) (p : Page) : Page :=
  mkPage (present p) (controls_bar p) (speedOptions p) (currentTime p) (duration p)
    (playbackRate p) (seekBar_value p) (timestamp_innerHTML p)
    opacity timer (bindings p).

Definition with_binding (b : Binding) (p : Page) : Page :=
  mkPage (present p) (controls_bar p) (speedOptions p) (currentTime p) (duration p)
    (playbackRate p) (seekBar_value p) (timestamp_innerHTML p)
    (controls_opacity p) (hideControlsTimeout p) (bindings p ++ [b]).

(** Using a property of the node with this id: a [TypeError] when the
    lookup returned null. *)
Definition deref (id : jsstring) : Eff Page unit :=
  p ← get_state;
  if present p id then mret tt else throw TypeError.

Definition addEventListener (t : Target) (type : jsstring) (h : Handler)
  : Eff Page unit :=
  modify (with_binding (mkBinding t type h)).

Definition listen (id type : jsstring) (h : Handler) : Eff Page unit :=
  deref id ;; addEventListener (ById id) type h.

(** <<
    function resetControlsTimer() {
        showControls();
        clearTimeout(hideControlsTimeout);
        hideControlsTimeout = setTimeout(() => { hideControls(); }, 2500);
    }
    >> *)
Definition resetControlsTimer : Eff Page unit :=
  p ← get_state;
  (if controls_bar p then mret tt else throw TypeError) ;;
  modify (with_controls (js "1") true).

(** The [DOMContentLoaded] listener of the player block. *)
Definition init : Eff Page unit :=
  p ← get_state;
  if negb (present p (js "video")) || negb (present p (js "playerContainer"))
  then mret tt
  else
    deref (js "playPause") ;;
    addEventListener (ById (js "playPause")) (js "click") TogglePlay ;;
    addEventListener (ById (js "video")) (js "click") VideoClick ;;
    addEventListener (ById (js "video")) (js "timeupdate") Timeupdate ;;
    listen (js "seekBar") (js "input") SeekInput ;;
    addEventListener TheDocument (js "keydown") Keydown ;;
    listen (js "rewind") (js "click") Rewind ;;
    listen (js "forward") (js "click") Forward ;;
    listen (js "fullscreen") (js "click") Fullscreen ;;
    addEventListener (ById (js "video")) (js "ended") Ended ;;
    addEventListener (ById (js "playerContainer")) (js "mousemove") ResetControlsTimer ;;
    addEventListener (ById (js "playerContainer")) (js "touchstart") ResetControlsTimer ;;
    deref (js "speedMenu") ;;
    modify (with_playbackRate 1) ;;
    listen (js "speedBtn") (js "click") SpeedToggle ;;
    forEach (seq 0 (speedOptions p))
            (fun i => addEventListener (SpeedOption i) (js "click") (SpeedSelect i)) ;;
    addEventListener TheDocument (js "click") CloseSpeedMenu ;;
    resetControlsTimer.

(** [video.currentTime = x]: a non-finite value is refused. *)
Definition set_currentTime (x : Number) : Eff Page unit :=
  match x with
  | NaN => throw TypeError
  | Num q => modify (with_currentTime q)
  end.

(** <<
    document.addEventListener("keydown", (e) => {
        if(e.code === "ArrowRight"){
            video.currentTime = Math.min(video.currentTime + 10, video.duration);
        } else if(e.code === "ArrowLeft"){
            video.currentTime = Math.max(video.currentTime -10, 0);
        }
    });
    >> *)
Definition on_keydown (code : jsstring) : Eff Page unit :=
  p ← get_state;
  if jsstring_eqb code (js "ArrowRight") then
    set_currentTime (Math_min (Num (currentTime p + 10)) (duration p))
  else if jsstring_eqb code (js "ArrowLeft") then
    set_currentTime (Math_max (Num (currentTime p - 10)) (Num 0))
  else mret tt.

(** <<
    rewind.addEventListener("click", () => {
        video.currentTime = Math.max(video.currentTime - 88, 0);
    });
    forward.addEventListener("click", () => {
        video.currentTime = Math.min(video.currentTime + 88, video.duration);
    });
    >> *)
Definition on_rewind_click : Eff Page unit :=
  p ← get_state;
  set_currentTime (Math_max (Num (currentTime p - 88)) (Num 0)).

Definition on_forward_click : Eff Page unit :=
  p ← get_state;
  set_currentTime (Math_min (Num (currentTime p + 88)) (duration p)).

(** <<
    video.addEventListener("timeupdate", () => {
        if (!video.duration) return;
        seekBar.value = (video.currentTime / video.duration) * 100;
        timestamp.innerHTML = parseInt((video.currentTime/60)%60).toLocaleString(...)
          + ":" + parseInt(video.currentTime % 60).toLocaleString(...);
    });
    >>
    [!video.duration] holds of NaN and of zero. *)
Definition on_timeupdate : Eff Page unit :=
  p ← get_state;
  match duration p with
  | NaN => mret tt
  | Num d =>
      if Qeq_bool d 0 then mret tt
      else
        deref (js "seekBar") ;;
        modify (with_seekBar_value (currentTime p / d * 100)) ;;
        deref (js "timestamp") ;;
        modify (with_timestamp (timestamp_text (currentTime p)))
  end.

(** The four relative seeks: the skip buttons and the arrow keys. *)
Inductive RelativeSeek : Type := SkipBack | SkipForward | ArrowLeft | ArrowRight.

Definition seek_handler (a : RelativeSeek) : Eff Page unit :=
  match a with
  | SkipBack => on_rewind_click
  | SkipForward => on_forward_click
  | ArrowLeft => on_keydown (js "ArrowLeft")
  | ArrowRight => on_keydown (js "ArrowRight")
  end.

(** A page on which the player was set up, at the given position. *)
Definition playing (t d : Q) : Page :=
  mkPage (fun _ => true) true 0 t (Num d) 1 0 [] (js "1") true [].

End Player.

(** ** Autocomplete (the search script) *)

Module Search.

(** What the handler's promise is doing when the handler gives control
    back: settled, or waiting for the response of a request. *)
Inductive Outcome : Type :=
| Fulfilled
| Rejected (e : Exception)
| AwaitingFetch (query : jsstring).
    (* fetch(`/autocomplete?q=${encodeURIComponent(query)}`) is pending *)

Record Page : Type := mkPage {
  searchInput_value : jsstring;
  suggestions : option (list jsstring);   (* the rows of #suggestions;
                                             [None] when the element is missing *)
  requests : list jsstring;               (* queries sent to /autocomplete *)
  console : list jsstring
}.

Definition with_suggestions (rows : list jsstring) (p : Page) : Page :=
  mkPage (searchInput_value p) (Some rows) (requests p) (console p).

Definition with_request (query : jsstring) (p : Page) : Page :=
  mkPage (searchInput_value p) (suggestions p) (requests p ++ [query]) (console p).

Definition with_value (v : jsstring) (p : Page) : Page :=
  mkPage v (suggestions p) (requests p) (console p).

Definition with_console (line : jsstring) (p : Page) : Page :=
  mkPage (searchInput_value p) (suggestions p) (requests p) (console p ++ [line]).

(** [encodeURIComponent(s)] returns: [s] has no lone surrogate.  On a
    lone surrogate it throws a URIError. *)
Fixpoint well_formed (s : jsstring) : bool :=
  match s with
  | [] => true
  | c :: r =>
      if is_lead c then
        match r with
        | d :: r' => is_trail d && well_formed r'
        | [] => false
        end
      else negb (is_trail c) && well_formed r
  end.

(** The [input] listener, up to its first [await]:
    <<
    const query = searchInput.value;
    if (!query) {
        suggestions.innerHTML = "";
        return;
    }
    try {
        const res = await fetch(`/autocomplete?q=${encodeURIComponent(query)}`);
        ...
    } catch (e) {
        console.error("Autocomplete fetch error:", e);
    }
    >>
    The URIError of [encodeURIComponent] is thrown inside the [try]: it is
    logged and no request is sent. *)
Definition on_input (p : Page) : Outcome * Page :=
  let query := searchInput_value p in
  match query with
  | [] =>
      match suggestions p with
      | Some _ => (Fulfilled, with_suggestions [] p)
      | None => (Rejected TypeError, p)
      end
  | _ =>
      if well_formed query then (AwaitingFetch query, with_request query p)
      else (Fulfilled, with_console (js "Autocomplete fetch error:") p)
  end.

(** The rest of the listener once the response arrived: [Some titles] for
    a decoded array of items, [None] when the request or the decoding
    failed (the [catch] branch). *)
Definition on_response (data : option (list jsstring)) (p : Page) : Outcome * Page :=
  match data with
  | Some titles =>
      let p1 := with_console (js "Autocomplete data:") p in
      match suggestions p1 with
      | Some _ => (Fulfilled, with_suggestions titles p1)
      | None => (Fulfilled, with_console (js "Autocomplete fetch error:") p1)
      end
  | None => (Fulfilled, with_console (js "Autocomplete fetch error:") p)
  end.

(** [li.onclick]: the row's title goes to the search field and the list
    is emptied. *)
Definition on_row_click (title : jsstring) (p : Page) : Page :=
  with_suggestions [] (with_value title p).

End Search.

(** ** Vocabulary of the specification *)

Module Spec.

(** The persisted Watchlist decodes to the sequence [w] of identifiers. *)
Definition persisted (st : State) (w : list jsstring) : Prop :=
  getWatchlist st = (Normal (JArr (map JStr w)), st).

(** [contains(id)] *)
Definition contains (w : list jsstring) (id : jsstring) : bool :=
  bool_decide (id ∈ w).

Definition remove_all (id : jsstring) (w : list jsstring) : list jsstring :=
  List.filter (fun x => negb (jsstring_eqb x id)) w.

(** [toggle(id)] in the words of the specification: remove all
    occurrences of [id] when present, otherwise append [id] to the end. *)
Definition toggle (id : jsstring) (w : list jsstring) : list jsstring :=
  if contains w id then remove_all id w else w ++ [id].

(** The toggles of the page: the elements tagged [watchlist-btn]. *)
Definition toggles (d : list Element) : list NodeId :=
  querySelectorAll_class (js "watchlist-btn") d.

(** A toggle marked as remove-only: it carries the marker class. *)
Definition remove_only (d : list Element) (btn : NodeId) : Prop :=
  has_class (js "remove-btn") (element d btn) = true.

(** The test by which the script recognises the mark (line 411): the
    second class of the toggle is the marker class. *)
Definition remove_test (d : list Element) (btn : NodeId) : Prop :=
  classList_item d btn 1 = Some (js "remove-btn").

#[global] Instance remove_test_dec (d : list Element) (btn : NodeId) :
  Decision (remove_test d btn).
Proof. unfold remove_test. apply _. Defined.

(** Every toggle of the page sits inside a containing element (its card)
    that is not itself a toggle. *)
Definition toggles_in_cards (d : list Element) : Prop :=
  forall c, In c (toggles d) ->
    exists card, parentElement d c = Some card /\
                 has_class (js "watchlist-btn") (element d card) = false.

(** A mutation record that makes the observer bind and refresh. *)
Definition adds_nodes (m : MutationRecord) : bool :=
  jsstring_eqb (mutation_type m) (js "childList")
  && (0 <? length (addedNodes m))%nat.

(** The number of such records in a batch. *)
Definition rebinds (ms : list MutationRecord) : nat :=
  length (List.filter adds_nodes ms).

(** The state a statement leaves behind, whether it completed or threw. *)
Definition after {S A : Type} (m : Eff S A) (st : S) : S := snd (m st).

(** A page whose only content is its storage. *)
Definition storage_only (m : gmap jsstring jsstring) : State :=
  mkState m [] false false None [] [] [].

Definition stored (w : list jsstring) : State :=
  storage_only {[ WATCHLIST_KEY := JSON_stringify (map JStr w) ]}.

End Spec.
Export Spec.

(** ** Sample pages *)

Module Examples.

Definition node (parent : ParentNode) (id : jsstring) (classes : list jsstring)
    (anime : option jsstring) (link : option jsstring) : Element :=
  mkElement parent id classes anime link [] [].

(** A watchlist page: a grid with two cards, each a link holding a
    remove-only toggle, and the description button. *)
Definition watchlist_page : list Element :=
  [ node OfDocument [] [] None None;
    node (ChildOf 0) (js "watchlist-grid") [] None None;
    node (ChildOf 1) [] [js "card"] None (Some (js "/anime/x"));
    node (ChildOf 2) [] [js "watchlist-btn"; js "remove-btn"] (Some (js "x")) None;
    node (ChildOf 1) [] [js "card"] None (Some (js "/anime/y"));
    node (ChildOf 4) [] [js "watchlist-btn"; js "remove-btn"] (Some (js "y")) None;
    node (ChildOf 0) (js "description-watchlist-btn") [] (Some (js "x")) None ].

(** The same page with the classes of the first toggle in the other
    order: the marker class comes first. *)
Definition reordered_page : list Element :=
  [ node OfDocument [] [] None None;
    node (ChildOf 0) (js "watchlist-grid") [] None None;
    node (ChildOf 1) [] [js "card"] None (Some (js "/anime/x"));
    node (ChildOf 2) [] [js "remove-btn"; js "watchlist-btn"] (Some (js "x")) None;
    node (ChildOf 1) [] [js "card"] None (Some (js "/anime/y"));
    node (ChildOf 4) [] [js "watchlist-btn"; js "remove-btn"] (Some (js "y")) None;
    node (ChildOf 0) (js "description-watchlist-btn") [] (Some (js "x")) None ].

(** A search page: two cards with plain toggles, no description button. *)
Definition search_page : list Element :=
  [ node OfDocument [] [] None None;
    node (ChildOf 0) [] [js "card"] None (Some (js "/anime/x"));
    node (ChildOf 1) [] [js "watchlist-btn"] (Some (js "x")) None;
    node (ChildOf 0) [] [js "card"] None (Some (js "/anime/y"));
    node (ChildOf 3) [] [js "watchlist-btn"] (Some (js "y")) None ].

(** A page whose grid holds one card with a plain toggle; the card is not
    a link but carries a navigation listener of the templates. *)
Definition grid_page : list Element :=
  [ node OfDocument [] [] None None;
    node (ChildOf 0) (js "watchlist-grid") [] None None;
    mkElement (ChildOf 1) [] [js "card"] None None []
      [NavigationHandler (js "/anime/x")];
    node (ChildOf 2) [] [js "watchlist-btn"] (Some (js "x")) None;
    node (ChildOf 0) (js "description-watchlist-btn") [] (Some (js "x")) None ].

(** A card with a plain toggle, as the rendering code appends it to the
    grid of [grid_page]. *)
Definition injected_card : list Element :=
  [ node (ChildOf 1) [] [js "card"] None None;
    node (ChildOf 5) [] [js "watchlist-btn"] (Some (js "y")) None ].

Definition page (w : list jsstring) (d : list Element) : State :=
  mkState {[ WATCHLIST_KEY := JSON_stringify (map JStr w) ]} d
    false false None [] [] [].

(** [grid_page] with an empty Watchlist, once the watchlist script has
    initialised. *)
Definition initialised_grid : State := after init (page [] grid_page).

(** The same page after the rendering code appended [injected_card] to
    the grid, and the record that the observer receives for it. *)
Definition injected_grid : State :=
  with_document (document initialised_grid ++ injected_card) initialised_grid.

Definition card_added : MutationRecord := mkMutation (js "childList") [5%nat].

(** The watchlist page of a Watchlist holding "x", "y" and "z",
    initialised, after the rendering code appended the third card to its
    grid and the observer handled the record of that insertion. *)
Definition third_card : list Element :=
  [ node (ChildOf 1) [] [js "card"] None (Some (js "/anime/z"));
    node (ChildOf 7) [] [js "watchlist-btn"; js "remove-btn"] (Some (js "z")) None ].

Definition initialised_watchlist : State :=
  after init (page [js "x"; js "y"; js "z"] watchlist_page).

Definition rebound_watchlist : State :=
  after (observer_callback [mkMutation (js "childList") [7%nat]])
        (with_document (document initialised_watchlist ++ third_card)
                       initialised_watchlist).

End Examples.

(** ** Relations between states, used to state what a statement preserves *)

Module Relations.

(** What the string decoder returns once it has read the code unit [c]. *)
Definition decoded (c : N) (r : option (jsstring * jsstring))
  : option (jsstring * jsstring) :=
  '(t, rest) ← r; Some (c :: t, rest).

(** The answer of a parser that has two units of fuel per character (and
    one or two to spare) does not depend on the amount of fuel. *)
Definition fuel_independent (s : jsstring) : Prop :=
  (forall f f', (2 * length s + 1 <= f)%nat -> (2 * length s + 1 <= f')%nat ->
                parse_value f s = parse_value f' s) /\
  (forall f f', (2 * length s + 2 <= f)%nat -> (2 * length s + 2 <= f')%nat ->
                parse_elements f s = parse_elements f' s) /\
  (forall f f', (2 * length s + 2 <= f)%nat -> (2 * length s + 2 <= f')%nat ->
                parse_members f s = parse_members f' s).

(** The statement [m] relates every state to the state it leaves behind. *)
Definition preserves {S A : Type} (R : S -> S -> Prop) (m : Eff S A) : Prop :=
  forall st, R st (after m st).

(** What the refresh may do to one element: new text, and a parent that is
    either the old one or none. *)
Definition elem_evolves (e e' : Element) : Prop :=
  id_attr e' = id_attr e /\ classList e' = classList e /\
  dataset_anime e' = dataset_anime e /\ href e' = href e /\
  clickListeners e' = clickListeners e /\
  (parentNode e' = parentNode e \/ parentNode e' = Detached).

Definition doc_evolves (d d' : list Element) : Prop :=
  length d' = length d /\ forall n, elem_evolves (element d n) (element d' n).

(** The same, leaving the listeners out of the comparison. *)
Definition elem_shrinks (e e' : Element) : Prop :=
  id_attr e' = id_attr e /\ classList e' = classList e /\
  dataset_anime e' = dataset_anime e /\ href e' = href e /\
  (parentNode e' = parentNode e \/ parentNode e' = Detached).

Definition doc_shrinks (d d' : list Element) : Prop :=
  length d' = length d /\ forall n, elem_shrinks (element d n) (element d' n).

(** Nothing but the listeners differs. *)
Definition elem_rebound (e e' : Element) : Prop :=
  parentNode e' = parentNode e /\ id_attr e' = id_attr e /\
  classList e' = classList e /\ dataset_anime e' = dataset_anime e /\
  href e' = href e /\ textContent e' = textContent e.

Definition doc_rebound (d d' : list Element) : Prop :=
  length d' = length d /\ forall n, elem_rebound (element d n) (element d' n).

(** Only the node table differs between the two states. *)
Definition document_only (st st' : State) : Prop :=
  st' = with_document (document st') st.

(** The node table changed by new texts and removals only. *)
Definition tree_evolves (st st' : State) : Prop :=
  doc_evolves (document st) (document st').

(** The node table after a handler was bound to each node of [l]. *)
Definition bind_all (l : list NodeId) (d : list Element) : list Element :=
  fold_left (fun d' b => alter (add_listener (WatchlistClick b)) b d') l d.

(** Holds of every state the refresh loop goes through, started on the
    node table [d0] with the Watchlist [w] in storage: the storage still
    decodes to [w], the node table evolved from [d0], and no toggle lost or
    changed its parent. *)
Definition loop_inv (w : list jsstring) (d0 : list Element) (s : State) : Prop :=
  persisted s w /\
  doc_evolves d0 (document s) /\
  forall c, In c (toggles d0) ->
            parentNode (element (document s) c) = parentNode (element d0 c).

(** The identifier of toggle [c] is not in the Watchlist [w]. *)
Definition absent_from_watchlist (w : list jsstring) (d0 : list Element) (c : NodeId)
  : Prop :=
  Array_includes (map JStr w) (dataset_anime (element d0 c)) = false.

End Relations.
Export Relations.

(** ** Class lists ([DOMTokenList]) *)

Module TokenList.

(** [classList.contains(token)] *)
Definition classList_contains (token : jsstring) (classes : list jsstring) : bool :=
  existsb (jsstring_eqb token) classes.

(** [classList.add(token)]: nothing changes when the token is there. *)
Definition classList_add (token : jsstring) (classes : list jsstring) : list jsstring :=
  if classList_contains token classes then classes else classes ++ [token].

(** [classList.remove(token)] *)
Definition classList_remove (token : jsstring) (classes : list jsstring) : list jsstring :=
  List.filter (fun c => negb (jsstring_eqb c token)) classes.

End TokenList.
Export TokenList.

(** ** Navbar show on mouse near top ([page-behavior.js], lines 4-13) *)

Module Navbar.

(** <<
    document.addEventListener("mousemove", function (e) {
        const navbar = document.querySelector(".navbar");
        if (!navbar) return;
        if (e.clientY <= 50) {
            navbar.classList.add("show");
        } else {
            navbar.classList.remove("show");
        }
    });
    >>
    The page is the class list of the first element with the class
    "navbar", [None] when there is none. *)
Definition on_mousemove (clientY : Q) (navbar : option (list jsstring))
  : option (list jsstring) :=
  match navbar with
  | None => None
  | Some classes =>
      if Qle_bool clientY 50 then Some (classList_add (js "show") classes)
      else Some (classList_remove (js "show") classes)
  end.

(** The listener run on a sequence of pointer positions. *)
Definition mousemoves (ys : list Q) (navbar : option (list jsstring))
  : option (list jsstring) :=
  fold_left (fun page y => on_mousemove y page) ys navbar.

End Navbar.

(** ** Mode switch buttons ([page-behavior.js], lines 352-368) *)

Module ModeSwitch.

(** A URL: its query as the list of name-value pairs of [url.searchParams],
    and the rest of it. *)
Record URL : Type := mkURL {
  before_query : jsstring;                     (* scheme, host and path *)
  searchParams : list (jsstring * jsstring);
  fragment : jsstring
}.

(** The conversion of a string to a [USVString], which the methods of
    [URLSearchParams] apply to their arguments: a surrogate that is not
    part of a pair becomes U+FFFD. *)
Fixpoint USVString (s : jsstring) : jsstring :=
  match s with
  | [] => []
  | c :: r =>
      if is_lead c then
        match r with
        | d :: r' => if is_trail d then c :: d :: USVString r' else 65533 :: USVString r
        | [] => [65533]
        end
      else if is_trail c then 65533 :: USVString r
      else c :: USVString r
  end.

(** [searchParams.set(name, value)]: the first pair named [name] gets the
    value and the other pairs of that name go; without such a pair, a new
    one is appended. *)
Fixpoint without (name : jsstring) (params : list (jsstring * jsstring))
  : list (jsstring * jsstring) :=
  match params with
  | [] => []
  | (n, v) :: rest =>
      if jsstring_eqb n name then without name rest else (n, v) :: without name rest
  end.

Fixpoint set_first (name value : jsstring) (params : list (jsstring * jsstring))
  : list (jsstring * jsstring) :=
  match params with
  | [] => [(name, value)]
  | (n, v) :: rest =>
      if jsstring_eqb n name then (n, value) :: without name rest
      else (n, v) :: set_first name value rest
  end.

Definition URLSearchParams_set (name value : jsstring) (params : list (jsstring * jsstring))
  : list (jsstring * jsstring) :=
  set_first (USVString name) (USVString value) params.

(** [searchParams.get(name)]: the value of the first pair of that name,
    for a name without lone surrogates. *)
Fixpoint URLSearchParams_get (name : jsstring) (params : list (jsstring * jsstring))
  : option jsstring :=
  match params with
  | [] => None
  | (n, v) :: rest => if jsstring_eqb n name then Some v else URLSearchParams_get name rest
  end.

(** [searchParams.getAll(name)], for a name without lone surrogates. *)
Definition URLSearchParams_getAll (name : jsstring) (params : list (jsstring * jsstring))
  : list jsstring :=
  map snd (List.filter (fun nv => jsstring_eqb (fst nv) name) params).

Definition with_searchParams (params : list (jsstring * jsstring)) (u : URL) : URL :=
  mkURL (before_query u) params (fragment u).

Record Button : Type := mkButton {
  dataset_mode : option jsstring;     (* data-mode; [None] is undefined *)
  dataset_title : option jsstring     (* data-title *)
}.

Record Page : Type := mkPage {
  location : URL;                     (* window.location *)
  navigations : list URL;             (* assignments to window.location *)
  console : list jsstring
}.

(** <<
    btn.addEventListener("click", () => {
        const mode = btn.dataset.mode;
        const url = new URL(window.location);
        const title = btn.dataset.title
        console.log("switching to " + mode);
        if (title) {
            url.searchParams.set("title", title);
        }
        url.searchParams.set("mode", mode);
        window.location = url;
    });
    >>
    The destination of the navigation. *)
Definition destination (btn : Button) (current : URL) : URL :=
  let params :=
    match dataset_title btn with
    | Some (c :: title) =>
        URLSearchParams_set (js "title") (c :: title) (searchParams current)
    | _ => searchParams current          (* undefined or empty: falsy *)
    end in
  with_searchParams
    (URLSearchParams_set (js "mode") (ToString (dataset_mode btn)) params) current.

Definition on_click (btn : Button) (p : Page) : Page :=
  mkPage (location p)
         (navigations p ++ [destination btn (location p)])
         (console p ++ [js "switching to " ++ ToString (dataset_mode btn)]).

End ModeSwitch.

(** ** The player's controls ([page-behavior.js], lines 32-54 and 70-167) *)

Module Controls.

Import Player.

(** *** Play and pause (lines 32-54, 102-106) *)

Record Playback : Type := mkPlayback {
  paused : bool;                      (* video.paused *)
  may_play : bool;                    (* video.play() is allowed to start playback *)
  supports_rate : Q -> bool;          (* the playback rates the user agent supports *)
  icons : list (list jsstring);       (* the class lists of the elements inside
                                         playPause, in document order *)
  playIcon : option nat;              (* playPause.querySelector(".play"): the position
                                         of an element of [icons]; [None] is null *)
  pauseIcon : option nat              (* playPause.querySelector(".pause") *)
}.

Definition with_paused (b : bool) (s : Playback) : Playback :=
  mkPlayback b (may_play s) (supports_rate s) (icons s) (playIcon s) (pauseIcon s).

Definition with_icons (l : list (list jsstring)) (s : Playback) : Playback :=
  mkPlayback (paused s) (may_play s) (supports_rate s) l (playIcon s) (pauseIcon s).

(** [video.play()]: playback starts unless the user agent refuses it; the
    promise it returns is dropped. *)
Definition video_play : Eff Playback unit :=
  modify (fun s => if may_play s then with_paused false s else s).

Definition video_pause : Eff Playback unit := modify (with_paused true).

(** [icon.classList.<f>("hidden")] for the element that [icon] refers to;
    a [TypeError] when [icon] is null. *)
Definition icon_classList (icon : Playback -> option nat)
    (f : jsstring -> list jsstring -> list jsstring) : Eff Playback unit := fun s =>
  match icon s with
  | Some i => (Normal tt, with_icons (alter (f (js "hidden")) i (icons s)) s)
  | None => (Throw TypeError, s)
  end.

(** <<
    function togglePlay() {
        if (video.paused) {
            video.play();
            playIcon.classList.add("hidden");
            pauseIcon.classList.remove("hidden");
        } else {
            video.pause();
            playIcon.classList.remove("hidden");
            pauseIcon.classList.add("hidden");
        }
    }
    >> *)
Definition togglePlay : Eff Playback unit :=
  s ← get_state;
  if paused s then
    video_play ;;
    icon_classList playIcon classList_add ;;
    icon_classList pauseIcon classList_remove
  else
    video_pause ;;
    icon_classList playIcon classList_remove ;;
    icon_classList pauseIcon classList_add.

(** <<
    video.addEventListener("ended", () => {
        playIcon.classList.remove("hidden");
        pauseIcon.classList.add("hidden");
    });
    >> *)
Definition on_ended : Eff Playback unit :=
  icon_classList playIcon classList_remove ;;
  icon_classList pauseIcon classList_add.

(** *** Seeking with the range control (lines 70-74) *)

(** <<
    seekBar.addEventListener("input", () => {
        if (!video.duration) return;
        video.currentTime = (seekBar.value / 100) * video.duration;
    });
    >> *)
Definition on_seek_input : Eff Page unit :=
  p ← get_state;
  match duration p with
  | NaN => mret tt
  | Num d =>
      if Qeq_bool d 0 then mret tt
      else set_currentTime (Num (seekBar_value p / 100 * d))
  end.

(** *** The speed menu (lines 133-164) *)

Record SpeedButton : Type := mkSpeedButton {
  speed_value : Number;             (* parseFloat(btn.dataset.speed); [NaN] for
                                       every value that is not a finite number *)
  button_classes : list jsstring    (* btn.classList *)
}.

Record SpeedMenu : Type := mkSpeedMenu {
  display : jsstring;               (* speedMenu.style.display *)
  speedButtons : list SpeedButton;  (* speedMenu.querySelectorAll("button") *)
  currentSpeed : Q
}.

Definition with_display (d : jsstring) (m : SpeedMenu) : SpeedMenu :=
  mkSpeedMenu d (speedButtons m) (currentSpeed m).

Definition with_classes (f : list jsstring -> list jsstring) (b : SpeedButton)
  : SpeedButton :=
  mkSpeedButton (speed_value b) (f (button_classes b)).

(** The buttons once [btn] was selected:
    <<
    speedOptions.forEach(b => b.classList.remove("active"));
    btn.classList.add("active");
    >> *)
Definition mark_active (btn : nat) (buttons : list SpeedButton) : list SpeedButton :=
  alter (with_classes (classList_add (js "active"))) btn
        (map (with_classes (classList_remove (js "active"))) buttons).

(** *** The overlay timer (lines 108-131) *)

Record Overlay : Type := mkOverlay {
  timers : list nat;                    (* the pending timeouts, by identifier *)
  next_timer : nat;                     (* the identifier that setTimeout returns next *)
  hideControlsTimeout : option nat      (* the variable; [None] is undefined *)
}.

(** [clearTimeout(id)]: a timeout that is not pending is ignored. *)
Definition clearTimeout (id : option nat) (pending : list nat) : list nat :=
  match id with
  | Some i => List.filter (fun j => negb (Nat.eqb j i)) pending
  | None => pending
  end.

(** *** Fullscreen (lines 93-100) *)

Inductive FullscreenCall : Type := RequestFullscreen | ExitFullscreen.

(** *** The whole player *)

Record State : Type := mkState {
  page : Page;                          (* the part that [Player] describes *)
  playback : Playback;
  computed_opacity : jsstring;          (* getComputedStyle(controls bar).opacity *)
  menu : SpeedMenu;
  overlay : Overlay;
  fullscreenElement : bool;             (* document.fullscreenElement is not null *)
  fullscreen_calls : list FullscreenCall;
  propagationStopped : bool;            (* flag of the event being dispatched *)
  reported : list Exception             (* exceptions no handler caught *)
}.

Definition with_page (p : Page) (st : State) : State :=
  mkState p (playback st) (computed_opacity st) (menu st) (overlay st)
    (fullscreenElement st) (fullscreen_calls st) (propagationStopped st) (reported st).

Definition with_playback (b : Playback) (st : State) : State :=
  mkState (page st) b (computed_opacity st) (menu st) (overlay st)
    (fullscreenElement st) (fullscreen_calls st) (propagationStopped st) (reported st).

Definition with_menu (m : SpeedMenu) (st : State) : State :=
  mkState (page st) (playback st) (computed_opacity st) m (overlay st)
    (fullscreenElement st) (fullscreen_calls st) (propagationStopped st) (reported st).

Definition with_overlay (o : Overlay) (st : State) : State :=
  mkState (page st) (playback st) (computed_opacity st) (menu st) o
    (fullscreenElement st) (fullscreen_calls st) (propagationStopped st) (reported st).

Definition with_fullscreen_call (c : FullscreenCall) (st : State) : State :=
  mkState (page st) (playback st) (computed_opacity st) (menu st) (overlay st)
    (fullscreenElement st) (fullscreen_calls st ++ [c]) (propagationStopped st)
    (reported st).

Definition with_stopped (b : bool) (st : State) : State :=
  mkState (page st) (playback st) (computed_opacity st) (menu st) (overlay st)
    (fullscreenElement st) (fullscreen_calls st) b (reported st).

Definition with_reported (r : list Exception) (st : State) : State :=
  mkState (page st) (playback st) (computed_opacity st) (menu st) (overlay st)
    (fullscreenElement st) (fullscreen_calls st) (propagationStopped st) r.

(** A statement on a part of the player, run on the whole. *)
Definition on_page {A : Type} (m : Eff Page A) : Eff State A := fun st =>
  let '(r, p) := m (page st) in (r, with_page p st).

Definition on_playback {A : Type} (m : Eff Playback A) : Eff State A := fun st =>
  let '(r, b) := m (playback st) in (r, with_playback b st).

(** <<
    video.addEventListener("click", () => {
        const controlsVisible =
          window.getComputedStyle(container.querySelector(".controls-bar")).opacity === "1";
        if (controlsVisible) { togglePlay(); }
    });
    >> *)
Definition on_video_click : Eff State unit :=
  st ← get_state;
  if controls_bar (page st) then
    if jsstring_eqb (computed_opacity st) (js "1") then on_playback togglePlay
    else mret tt
  else throw TypeError.

(** <<
    fullscreen.addEventListener("click", () => {
        if (!document.fullscreenElement) { container.requestFullscreen(); }
        else { document.exitFullscreen(); }
    });
    >> *)
Definition on_fullscreen_click : Eff State unit :=
  st ← get_state;
  if fullscreenElement st then modify (with_fullscreen_call ExitFullscreen)
  else modify (with_fullscreen_call RequestFullscreen).

(** <<
    function showControls() { container.querySelector(".controls-bar").style.opacity = "1"; }
    function hideControls() { container.querySelector(".controls-bar").style.opacity = "0"; }
    >>
    [pending] says whether a hide timer is pending afterwards. *)
Definition set_opacity (opacity : jsstring) (pending : bool) : Eff State unit :=
  st ← get_state;
  if controls_bar (page st)
  then modify (fun st => with_page (with_controls opacity pending (page st)) st)
  else throw TypeError.

(** <<
    function resetControlsTimer() {
        showControls();
        clearTimeout(hideControlsTimeout);
        hideControlsTimeout = setTimeout(() => { hideControls(); }, 2500);
    }
    >> *)
Definition resetControlsTimer : Eff State unit :=
  set_opacity (js "1") true ;;
  modify (fun st =>
    let o := overlay st in
    with_overlay
      (mkOverlay (clearTimeout (hideControlsTimeout o) (timers o) ++ [next_timer o])
                 (S (next_timer o))
                 (Some (next_timer o)))
      st).

(** The timeout [id] expires: it is no longer pending and its callback,
    [hideControls], runs.  A timeout that was cleared does not expire. *)
Definition on_timeout (id : nat) : Eff State unit :=
  st ← get_state;
  if existsb (Nat.eqb id) (timers (overlay st)) then
    modify (fun st =>
      let o := overlay st in
      with_overlay
        (mkOverlay (List.filter (fun j => negb (Nat.eqb j id)) (timers o))
                   (next_timer o) (hideControlsTimeout o))
        st) ;;
    st ← get_state;
    set_opacity (js "0") (negb (bool_decide (timers (overlay st) = [])))
  else mret tt.

(** <<
    speedBtn.addEventListener("click", (e) => {
        e.stopPropagation();
        speedMenu.style.display =
            speedMenu.style.display === "block" ? "none" : "block";
    });
    >> *)
Definition on_speedBtn_click : Eff State unit :=
  modify (with_stopped true) ;;
  modify (fun st =>
    with_menu
      (with_display (if jsstring_eqb (display (menu st)) (js "block")
                     then js "none" else js "block")
                    (menu st))
      st).

(** <<
    btn.addEventListener("click", () => {
        const speed = parseFloat(btn.dataset.speed);
        video.playbackRate = speed;
        currentSpeed = speed;
        speedOptions.forEach(b => b.classList.remove("active"));
        btn.classList.add("active");
        speedMenu.style.display = "none";
    });
    >>
    for the button at position [btn] of [speedOptions].  The setter of
    [playbackRate] refuses a rate that is not finite with a [TypeError] and
    a finite rate that the user agent does not support with a
    [NotSupportedError]. *)
Definition on_speed_option_click (btn : nat) : Eff State unit :=
  st ← get_state;
  match speedButtons (menu st) !! btn with
  | Some b =>
      match speed_value b with
      | NaN => throw TypeError
      | Num speed =>
          if supports_rate (playback st) speed then
            modify (fun st => with_page (with_playbackRate speed (page st)) st) ;;
            modify (fun st =>
              with_menu
                (mkSpeedMenu (js "none") (mark_active btn (speedButtons (menu st))) speed)
                st)
          else throw NotSupportedError
      end
  | None => mret tt                   (* each listener belongs to a button of the list *)
  end.

(** <<
    document.addEventListener("click", () => { speedMenu.style.display = "none"; });
    >> *)
Definition on_document_click : Eff State unit :=
  modify (fun st => with_menu (with_display (js "none") (menu st)) st).

(** *** Dispatching an event to the registered listeners *)

Record Event : Type := mkEvent {
  type : jsstring;
  path : list Target;       (* the target first, then its ancestors in turn;
                               distinct elements *)
  code : jsstring           (* e.code of a keyboard event *)
}.

(** The body of each listener that [Player.init] registers. *)
Definition run_handler (e : Event) (h : Handler) : Eff State unit :=
  match h with
  | TogglePlay => on_playback togglePlay
  | VideoClick => on_video_click
  | Timeupdate => on_page on_timeupdate
  | SeekInput => on_page on_seek_input
  | Keydown => on_page (on_keydown (code e))
  | Rewind => on_page on_rewind_click
  | Forward => on_page on_forward_click
  | Fullscreen => on_fullscreen_click
  | Ended => on_playback on_ended
  | ResetControlsTimer => resetControlsTimer
  | SpeedToggle => on_speedBtn_click
  | SpeedSelect btn => on_speed_option_click btn
  | CloseSpeedMenu => on_document_click
  end.

Definition target_eqb (a b : Target) : bool :=
  match a, b with
  | ById x, ById y => jsstring_eqb x y
  | TheDocument, TheDocument => true
  | SpeedOption i, SpeedOption j => Nat.eqb i j
  | _, _ => false
  end.

(** The listeners of [t] for events of the given type, in registration
    order. *)
Definition listeners (bs : list Binding) (t : Target) (type : jsstring) : list Handler :=
  map handler
      (List.filter (fun b => target_eqb (target b) t && jsstring_eqb (event_type b) type)
                   bs).

(** An exception thrown by a listener is reported and the dispatch goes
    on. *)
Definition invoke (e : Event) (h : Handler) (st : State) : State :=
  match run_handler e h st with
  | (Normal _, st') => st'
  | (Throw x, st') => with_reported (reported st' ++ [x]) st'
  end.

Definition invoke_listeners (e : Event) (t : Target) (st : State) : State :=
  if propagationStopped st then st
  else fold_left (fun s h => invoke e h s)
                 (listeners (bindings (page st)) t (type e)) st.

Definition dispatch (e : Event) (st : State) : State :=
  fold_left (fun s t => invoke_listeners e t s) (path e) (with_stopped false st).

(** What the player reacts to once the controls are set up: pointer or
    touch activity inside the container, and the expiry of a timeout. *)
Inductive Input : Type :=
| Activity
| Expiry (id : nat).

Definition react (i : Input) (st : State) : State :=
  match i with
  | Activity => snd (resetControlsTimer st)
  | Expiry id => snd (on_timeout id st)
  end.

End Controls.

(** ** The views of the Watchlist: glyphs, labels, entries *)

Module Views.




(** The nodes that a click on [n] bubbles to: its ancestors, nearest first. *)
Definition ancestors (d : list Element) (n : NodeId) : list NodeId :=
  tail (event_path (length d) d n).

(** An entry of the stored array: an identifier, or the blank that a
    toggle without [data-anime] leaves. *)
Definition is_entry (v : JSValue) : bool :=
  match v with
  | JStr _ | JNull | JUndefined => true
  | _ => false
  end.

(** The value that [JSON.parse] gives back for an entry written by
    [JSON.stringify]. *)
Definition reread (v : JSValue) : JSValue :=
  match v with
  | JUndefined => JNull
  | _ => v
  end.

End Views.
Export Views.

(** ** The player's controls: what they should show *)

Module ControlsSpec.

Import Player Controls.

(** The icons show the state of the video: the play icon is hidden exactly
    while the video plays, the pause icon exactly while it is paused. *)
Definition icons_agree (s : Playback) : Prop :=
  exists i j play pause,
    playIcon s = Some i /\ pauseIcon s = Some j /\
    icons s !! i = Some play /\ icons s !! j = Some pause /\
    classList_contains (js "hidden") play = negb (paused s) /\
    classList_contains (js "hidden") pause = paused s.

(** The elements that the player's initialisation dereferences. *)
Definition required_controls : list jsstring :=
  [js "playPause"; js "seekBar"; js "rewind"; js "forward"; js "fullscreen";
   js "speedMenu"; js "speedBtn"].

(** A click on [target] that bubbles through [ancestors]. *)
Definition click (target : Target) (ancestors : list Target) : Event :=
  mkEvent (js "click") (target :: ancestors) [].

(** A page with a complete player and [n] speed buttons, before the
    script ran. *)
Definition complete_page (n : nat) : Page :=
  mkPage (fun _ => true) true n 0 NaN 1 0 [] [] false [].

(** The player on [complete_page 3] once [Player.init] ran, paused, with
    the rates 0.5, 1 and 2 on offer. *)
Definition sample : State :=
  mkState (snd (init (complete_page 3)))
          (mkPlayback true true (fun rate => Qle_bool 0 rate)
                      [[js "play"]; [js "pause"; js "hidden"]] (Some 0%nat) (Some 1%nat))
          (js "1")
          (mkSpeedMenu [] [mkSpeedButton (Num (1 # 2)) []; mkSpeedButton (Num 1) [js "active"];
                           mkSpeedButton (Num 2) []] 1)
          (mkOverlay [] 0 None)
          false [] false [].

(** What a listener other than the speed button's does to the dispatch
    and to the menu: the propagation flag and the listeners stay, and the
    menu is as it was or closed. *)
Definition undisturbed (st st' : State) : Prop :=
  propagationStopped st' = propagationStopped st /\
  bindings (page st') = bindings (page st) /\
  (display (menu st') = display (menu st) \/ display (menu st') = js "none").

(** The controls are visible exactly while a hide timer is pending, and
    no more than one is: either none is pending and the controls are
    hidden, or the only pending timer is the one the variable names and
    the controls are shown. *)
Definition overlay_consistent (st : State) : Prop :=
  (timers (overlay st) = [] /\ controls_opacity (page st) = js "0") \/
  (exists id, timers (overlay st) = [id] /\
              hideControlsTimeout (overlay st) = Some id /\
              controls_opacity (page st) = js "1").

(** The statement leaves the listeners of the page alone. *)
Definition same_bindings (p p' : Page) : Prop := bindings p' = bindings p.

End ControlsSpec.

(** ** A session on the search page *)

Module Session.

Import Search.

(** What happens on the search page: the user edits the field (an [input]
    event follows), the response of a request arrives, the user clicks a
    row of the list. *)
Inductive Event : Type :=
| Typed (text : jsstring)
| Arrived (data : option (list jsstring))
| RowClicked (row : nat).

Definition step (p : Page) (e : Event) : Page :=
  match e with
  | Typed text => snd (on_input (with_value text p))
  | Arrived data => snd (on_response data p)
  | RowClicked row =>
      match suggestions p with
      | Some rows =>
          match rows !! row with
          | Some title => on_row_click title p
          | None => p
          end
      | None => p
      end
  end.

(** The texts typed, in order. *)
Definition typed (events : list Event) : list jsstring :=
  flat_map (fun e => match e with Typed text => [text] | _ => [] end) events.

(** A query for which the listener sends a request: not empty, and
    without a lone surrogate. *)
Definition sendable (query : jsstring) : bool :=
  negb (bool_decide (query = [])) && well_formed query.

End Session.

(** ** The digits of the timestamp *)

Module Clock.

(** The two decimal digits of a number below one hundred. *)
Definition two_digits (k : Z) : jsstring :=
  [Z.to_N (48 + k / 10); Z.to_N (48 + k mod 10)].

End Clock.

(** * Properties *)

(** ** JSON: the parser always has enough fuel *)

Section JSONFuel.

Lemma skip_ws_length (s : jsstring) : (length (skip_ws s) <= length s)%nat.
Proof.
  induction s as [| c s IH]; [reflexivity |].
  cbn [skip_ws]. destruct (is_ws c); cbn [length]; lia.
Qed.

Lemma parse_chars_length (n : nat) :
  forall s t r, (length s <= n)%nat -> parse_chars s = Some (t, r) ->
                (length r < length s)%nat.
Proof.
  induction n as [| n IH]; intros s t r Hn Hp.
  - destruct s; [discriminate | cbn in Hn; lia].
  - destruct s as [| c s]; [discriminate |].
    cbn [parse_chars length] in *.
    destruct (c =? 34); [injection Hp as _ <-; lia |].
    destruct (c =? 92).
    + destruct s as [| e s]; [discriminate |].
      destruct (e =? 117).
      * destruct s as [| h1 [| h2 [| h3 [| h4 s]]]]; try discriminate.
        destruct (hexval h1), (hexval h2), (hexval h3), (hexval h4);
          try discriminate.
        cbn [mbind option_bind] in Hp.
        destruct (parse_chars s) as [[t' r'] |] eqn:Hs; [| discriminate].
        injection Hp as _ <-.
        apply IH in Hs; cbn [length] in *; lia.
      * destruct (if e =? 34 then _ else _); [| discriminate].
        cbn [mbind option_bind] in Hp.
        destruct (parse_chars s) as [[t' r'] |] eqn:Hs; [| discriminate].
        injection Hp as _ <-.
        apply IH in Hs; cbn [length] in *; lia.
    + destruct (c <? 32); [discriminate |].
      cbn [mbind option_bind] in Hp.
      destruct (parse_chars s) as [[t' r'] |] eqn:Hs; [| discriminate].
      injection Hp as _ <-.
      apply IH in Hs; lia.
Qed.

Lemma take_digits_length (s : jsstring) :
  (length (snd (take_digits s)) <= length s)%nat.
Proof.
  induction s as [| c s IH]; [reflexivity |].
  cbn [take_digits]. destruct (is_digit c); [| reflexivity].
  destruct (take_digits s) as [ds rest]. cbn [snd length] in *. lia.
Qed.

Lemma lex_int_length (s lit r : jsstring) :
  lex_int s = Some (lit, r) -> (length r < length s)%nat.
Proof.
  unfold lex_int. destruct s as [| c s]; [discriminate |].
  destruct (c =? 48); [intros H; injection H as _ <-; cbn; lia |].
  destruct (is_digit c); [| discriminate].
  pose proof (take_digits_length s) as Hd.
  destruct (take_digits s) as [ds rest]. intros H. injection H as _ <-.
  cbn [snd length] in *. lia.
Qed.

Lemma lex_frac_length (s lit r : jsstring) :
  lex_frac s = Some (lit, r) -> (length r <= length s)%nat.
Proof.
  unfold lex_frac. destruct s as [| c s]; [intros H; injection H as _ <-; lia |].
  destruct (c =? 46); [| intros H; injection H as _ <-; lia].
  pose proof (take_digits_length s) as Hd.
  destruct (take_digits s) as [[| d ds] rest]; [discriminate |].
  intros H. injection H as _ <-. cbn [snd length] in *. lia.
Qed.

Lemma take_digits_rest (s ds rest : jsstring) :
  take_digits s = (ds, rest) -> (length rest <= length s)%nat.
Proof.
  intros H. pose proof (take_digits_length s) as Hl. rewrite H in Hl. exact Hl.
Qed.

Lemma lex_exp_length (s lit r : jsstring) :
  lex_exp s = Some (lit, r) -> (length r <= length s)%nat.
Proof.
  unfold lex_exp. destruct s as [| c s]; [intros H; injection H as _ <-; lia |].
  destruct ((c =? 101) || (c =? 69))%bool; [| intros H; injection H as _ <-; lia].
  destruct s as [| g s'].
  - cbn. discriminate.
  - destruct ((g =? 43) || (g =? 45))%bool.
    + destruct (take_digits s') as [[| d ds] rest] eqn:Hd; [discriminate |].
      intros H. injection H as _ <-. apply take_digits_rest in Hd.
      cbn [length] in *. lia.
    + destruct (take_digits (g :: s')) as [[| d ds] rest] eqn:Hd; [discriminate |].
      intros H. injection H as _ <-. apply take_digits_rest in Hd.
      cbn [length] in *. lia.
Qed.

Lemma lex_number_length (s lit r : jsstring) :
  lex_number s = Some (lit, r) -> (length r < length s)%nat.
Proof.
  assert (Hrest : forall sign s1,
            (length s1 <= length s)%nat ->
            ('(i, s2) ← lex_int s1; '(f, s3) ← lex_frac s2; '(e, s4) ← lex_exp s3;
             Some (sign ++ i ++ f ++ e, s4)) = Some (lit, r) ->
            (length r < length s)%nat).
  { intros sign s1 Hs1.
    destruct (lex_int s1) as [[i s2] |] eqn:Hi; [| discriminate].
    cbn [mbind option_bind].
    destruct (lex_frac s2) as [[f s3] |] eqn:Hf; [| discriminate].
    cbn [mbind option_bind].
    destruct (lex_exp s3) as [[e s4] |] eqn:He; [| discriminate].
    cbn [mbind option_bind]. intros H. injection H as _ <-.
    apply lex_int_length in Hi. apply lex_frac_length in Hf.
    apply lex_exp_length in He. lia. }
  unfold lex_number. destruct s as [| c s'].
  - apply Hrest. lia.
  - destruct (c =? 45); apply Hrest; cbn [length]; lia.
Qed.

Lemma length_drop_le {A : Type} (n : nat) (l : list A) : (n <= length l)%nat ->
  (length (drop n l) + n = length l)%nat.
Proof. intros H. rewrite length_drop. lia. Qed.

Lemma is_prefix_length (t s : jsstring) :
  is_prefix t s = true -> (length t <= length s)%nat.
Proof.
  revert s. induction t as [| a t IH]; intros s H; [cbn; lia |].
  destruct s as [| b s]; [discriminate |].
  cbn [is_prefix] in H. apply andb_prop in H as [_ H]. apply IH in H.
  cbn [length]. lia.
Qed.

(** A successful parse consumes at least one character. *)
Lemma parse_progress (fuel : nat) :
  (forall s v r, parse_value fuel s = Some (v, r) -> (length r < length s)%nat) /\
  (forall s vs r, parse_elements fuel s = Some (vs, r) -> (length r < length s)%nat) /\
  (forall s ms r, parse_members fuel s = Some (ms, r) -> (length r < length s)%nat).
Proof.
  induction fuel as [| fuel (IHv & IHe & IHm)];
    [repeat split; intros; discriminate |].
  assert (Hv : forall s v r, parse_value (S fuel) s = Some (v, r) ->
                             (length r < length s)%nat).
  { intros s v r. cbn [parse_value]. pose proof (skip_ws_length s) as Hws.
    destruct (skip_ws s) as [| c s1] eqn:Hs; [discriminate |]. cbn [length] in Hws.
    destruct (c =? 34).
    { destruct (parse_chars s1) as [[t r'] |] eqn:Hc; [| discriminate].
      cbn [mbind option_bind]. intros H. injection H as _ <-.
      apply (parse_chars_length (length s1)) in Hc; lia. }
    destruct (c =? 91).
    { pose proof (skip_ws_length s1) as Hws1.
      destruct (skip_ws s1) as [| d s2]; [discriminate |]. cbn [length] in Hws1.
      destruct (d =? 93); [intros H; injection H as _ <-; lia |].
      destruct (parse_elements fuel s1) as [[vs r'] |] eqn:He; [| discriminate].
      cbn [mbind option_bind]. intros H. injection H as _ <-.
      apply IHe in He. lia. }
    destruct (c =? 123).
    { pose proof (skip_ws_length s1) as Hws1.
      destruct (skip_ws s1) as [| d s2]; [discriminate |]. cbn [length] in Hws1.
      destruct (d =? 125); [intros H; injection H as _ <-; lia |].
      destruct (parse_members fuel s1) as [[ms r'] |] eqn:He; [| discriminate].
      cbn [mbind option_bind]. intros H. injection H as _ <-.
      apply IHm in He. lia. }
    destruct (is_prefix (js "true") (c :: s1)) eqn:Ht.
    { intros H. injection H as _ <-. apply is_prefix_length in Ht.
      rewrite length_drop. cbn [length] in *. change (length (js "true")) with 4%nat in Ht. lia. }
    destruct (is_prefix (js "false") (c :: s1)) eqn:Hf.
    { intros H. injection H as _ <-. apply is_prefix_length in Hf.
      rewrite length_drop. cbn [length] in *. change (length (js "false")) with 5%nat in Hf. lia. }
    destruct (is_prefix (js "null") (c :: s1)) eqn:Hn.
    { intros H. injection H as _ <-. apply is_prefix_length in Hn.
      rewrite length_drop. cbn [length] in *. change (length (js "null")) with 4%nat in Hn. lia. }
    destruct (lex_number (c :: s1)) as [[lit r'] |] eqn:Hl; [| discriminate].
    cbn [mbind option_bind]. intros H. injection H as _ <-.
    apply lex_number_length in Hl. cbn [length] in *. lia. }
  split; [exact Hv |]. split.
  - intros s vs r. cbn [parse_elements].
    destruct (parse_value fuel s) as [[v r1] |] eqn:Hpv; [| discriminate].
    cbn [mbind option_bind]. apply IHv in Hpv.
    pose proof (skip_ws_length r1) as Hws.
    destruct (skip_ws r1) as [| d r2]; [discriminate |]. cbn [length] in Hws.
    destruct (d =? 44).
    + destruct (parse_elements fuel r2) as [[vs' r'] |] eqn:He; [| discriminate].
      cbn [mbind option_bind]. intros H. injection H as _ <-. apply IHe in He. lia.
    + destruct (d =? 93); [| discriminate]. intros H. injection H as _ <-. lia.
  - intros s ms r. cbn [parse_members]. pose proof (skip_ws_length s) as Hws.
    destruct (skip_ws s) as [| c s1]; [discriminate |]. cbn [length] in Hws.
    destruct (c =? 34); [| discriminate].
    destruct (parse_chars s1) as [[k r1] |] eqn:Hc; [| discriminate].
    cbn [mbind option_bind]. apply (parse_chars_length (length s1)) in Hc; [| lia].
    pose proof (skip_ws_length r1) as Hws1.
    destruct (skip_ws r1) as [| d r2]; [discriminate |]. cbn [length] in Hws1.
    destruct (d =? 58); [| discriminate].
    destruct (parse_value fuel r2) as [[v r3] |] eqn:Hpv; [| discriminate].
    cbn [mbind option_bind]. apply IHv in Hpv.
    pose proof (skip_ws_length r3) as Hws3.
    destruct (skip_ws r3) as [| e r4]; [discriminate |]. cbn [length] in Hws3.
    destruct (e =? 44).
    + destruct (parse_members fuel r4) as [[ms' r'] |] eqn:He; [| discriminate].
      cbn [mbind option_bind]. intros H. injection H as _ <-. apply IHm in He. lia.
    + destruct (e =? 125); [| discriminate]. intros H. injection H as _ <-. lia.
Qed.

Lemma parse_fuel_independent (n : nat) :
  forall s, length s = n -> fuel_independent s.
Proof.
  induction n as [n IH] using lt_wf_ind. intros s Hlen.
  assert (IHs : forall s', (length s' < length s)%nat -> fuel_independent s')
    by (intros s' Hs'; apply (IH (length s')); [lia | reflexivity]).
  clear IH.
  assert (Hv : forall f f', (2 * length s + 1 <= f)%nat -> (2 * length s + 1 <= f')%nat ->
                parse_value f s = parse_value f' s).
  { intros [| g] [| g'] Hf Hf'; try lia. cbn [parse_value].
    pose proof (skip_ws_length s) as Hws.
    destruct (skip_ws s) as [| c s1]; [reflexivity |]. cbn [length] in Hws.
    destruct (c =? 34); [reflexivity |].
    destruct (IHs s1 ltac:(lia)) as (_ & He1 & Hm1).
    destruct (c =? 91).
    { destruct (skip_ws s1) as [| d s2]; [reflexivity |].
      destruct (d =? 93); [reflexivity |].
      rewrite (He1 g g') by lia. reflexivity. }
    destruct (c =? 123).
    { destruct (skip_ws s1) as [| d s2]; [reflexivity |].
      destruct (d =? 125); [reflexivity |].
      rewrite (Hm1 g g') by lia. reflexivity. }
    reflexivity. }
  split; [exact Hv |]. split.
  - intros [| g] [| g'] Hf Hf'; try lia. cbn [parse_elements].
    rewrite (Hv g g') by lia.
    destruct (parse_value g' s) as [[v r1] |] eqn:Hpv; [| reflexivity].
    cbn [mbind option_bind].
    apply (proj1 (parse_progress g')) in Hpv.
    pose proof (skip_ws_length r1) as Hws.
    destruct (skip_ws r1) as [| d r2]; [reflexivity |]. cbn [length] in Hws.
    destruct (d =? 44); [| reflexivity].
    destruct (IHs r2 ltac:(lia)) as (_ & He2 & _).
    rewrite (He2 g g') by lia. reflexivity.
  - intros [| g] [| g'] Hf Hf'; try lia. cbn [parse_members].
    pose proof (skip_ws_length s) as Hws.
    destruct (skip_ws s) as [| c s1]; [reflexivity |]. cbn [length] in Hws.
    destruct (c =? 34); [| reflexivity].
    destruct (parse_chars s1) as [[k r1] |] eqn:Hc; [| reflexivity].
    cbn [mbind option_bind].
    apply (parse_chars_length (length s1)) in Hc; [| lia].
    pose proof (skip_ws_length r1) as Hws1.
    destruct (skip_ws r1) as [| d r2]; [reflexivity |]. cbn [length] in Hws1.
    destruct (d =? 58); [| reflexivity].
    destruct (IHs r2 ltac:(lia)) as (Hv2 & _ & _).
    rewrite (Hv2 g g') by lia.
    destruct (parse_value g' r2) as [[v r3] |] eqn:Hpv; [| reflexivity].
    cbn [mbind option_bind].
    apply (proj1 (parse_progress g')) in Hpv.
    pose proof (skip_ws_length r3) as Hws3.
    destruct (skip_ws r3) as [| e r4]; [reflexivity |]. cbn [length] in Hws3.
    destruct (e =? 44); [| reflexivity].
    destruct (IHs r4 ltac:(lia)) as (_ & _ & Hm4).
    rewrite (Hm4 g g') by lia. reflexivity.
Qed.

(** [JSON_parse] never fails for lack of fuel: more fuel gives the same
    answer. *)
Lemma JSON_parse_fuel (text : jsstring) (extra : nat) :
  parse_value (2 * length text + 2 + extra) text
  = parse_value (2 * length text + 2) text.
Proof.
  apply (parse_fuel_independent (length text) text eq_refl); lia.
Qed.

End JSONFuel.

(** ** JSON: encoding an array of strings and decoding it again *)

Section JSONRoundTrip.

Lemma hexval_hexdigit (d : N) : d < 16 -> hexval (hexdigit d) = Some d.
Proof.
  intros Hd. unfold hexval, hexdigit.
  destruct (N.ltb_spec d 10) as [Hlt | Hge].
  - replace ((48 <=? 48 + d) && (48 + d <=? 57))%bool with true.
    + f_equal. lia.
    + symmetry. apply andb_true_intro. split; apply N.leb_le; lia.
  - replace ((48 <=? 87 + d) && (87 + d <=? 57))%bool with false.
    + replace ((65 <=? 87 + d) && (87 + d <=? 70))%bool with false.
      * replace ((97 <=? 87 + d) && (87 + d <=? 102))%bool with true.
        -- f_equal. lia.
        -- symmetry. apply andb_true_intro. split; apply N.leb_le; lia.
      * symmetry. apply andb_false_intro2. apply N.leb_gt. lia.
    + symmetry. apply andb_false_intro2. apply N.leb_gt. lia.
Qed.

Lemma hex4_value (c : N) :
  c < 65536 ->
  ((c / 4096 mod 16 * 16 + c / 256 mod 16) * 16 + c / 16 mod 16) * 16 + c mod 16 = c.
Proof. intros Hc. zify. Z.to_euclidean_division_equations. lia. Qed.

Lemma parse_chars_literal (c : N) (s : jsstring) :
  c <> 34 -> c <> 92 -> 32 <= c ->
  parse_chars (c :: s) = decoded c (parse_chars s).
Proof.
  intros H34 H92 H32. cbn [parse_chars].
  destruct (N.eqb_spec c 34); [contradiction |].
  destruct (N.eqb_spec c 92); [contradiction |].
  destruct (N.ltb_spec c 32); [lia | reflexivity].
Qed.

Lemma parse_chars_unicode_escape (c : N) (s : jsstring) :
  c < 65536 ->
  parse_chars (unicode_escape c ++ s) = decoded c (parse_chars s).
Proof.
  intros Hc. unfold unicode_escape, hex4. cbn [app parse_chars].
  change (92 =? 34) with false. change (92 =? 92) with true.
  change (117 =? 117) with true. cbn match.
  rewrite !hexval_hexdigit by (apply N.mod_upper_bound; discriminate).
  cbn [mbind option_bind]. rewrite hex4_value by exact Hc. reflexivity.
Qed.

Lemma surrogate_range (c : N) :
  ((c <? 32) || is_lead c || is_trail c)%bool = true -> c < 65536.
Proof.
  unfold is_lead, is_trail. intros H.
  apply orb_prop in H as [H | H]; [apply orb_prop in H as [H | H] |].
  - apply N.ltb_lt in H. lia.
  - apply andb_prop in H as [_ H]. apply N.leb_le in H. lia.
  - apply andb_prop in H as [_ H]. apply N.leb_le in H. lia.
Qed.

Lemma parse_chars_quote_unit (c : N) (s : jsstring) :
  parse_chars (quote_unit c ++ s) = decoded c (parse_chars s).
Proof.
  unfold quote_unit.
  destruct (N.eqb_spec c 8) as [-> | ?]; [reflexivity |].
  destruct (N.eqb_spec c 9) as [-> | ?]; [reflexivity |].
  destruct (N.eqb_spec c 10) as [-> | ?]; [reflexivity |].
  destruct (N.eqb_spec c 12) as [-> | ?]; [reflexivity |].
  destruct (N.eqb_spec c 13) as [-> | ?]; [reflexivity |].
  destruct (N.eqb_spec c 34) as [-> | ?]; [reflexivity |].
  destruct (N.eqb_spec c 92) as [-> | ?]; [reflexivity |].
  destruct ((c <? 32) || is_lead c || is_trail c)%bool eqn:Hesc.
  - apply parse_chars_unicode_escape, surrogate_range, Hesc.
  - apply orb_false_elim in Hesc as [Hesc _].
    apply orb_false_elim in Hesc as [Hlow _].
    apply N.ltb_ge in Hlow.
    apply parse_chars_literal; assumption.
Qed.

Lemma parse_chars_surrogate (c : N) (s : jsstring) :
  (is_lead c || is_trail c)%bool = true ->
  parse_chars (c :: s) = decoded c (parse_chars s).
Proof.
  unfold is_lead, is_trail. intros H.
  apply parse_chars_literal;
    apply orb_prop in H as [H | H]; apply andb_prop in H as [H _];
    apply N.leb_le in H; lia.
Qed.

(** Induction that follows [quote_chars]: one or two code units at a time. *)
Lemma jsstring_pair_ind (P : jsstring -> Prop) :
  P [] ->
  (forall c, P [c]) ->
  (forall c d r, P r -> P (d :: r) -> P (c :: d :: r)) ->
  forall s, P s.
Proof.
  intros Hnil Hone Hstep s.
  assert (P s /\ forall c, P (c :: s)) as [H _]; [| exact H].
  induction s as [| d r [IHr IHdr]]; split; auto.
Qed.

Lemma quote_chars_cons (c : N) (r : jsstring) :
  quote_chars (c :: r) =
  if is_lead c then
    match r with
    | d :: r' =>
        if is_trail d then c :: d :: quote_chars r'
        else unicode_escape c ++ quote_chars r
    | [] => unicode_escape c
    end
  else quote_unit c ++ quote_chars r.
Proof. reflexivity. Qed.

(** Decoding the body of a quoted string gives the string back and stops
    right after the closing quote. *)
Lemma parse_chars_quote_chars (s rest : jsstring) :
  parse_chars (quote_chars s ++ 34 :: rest) = Some (s, rest).
Proof.
  induction s as [| c | c d r IHr IHdr] using jsstring_pair_ind.
  - reflexivity.
  - rewrite quote_chars_cons. destruct (is_lead c) eqn:Hlead.
    + rewrite parse_chars_unicode_escape; [reflexivity |].
      apply surrogate_range. rewrite Hlead, orb_true_r. reflexivity.
    + rewrite <- app_assoc, parse_chars_quote_unit. reflexivity.
  - rewrite (quote_chars_cons c). destruct (is_lead c) eqn:Hlead.
    + destruct (is_trail d) eqn:Htrail.
      * cbn [app].
        rewrite parse_chars_surrogate by (rewrite Hlead; reflexivity).
        rewrite parse_chars_surrogate by (rewrite Htrail; apply orb_true_r).
        rewrite IHr. reflexivity.
      * rewrite <- app_assoc, parse_chars_unicode_escape, IHdr; [reflexivity |].
        apply surrogate_range. rewrite Hlead, orb_true_r. reflexivity.
    + rewrite <- app_assoc, parse_chars_quote_unit, IHdr. reflexivity.
Qed.

Lemma parse_value_string (fuel : nat) (s rest : jsstring) :
  parse_value (S fuel) (QuoteJSONString s ++ rest) = Some (JStr s, rest).
Proof.
  unfold QuoteJSONString. rewrite <- app_comm_cons, <- app_assoc.
  cbn [app parse_value].
  change (skip_ws (34 :: quote_chars s ++ 34 :: rest))
    with (34 :: quote_chars s ++ 34 :: rest).
  change (34 =? 34) with true. cbn match.
  rewrite parse_chars_quote_chars. reflexivity.
Qed.

Lemma skip_ws_quoted (s rest : jsstring) :
  skip_ws (QuoteJSONString s ++ rest) = QuoteJSONString s ++ rest.
Proof. reflexivity. Qed.

Lemma join_comma_cons2 (p q : jsstring) (ps : list jsstring) :
  join_comma (p :: q :: ps) = p ++ 44 :: join_comma (q :: ps).
Proof. reflexivity. Qed.

Lemma parse_elements_S (fuel : nat) (s : jsstring) :
  parse_elements (S fuel) s =
  '(v, r) ← parse_value fuel s;
  match skip_ws r with
  | [] => None
  | d :: r' =>
      if d =? 44 then '(vs, rest) ← parse_elements fuel r'; Some (v :: vs, rest)
      else if d =? 93 then Some ([v], r')
      else None
  end.
Proof. reflexivity. Qed.

(** The elements of a non-empty array of strings, up to the closing
    bracket. *)
Lemma parse_elements_strings (w : list jsstring) :
  forall (fuel : nat) (rest : jsstring),
    w <> [] -> (length w < fuel)%nat ->
    parse_elements fuel
      (join_comma (map stringify_value (map JStr w)) ++ 93 :: rest)
    = Some (map JStr w, rest).
Proof.
  induction w as [| a w IHw]; intros fuel rest Hne Hfuel; [contradiction |].
  destruct fuel as [| fuel]; [cbn in Hfuel; lia |].
  destruct fuel as [| fuel]; [cbn in Hfuel; lia |].
  rewrite parse_elements_S.
  destruct w as [| b w].
  - cbn [map join_comma stringify_value].
    rewrite parse_value_string. reflexivity.
  - cbn [map]. rewrite join_comma_cons2.
    change (stringify_value (JStr a)) with (QuoteJSONString a).
    rewrite <- app_assoc, parse_value_string.
    cbn [mbind option_bind app].
    change (skip_ws (44 :: ?x)) with (44 :: x). cbn match.
    change (44 =? 44) with true. cbn match.
    specialize (IHw (S fuel) rest).
    cbn [map] in IHw. rewrite IHw; [reflexivity | discriminate |].
    cbn [length] in *. lia.
Qed.

Lemma length_join_comma_strings (w : list jsstring) :
  (length w <= length (join_comma (map stringify_value (map JStr w))))%nat.
Proof.
  induction w as [| a [| b w] IHw].
  - reflexivity.
  - cbn. lia.
  - cbn [map]. rewrite join_comma_cons2.
    cbn [map] in IHw. rewrite length_app. cbn [length] in *. lia.
Qed.

(** [JSON.parse (JSON.stringify w) = w] for every array [w] of strings. *)
Lemma JSON_parse_stringify_strings (w : list jsstring) :
  JSON_parse (JSON_stringify (map JStr w)) = Some (JArr (map JStr w)).
Proof.
  unfold JSON_parse, JSON_stringify. cbn [stringify_value].
  set (body := join_comma (map stringify_value (map JStr w))).
  assert (Hlen : (length w <= length body)%nat)
    by apply length_join_comma_strings.
  replace (2 * length (91%N :: body ++ [93%N]) + 2)%nat
    with (S (S (2 * length body + 4))) by (cbn [length]; rewrite length_app; cbn; lia).
  destruct w as [| a w].
  - reflexivity.
  - cbn [parse_value]. change (skip_ws (91 :: ?x)) with (91 :: x). cbn match.
    change (91 =? 34) with false. change (91 =? 91) with true. cbn match.
    assert (Hq : exists x, body ++ [93] = 34 :: x).
    { subst body. destruct w; cbn [map join_comma stringify_value];
        unfold QuoteJSONString; eexists; reflexivity. }
    destruct Hq as [x Hx].
    assert (Hskip : skip_ws (body ++ [93]) = 34 :: x) by (rewrite Hx; reflexivity).
    rewrite Hskip. change (34 =? 93) with false. cbn match.
    subst body. rewrite parse_elements_strings; [reflexivity | discriminate |].
    cbn [length] in *. lia.
Qed.

End JSONRoundTrip.

(** ** The array operations on sequences of identifiers *)

Section Arrays.

Lemma Array_includes_strings (w : list jsstring) (id : jsstring) :
  Array_includes (map JStr w) (Some id) = contains w id.
Proof.
  unfold Array_includes, contains.
  induction w as [| x w IH]; cbn [map existsb same_as].
  - symmetry. apply bool_decide_eq_false. apply not_elem_of_nil.
  - rewrite IH. unfold jsstring_eqb.
    destruct (decide (x = id)) as [-> | Hne].
    + rewrite bool_decide_eq_true_2 by reflexivity. cbn.
      symmetry. apply bool_decide_eq_true. apply list_elem_of_here.
    + rewrite (bool_decide_eq_false_2 (x = id)) by exact Hne. cbn.
      apply bool_decide_ext. rewrite elem_of_cons.
      split; [auto | intros [Heq | Hin]; [congruence | exact Hin]].
Qed.

Lemma filter_strings (w : list jsstring) (id : jsstring) :
  List.filter (fun x => negb (same_as (Some id) x)) (map JStr w)
  = map JStr (remove_all id w).
Proof.
  unfold remove_all. induction w as [| x w IH]; [reflexivity |].
  cbn [map List.filter].
  change (same_as (Some id) (JStr x)) with (jsstring_eqb x id).
  destruct (jsstring_eqb x id); cbn [negb map]; rewrite IH; reflexivity.
Qed.

(** The source's update of the decoded array is the specification's
    [toggle] on sequences of identifiers. *)
Lemma toggled_strings (w : list jsstring) (id : jsstring) :
  toggled (map JStr w) (Some id) = map JStr (toggle id w).
Proof.
  unfold toggled, toggle. rewrite Array_includes_strings.
  destruct (contains w id).
  - apply filter_strings.
  - rewrite map_app. reflexivity.
Qed.

End Arrays.

(** ** Statements and the parts of the state they leave alone *)

Section Preservation.

Context {S : Type} (R : S -> S -> Prop).
Context (R_refl : forall s, R s s).
Context (R_trans : forall s1 s2 s3, R s1 s2 -> R s2 s3 -> R s1 s3).

Lemma preserves_ret {A : Type} (a : A) : preserves R (mret a).
Proof. intros st. apply R_refl. Qed.

Lemma preserves_throw {A : Type} (e : Exception) : preserves R (throw (A := A) e).
Proof. intros st. apply R_refl. Qed.

Lemma preserves_get_state : preserves R get_state.
Proof. intros st. apply R_refl. Qed.

Lemma preserves_modify (f : S -> S) :
  (forall st, R st (f st)) -> preserves R (modify f).
Proof. intros Hf st. apply Hf. Qed.

Lemma preserves_bind {A B : Type} (m : Eff S A) (k : A -> Eff S B) :
  preserves R m -> (forall a, preserves R (k a)) -> preserves R (m ≫= k).
Proof.
  intros Hm Hk st. specialize (Hm st).
  unfold after, mbind, Eff_bind in *.
  destruct (m st) as [[a | e] st1]; cbn [snd] in *.
  - eapply R_trans; [exact Hm | apply Hk].
  - exact Hm.
Qed.

Lemma preserves_forEach {A : Type} (l : list A) (body : A -> Eff S unit) :
  (forall x, preserves R (body x)) -> preserves R (forEach l body).
Proof.
  intros Hbody. induction l as [| x l IH]; cbn [forEach].
  - apply preserves_ret.
  - apply preserves_bind; [apply Hbody | intros _; exact IH].
Qed.

End Preservation.

(** ** The node table under the watchlist script's updates *)

Section Tree.

Lemma element_lookup (d : list Element) (n : NodeId) (e : Element) :
  d !! n = Some e -> element d n = e.
Proof. unfold element. intros ->. reflexivity. Qed.

Lemma element_out_of_range (d : list Element) (n : NodeId) :
  d !! n = None -> element d n = blank.
Proof. unfold element. intros ->. reflexivity. Qed.

Lemma element_replace_children (n : NodeId) (t : jsstring) (d : list Element) (i : nat) :
  element (replace_children n t d) i =
  match d !! i with
  | Some e => retext n t i e
  | None => blank
  end.
Proof.
  unfold element, replace_children. rewrite list_lookup_imap.
  destruct (d !! i); reflexivity.
Qed.

Lemma element_alter (f : Element -> Element) (n : NodeId) (d : list Element) (i : nat) :
  element (alter f n d) i =
  match d !! i with
  | Some e => if decide (i = n) then f e else e
  | None => blank
  end.
Proof.
  unfold element. destruct (decide (i = n)) as [-> | Hne].
  - rewrite list_lookup_alter_eq. destruct (d !! n); reflexivity.
  - rewrite list_lookup_alter_ne by congruence. destruct (d !! i); reflexivity.
Qed.

Lemma elem_evolves_refl (e : Element) : elem_evolves e e.
Proof. unfold elem_evolves. auto 10. Qed.

Lemma elem_evolves_trans (e1 e2 e3 : Element) :
  elem_evolves e1 e2 -> elem_evolves e2 e3 -> elem_evolves e1 e3.
Proof.
  unfold elem_evolves.
  intros (Hi & Hc & Hd & Hh & Hl & Hp) (Hi' & Hc' & Hd' & Hh' & Hl' & Hp').
  repeat split; try congruence.
  destruct Hp' as [Hp' | Hp']; [rewrite Hp'; exact Hp | right; exact Hp'].
Qed.

Lemma doc_evolves_refl (d : list Element) : doc_evolves d d.
Proof. split; [reflexivity | intros n; apply elem_evolves_refl]. Qed.

Lemma doc_evolves_trans (d1 d2 d3 : list Element) :
  doc_evolves d1 d2 -> doc_evolves d2 d3 -> doc_evolves d1 d3.
Proof.
  intros [Hl H] [Hl' H']. split; [congruence |].
  intros n. eapply elem_evolves_trans; [apply H | apply H'].
Qed.

Lemma elem_evolves_retext (n : NodeId) (t : jsstring) (i : nat) (e : Element) :
  elem_evolves e (retext n t i e).
Proof.
  unfold retext. destruct (Nat.eqb i n).
  - unfold elem_evolves. cbn. auto 10.
  - destruct (parentNode e) as [| | p] eqn:Hp; try apply elem_evolves_refl.
    destruct (Nat.eqb p n); [| apply elem_evolves_refl].
    unfold elem_evolves. cbn. auto 10.
Qed.

Lemma doc_evolves_replace_children (n : NodeId) (t : jsstring) (d : list Element) :
  doc_evolves d (replace_children n t d).
Proof.
  split; [apply length_imap |]. intros i. rewrite element_replace_children.
  destruct (d !! i) as [e |] eqn:Hi.
  - rewrite (element_lookup _ _ _ Hi). apply elem_evolves_retext.
  - rewrite (element_out_of_range _ _ Hi). apply elem_evolves_refl.
Qed.

Lemma doc_evolves_remove (n : NodeId) (d : list Element) :
  doc_evolves d (alter (set_parentNode Detached) n d).
Proof.
  split; [apply length_alter |]. intros i. rewrite element_alter.
  destruct (d !! i) as [e |] eqn:Hi.
  - rewrite (element_lookup _ _ _ Hi). destruct (decide (i = n)).
    + unfold elem_evolves. cbn. auto 10.
    + apply elem_evolves_refl.
  - rewrite (element_out_of_range _ _ Hi). apply elem_evolves_refl.
Qed.

Lemma doc_shrinks_refl (d : list Element) : doc_shrinks d d.
Proof. split; [reflexivity | intros n; unfold elem_shrinks; auto 10]. Qed.

Lemma doc_shrinks_trans (d1 d2 d3 : list Element) :
  doc_shrinks d1 d2 -> doc_shrinks d2 d3 -> doc_shrinks d1 d3.
Proof.
  intros [Hl H] [Hl' H']. split; [congruence |]. intros n.
  destruct (H n) as (Hi & Hc & Hd & Hh & Hp).
  destruct (H' n) as (Hi' & Hc' & Hd' & Hh' & Hp').
  unfold elem_shrinks. repeat split; try congruence.
  destruct Hp' as [Hp' | Hp']; [rewrite Hp'; exact Hp | right; exact Hp'].
Qed.

Lemma doc_evolves_shrinks (d d' : list Element) :
  doc_evolves d d' -> doc_shrinks d d'.
Proof.
  intros [Hl H]. split; [exact Hl |]. intros n.
  destruct (H n) as (Hi & Hc & Hd & Hh & _ & Hp). unfold elem_shrinks. auto.
Qed.

(** A node that is connected after such updates was connected before. *)
Lemma connected_from_shrinks (d d' : list Element) :
  doc_shrinks d d' ->
  forall fuel n, connected_from fuel d' n = true -> connected_from fuel d n = true.
Proof.
  intros [_ H] fuel. induction fuel as [| fuel IH]; intros n Hc; [discriminate |].
  cbn [connected_from] in *.
  destruct (H n) as (_ & _ & _ & _ & [Hp | Hp]); rewrite Hp in Hc.
  - destruct (parentNode (element d n)); auto.
  - discriminate.
Qed.

Lemma isConnected_shrinks (d d' : list Element) (n : NodeId) :
  doc_shrinks d d' -> isConnected d' n = true -> isConnected d n = true.
Proof.
  intros He. unfold isConnected. rewrite (proj1 He).
  apply connected_from_shrinks, He.
Qed.

Lemma querySelectorAll_class_spec (cls : jsstring) (d : list Element) (n : NodeId) :
  In n (querySelectorAll_class cls d) <->
  isConnected d n = true /\ has_class cls (element d n) = true.
Proof.
  unfold querySelectorAll_class. rewrite filter_In, in_seq, andb_true_iff.
  split; [tauto |]. intros [Hc Hh]. split; [| tauto].
  split; [lia |]. cbn.
  destruct (d !! n) as [e |] eqn:Hn.
  - apply lookup_lt_Some in Hn. exact Hn.
  - unfold has_class in Hh. rewrite (element_out_of_range _ _ Hn) in Hh.
    discriminate.
Qed.

(** Every toggle still in the document after the updates was one before. *)
Lemma querySelectorAll_class_shrinks (cls : jsstring) (d d' : list Element) (n : NodeId) :
  doc_shrinks d d' ->
  In n (querySelectorAll_class cls d') -> In n (querySelectorAll_class cls d).
Proof.
  intros He. rewrite !querySelectorAll_class_spec. intros [Hc Hh]. split.
  - eapply isConnected_shrinks; eassumption.
  - rewrite <- Hh. unfold has_class.
    destruct (proj2 He n) as (_ & -> & _). reflexivity.
Qed.

(** A node without a parent is not in the document, nor are its children. *)
Lemma detached_not_connected (d : list Element) (n : NodeId) :
  parentNode (element d n) = Detached -> isConnected d n = false.
Proof.
  unfold isConnected. intros Hp. destruct (length d); [reflexivity |].
  cbn [connected_from]. rewrite Hp. reflexivity.
Qed.

Lemma child_of_detached_not_connected (d : list Element) (n p : NodeId) :
  parentNode (element d n) = ChildOf p ->
  parentNode (element d p) = Detached ->
  isConnected d n = false.
Proof.
  unfold isConnected. intros Hn Hp. destruct (length d) as [| fuel]; [reflexivity |].
  cbn [connected_from]. rewrite Hn. destruct fuel; [reflexivity |].
  cbn [connected_from]. rewrite Hp. reflexivity.
Qed.

End Tree.

(** ** Refreshing the views *)

Section Refresh.

Lemma getWatchlist_state (st : State) : after getWatchlist st = st.
Proof.
  unfold after, getWatchlist.
  destruct (localStorage st !! WATCHLIST_KEY) as [[| c r] |]; try reflexivity.
  destruct (JSON_parse (c :: r)); reflexivity.
Qed.

Lemma isInWatchlist_state (anime : option jsstring) (st : State) :
  after (isInWatchlist anime) st = st.
Proof.
  unfold after, isInWatchlist, mbind, Eff_bind.
  pose proof (getWatchlist_state st) as Hg. unfold after in Hg.
  destruct (getWatchlist st) as [[v | e] st1]; cbn [snd] in *; subst st1;
    [destruct v |]; reflexivity.
Qed.

Lemma isInWatchlist_preserves (R : State -> State -> Prop) (anime : option jsstring) :
  (forall st, R st st) -> preserves R (isInWatchlist anime).
Proof. intros Hrefl st. rewrite isInWatchlist_state. apply Hrefl. Qed.

(** Splits a statement of the script into its primitive updates of the
    state; those are left as goals. *)
Ltac preserves_steps Rrefl Rtrans :=
  repeat match goal with
    | |- preserves _ (mret _) => apply preserves_ret, Rrefl
    | |- preserves _ (throw _) => apply preserves_throw, Rrefl
    | |- preserves _ get_state => apply preserves_get_state, Rrefl
    | |- preserves _ (isInWatchlist _) => apply isInWatchlist_preserves, Rrefl
    | |- preserves _ (forEach _ _) =>
        apply preserves_forEach; [exact Rrefl | exact Rtrans | intros ?]
    | |- preserves _ (_ ≫= _) => apply preserves_bind; [exact Rtrans | | intros ?]
    | |- preserves _ (modify _) => apply preserves_modify; intros ?
    | |- preserves _ (if ?b then _ else _) => destruct b
    | |- preserves _ (match ?x with _ => _ end) => destruct x
    end.

Lemma document_only_refl (st : State) : document_only st st.
Proof. destruct st. reflexivity. Qed.

Lemma document_only_trans (s1 s2 s3 : State) :
  document_only s1 s2 -> document_only s2 s3 -> document_only s1 s3.
Proof.
  unfold document_only. intros H12 H23. rewrite H23 at 1. rewrite H12 at 1.
  reflexivity.
Qed.

Lemma tree_evolves_refl (st : State) : tree_evolves st st.
Proof. apply doc_evolves_refl. Qed.

Lemma tree_evolves_trans (s1 s2 s3 : State) :
  tree_evolves s1 s2 -> tree_evolves s2 s3 -> tree_evolves s1 s3.
Proof. apply doc_evolves_trans. Qed.

(** Refreshing the views writes to the node table and to nothing else. *)
Lemma updateWatchlistButtons_document_only :
  preserves document_only updateWatchlistButtons.
Proof.
  unfold updateWatchlistButtons, update_button, update_description_button,
    set_textContent, Element_remove.
  preserves_steps document_only_refl document_only_trans; reflexivity.
Qed.

(** It gives elements a new text and removes elements; nothing is added,
    moved or re-attached, and no attribute or listener changes. *)
Lemma update_button_evolves (btn : NodeId) :
  preserves tree_evolves (update_button btn).
Proof.
  unfold update_button, set_textContent, Element_remove.
  preserves_steps tree_evolves_refl tree_evolves_trans;
    first [apply doc_evolves_replace_children | apply doc_evolves_remove].
Qed.

Lemma update_description_button_evolves :
  preserves tree_evolves update_description_button.
Proof.
  unfold update_description_button, set_textContent.
  preserves_steps tree_evolves_refl tree_evolves_trans.
  apply doc_evolves_replace_children.
Qed.

Lemma updateWatchlistButtons_evolves :
  preserves tree_evolves updateWatchlistButtons.
Proof.
  unfold updateWatchlistButtons.
  preserves_steps tree_evolves_refl tree_evolves_trans.
  - apply update_button_evolves.
  - apply update_description_button_evolves.
Qed.

Lemma updateWatchlistButtons_localStorage (st : State) :
  localStorage (after updateWatchlistButtons st) = localStorage st.
Proof.
  pose proof (updateWatchlistButtons_document_only st) as H.
  unfold document_only in H. rewrite H. reflexivity.
Qed.

(** *** One button *)

Lemma persisted_storage (st st' : State) (w : list jsstring) :
  localStorage st' = localStorage st -> persisted st w -> persisted st' w.
Proof.
  unfold persisted, getWatchlist. intros ->.
  destruct (localStorage st !! WATCHLIST_KEY) as [[| c r] |].
  - intros H. injection H as H. rewrite H. reflexivity.
  - destruct (JSON_parse (c :: r)); intros H; injection H as H; rewrite H; reflexivity.
  - intros H. injection H as H. rewrite H. reflexivity.
Qed.

Lemma isInWatchlist_persisted (st : State) (w : list jsstring) (anime : option jsstring) :
  persisted st w ->
  isInWatchlist anime st = (Normal (Array_includes (map JStr w) anime), st).
Proof.
  intros Hp. unfold isInWatchlist, mbind, Eff_bind. rewrite Hp. reflexivity.
Qed.

Lemma element_retext_self (n : NodeId) (t : jsstring) (d : list Element) :
  (n < length d)%nat ->
  element (replace_children n t d) n = set_text t (element d n).
Proof.
  intros Hn. rewrite element_replace_children.
  destruct (lookup_lt_is_Some_2 d n Hn) as [e He]. rewrite He.
  rewrite (element_lookup _ _ _ He). unfold retext.
  rewrite Nat.eqb_refl. reflexivity.
Qed.

(** What [update_button] does when the storage holds the Watchlist [w]. *)
Lemma update_button_step (st : State) (w : list jsstring) (btn : NodeId) :
  persisted st w ->
  (btn < length (document st))%nat ->
  let d := document st in
  let present := Array_includes (map JStr w) (dataset_anime (element d btn)) in
  let d1 := replace_children btn (if present then star_filled else star_hollow) d in
  update_button btn st =
    if negb present && bool_decide (remove_test d btn) then
      match parentElement d btn with
      | Some card =>
          (Normal tt, with_document (alter (set_parentNode Detached) card d1) st)
      | None => (Throw TypeError, with_document d1 st)
      end
    else (Normal tt, with_document d1 st).
Proof.
  intros Hp Hn d present d1.
  unfold update_button, mbind, Eff_bind. cbn [get_state].
  rewrite (isInWatchlist_persisted _ _ _ Hp). fold d present.
  unfold set_textContent, modify. cbn [document with_document]. fold d d1.
  unfold classList_item, parentElement, remove_test, classList_item.
  subst d1. rewrite element_retext_self by exact Hn.
  cbn [textContent classList parentNode set_text]. fold d.
  replace (jsstring_eqb (if present then star_filled else star_hollow) star_hollow)
    with (negb present) by (destruct present; reflexivity).
  destruct (negb present && _); [| reflexivity].
  destruct (parentNode (element d btn)); reflexivity.
Qed.

Lemma querySelectorAll_class_range (cls : jsstring) (d : list Element) (n : NodeId) :
  In n (querySelectorAll_class cls d) -> (n < length d)%nat.
Proof.
  unfold querySelectorAll_class. rewrite filter_In, in_seq. lia.
Qed.

Lemma parentNode_replace_children (c : NodeId) (t : jsstring) (d : list Element) (n : NodeId) :
  parentNode (element d n) <> ChildOf c ->
  parentNode (element (replace_children c t d) n) = parentNode (element d n).
Proof.
  intros Hne. rewrite element_replace_children.
  destruct (d !! n) as [e |] eqn:Hn.
  - rewrite (element_lookup _ _ _ Hn) in *. unfold retext.
    destruct (Nat.eqb n c); [reflexivity |].
    destruct (parentNode e) as [| | p] eqn:Hp; try (rewrite Hp; reflexivity).
    destruct (Nat.eqb_spec p c) as [-> | _]; [contradiction | exact Hp].
  - rewrite (element_out_of_range _ _ Hn). reflexivity.
Qed.

Lemma element_alter_other (f : Element -> Element) (p : NodeId) (d : list Element) (n : NodeId) :
  n <> p -> element (alter f p d) n = element d n.
Proof.
  intros Hne. unfold element. rewrite list_lookup_alter_ne by congruence.
  reflexivity.
Qed.

Lemma parentNode_removed (p : NodeId) (d : list Element) :
  parentNode (element (alter (set_parentNode Detached) p d) p) = Detached.
Proof.
  rewrite element_alter. destruct (d !! p); [| reflexivity].
  rewrite decide_True by reflexivity. reflexivity.
Qed.

(** *** The loop over the toggles *)

Section RefreshLoop.

Context (w : list jsstring) (d0 : list Element).
Context (cards : toggles_in_cards d0).

Lemma toggle_is_no_card (c c' card : NodeId) :
  In c (toggles d0) -> In c' (toggles d0) ->
  parentNode (element d0 c') = ChildOf card -> card <> c /\ c' <> card.
Proof.
  intros Hc Hc' Hp.
  destruct (cards c' Hc') as (card' & Hcard' & Hcls).
  unfold parentElement in Hcard'. rewrite Hp in Hcard'. injection Hcard' as <-.
  apply querySelectorAll_class_spec in Hc as [_ Hc].
  apply querySelectorAll_class_spec in Hc' as [_ Hc'].
  split; intros ->; congruence.
Qed.

Lemma update_button_inv (s : State) (c : NodeId) :
  In c (toggles d0) ->
  loop_inv w d0 s ->
  exists s',
    update_button c s = (Normal tt, s') /\
    loop_inv w d0 s' /\
    tree_evolves s s' /\
    (remove_test d0 c -> absent_from_watchlist w d0 c ->
     forall card, parentElement d0 c = Some card ->
                  parentNode (element (document s') card) = Detached).
Proof.
  intros Hc (Hp & Hev & Hpar).
  assert (Hrange : (c < length (document s))%nat).
  { rewrite (proj1 Hev). eapply querySelectorAll_class_range, Hc. }
  destruct (cards c Hc) as (card & Hcard & Hcls).
  destruct (proj2 Hev c) as (_ & Hclass & Hdata & _).
  rewrite (update_button_step s w c Hp Hrange). cbn zeta.
  assert (Hparent : parentElement (document s) c = Some card).
  { unfold parentElement in *. rewrite (Hpar c Hc). exact Hcard. }
  rewrite Hparent, Hdata.
  assert (Hmark : bool_decide (remove_test (document s) c)
                  = bool_decide (remove_test d0 c)).
  { apply bool_decide_ext. unfold remove_test, classList_item. rewrite Hclass.
    reflexivity. }
  rewrite Hmark.
  set (present := Array_includes (map JStr w) (dataset_anime (element d0 c))).
  set (d1 := replace_children c (if present then star_filled else star_hollow)
               (document s)).
  assert (Hev1 : doc_evolves (document s) d1) by apply doc_evolves_replace_children.
  assert (Hpar1 : forall c', In c' (toggles d0) ->
            parentNode (element d1 c') = parentNode (element d0 c')).
  { intros c' Hc'. subst d1. rewrite parentNode_replace_children; [apply Hpar, Hc' |].
    rewrite (Hpar c' Hc'). intros Hch.
    destruct (toggle_is_no_card c c' c Hc Hc' Hch) as [Hne _]. congruence. }
  destruct (negb present && bool_decide (remove_test d0 c)) eqn:Hcond.
  - eexists. split; [reflexivity |]. cbn [document with_document].
    assert (Hev2 : doc_evolves d1 (alter (set_parentNode Detached) card d1))
      by apply doc_evolves_remove.
    split; [| split].
    + split; [eapply persisted_storage; [| exact Hp]; reflexivity |].
      split; [eapply doc_evolves_trans; [exact Hev |];
              eapply doc_evolves_trans; eassumption |].
      intros c' Hc'. cbn [document with_document].
      rewrite element_alter_other; [apply Hpar1, Hc' |].
      unfold parentElement in Hcard.
      destruct (parentNode (element d0 c)) as [| | q] eqn:Hq; try discriminate.
      injection Hcard as ->.
      destruct (toggle_is_no_card c' c card Hc' Hc Hq) as [Hne _]. congruence.
    + unfold tree_evolves. cbn [document with_document].
      eapply doc_evolves_trans; eassumption.
    + intros _ _ card' Hcard'. rewrite Hcard in Hcard'. injection Hcard' as <-.
      apply parentNode_removed.
  - eexists. split; [reflexivity |]. cbn [document with_document].
    split; [| split].
    + split; [eapply persisted_storage; [| exact Hp]; reflexivity |].
      split; [eapply doc_evolves_trans; eassumption | exact Hpar1].
    + exact Hev1.
    + intros Hro Habs. unfold absent_from_watchlist in Habs. fold present in Habs.
      rewrite Habs, (bool_decide_eq_true_2 _ Hro) in Hcond. discriminate.
Qed.

Lemma forEach_update_button_inv (l : list NodeId) :
  forall s,
    (forall c, In c l -> In c (toggles d0)) ->
    loop_inv w d0 s ->
    exists s',
      forEach l update_button s = (Normal tt, s') /\
      loop_inv w d0 s' /\
      tree_evolves s s' /\
      (forall c card,
         In c l -> remove_test d0 c -> absent_from_watchlist w d0 c ->
         parentElement d0 c = Some card ->
         parentNode (element (document s') card) = Detached).
Proof.
  induction l as [| x l IH]; intros s Hl Hinv.
  - exists s. split; [reflexivity |]. split; [exact Hinv |].
    split; [apply tree_evolves_refl |]. intros c card [].
  - destruct (update_button_inv s x (Hl x (or_introl eq_refl)) Hinv)
      as (s1 & Hrun1 & Hinv1 & Hev1 & Hcard1).
    destruct (IH s1 (fun c Hc => Hl c (or_intror Hc)) Hinv1)
      as (s' & Hrun & Hinv' & Hev & Hcards).
    exists s'. split; [| split; [exact Hinv' | split]].
    + cbn [forEach]. unfold mbind, Eff_bind. rewrite Hrun1. exact Hrun.
    + eapply tree_evolves_trans; eassumption.
    + intros c card [<- | Hc] Hro Habs Hpc.
      * specialize (Hcard1 Hro Habs card Hpc).
        destruct (proj2 Hev card) as (_ & _ & _ & _ & _ & [Hp | Hp]);
          [rewrite Hp; exact Hcard1 | exact Hp].
      * eapply Hcards; eassumption.
Qed.

End RefreshLoop.

Lemma update_description_button_normal (s : State) (w : list jsstring) :
  persisted s w -> fst (update_description_button s) = Normal tt.
Proof.
  intros Hp. unfold update_description_button, mbind, Eff_bind. cbn [get_state].
  destruct (getElementById _ _); [| reflexivity].
  rewrite (isInWatchlist_persisted _ _ _ Hp). reflexivity.
Qed.

Lemma loop_inv_initial (w : list jsstring) (st : State) :
  persisted st w -> loop_inv w (document st) st.
Proof.
  intros Hp. split; [exact Hp |]. split; [apply doc_evolves_refl | reflexivity].
Qed.

(** Where the script's test recognises the mark: when the views are
    refreshed on a page whose toggles sit in cards and whose storage holds
    a Watchlist, the parent of every toggle whose second class is the
    marker class and whose identifier is absent from the Watchlist is
    removed from the document (and the toggle with it), the refresh
    completes, and the persisted Watchlist is unchanged. *)
Theorem refresh_removes_card
    (st : State) (w : list jsstring) (btn card : NodeId) (id : jsstring) :
  persisted st w ->
  toggles_in_cards (document st) ->
  In btn (toggles (document st)) ->
  remove_test (document st) btn ->
  dataset_anime (element (document st) btn) = Some id ->
  contains w id = false ->
  parentElement (document st) btn = Some card ->
  let st' := after updateWatchlistButtons st in
  fst (updateWatchlistButtons st) = Normal tt /\
  isConnected (document st') card = false /\
  ~ In btn (toggles (document st')) /\
  localStorage st' = localStorage st /\
  persisted st' w.
Proof.
  intros Hp Hcards Hbtn Hro Hdata Habsent Hcard st'.
  assert (Hstore : localStorage st' = localStorage st)
    by apply updateWatchlistButtons_localStorage.
  destruct (forEach_update_button_inv w (document st) Hcards
              (toggles (document st)) st (fun c Hc => Hc) (loop_inv_initial w st Hp))
    as (s1 & Hrun & (Hp1 & _) & Hev1 & Hremoved).
  assert (Hdetached1 : parentNode (element (document s1) card) = Detached).
  { apply (Hremoved btn card Hbtn Hro); [| exact Hcard].
    unfold absent_from_watchlist. rewrite Hdata, Array_includes_strings.
    exact Habsent. }
  pose proof (update_description_button_normal s1 w Hp1) as Hdesc.
  pose proof (update_description_button_evolves s1) as Hev2.
  assert (Hfinal : updateWatchlistButtons st
                   = (Normal tt, after update_description_button s1)).
  { unfold updateWatchlistButtons, mbind, Eff_bind. cbn [get_state].
    fold (toggles (document st)). rewrite Hrun. unfold after.
    destruct (update_description_button s1) as [r s2]. cbn [fst snd] in *.
    rewrite Hdesc. reflexivity. }
  assert (Hst' : st' = after update_description_button s1)
    by (subst st'; unfold after at 1; rewrite Hfinal; reflexivity).
  assert (Hdetached : parentNode (element (document st') card) = Detached).
  { rewrite Hst'.
    destruct (proj2 Hev2 card) as (_ & _ & _ & _ & _ & [Hpn | Hpn]);
      [rewrite Hpn; exact Hdetached1 | exact Hpn]. }
  split; [rewrite Hfinal; reflexivity |].
  split; [apply detached_not_connected, Hdetached |].
  split; [| split; [exact Hstore | eapply persisted_storage; eassumption]].
  intros Hin. apply querySelectorAll_class_spec in Hin as [Hconn _].
  assert (Hev : doc_evolves (document st) (document st')).
  { rewrite Hst'. eapply doc_evolves_trans; [exact Hev1 | exact Hev2]. }
  unfold parentElement in Hcard.
  destruct (parentNode (element (document st) btn)) as [| | q] eqn:Hq; try discriminate.
  injection Hcard as ->.
  destruct (proj2 Hev btn) as (_ & _ & _ & _ & _ & [Hpn | Hpn]).
  - rewrite Hq in Hpn.
    rewrite (child_of_detached_not_connected _ _ _ Hpn Hdetached) in Hconn.
    discriminate.
  - rewrite (detached_not_connected _ _ Hpn) in Hconn. discriminate.
Qed.

End Refresh.

(** ** Binding click handlers *)

Section Binding.

Lemma doc_rebound_refl (d : list Element) : doc_rebound d d.
Proof. split; [reflexivity | intros n; unfold elem_rebound; auto 10]. Qed.

Lemma doc_rebound_trans (d1 d2 d3 : list Element) :
  doc_rebound d1 d2 -> doc_rebound d2 d3 -> doc_rebound d1 d3.
Proof.
  intros [Hl H] [Hl' H']. split; [congruence |]. intros n.
  destruct (H n) as (? & ? & ? & ? & ? & ?).
  destruct (H' n) as (? & ? & ? & ? & ? & ?).
  unfold elem_rebound. repeat split; congruence.
Qed.

Lemma doc_rebound_add_listener (l : Listener) (b : NodeId) (d : list Element) :
  doc_rebound d (alter (add_listener l) b d).
Proof.
  split; [apply length_alter |]. intros n. rewrite element_alter.
  destruct (d !! n) as [e |] eqn:Hn.
  - rewrite (element_lookup _ _ _ Hn).
    destruct (decide (n = b)); unfold elem_rebound; cbn; auto 10.
  - rewrite (element_out_of_range _ _ Hn). unfold elem_rebound. auto 10.
Qed.

Lemma doc_rebound_bind_all (l : list NodeId) (d : list Element) :
  doc_rebound d (bind_all l d).
Proof.
  revert d. induction l as [| b l IH]; intros d; [apply doc_rebound_refl |].
  cbn [bind_all fold_left]. eapply doc_rebound_trans; [| apply IH].
  apply doc_rebound_add_listener.
Qed.

Lemma doc_rebound_shrinks (d d' : list Element) : doc_rebound d d' -> doc_shrinks d d'.
Proof.
  intros [Hl H]. split; [exact Hl |]. intros n.
  destruct (H n) as (? & ? & ? & ? & ? & ?). unfold elem_shrinks. auto 10.
Qed.

Lemma connected_from_rebound (d d' : list Element) :
  doc_rebound d d' ->
  forall fuel n, connected_from fuel d' n = connected_from fuel d n.
Proof.
  intros [_ H] fuel. induction fuel as [| fuel IH]; intros n; [reflexivity |].
  cbn [connected_from]. destruct (H n) as (-> & _).
  destruct (parentNode (element d n)); auto.
Qed.

Lemma isConnected_rebound (d d' : list Element) (n : NodeId) :
  doc_rebound d d' -> isConnected d' n = isConnected d n.
Proof.
  intros He. unfold isConnected. rewrite (proj1 He).
  apply connected_from_rebound, He.
Qed.


Lemma find_ext {A : Type} (f g : A -> bool) (l : list A) :
  (forall a, f a = g a) -> List.find f l = List.find g l.
Proof.
  intros H. induction l as [| x l IH]; [reflexivity |].
  cbn [List.find]. rewrite H, IH. reflexivity.
Qed.

Lemma getElementById_rebound (id : jsstring) (d d' : list Element) :
  doc_rebound d d' -> getElementById id d' = getElementById id d.
Proof.
  intros He. unfold getElementById. rewrite (proj1 He).
  apply find_ext. intros n. rewrite (isConnected_rebound _ _ _ He).
  destruct (proj2 He n) as (_ & -> & _). reflexivity.
Qed.


Lemma element_bind_all_other (l : list NodeId) (n : NodeId) :
  forall d, ~ In n l -> element (bind_all l d) n = element d n.
Proof.
  induction l as [| b l IH]; intros d Hn; [reflexivity |].
  cbn [bind_all fold_left]. fold (bind_all l (alter (add_listener (WatchlistClick b)) b d)).
  rewrite IH by (intros H; apply Hn; right; exact H).
  apply element_alter_other. intros ->. apply Hn. left. reflexivity.
Qed.

(** Each node of a duplicate-free list gets exactly one more listener. *)
Lemma element_bind_all (l : list NodeId) (n : NodeId) :
  forall d,
    NoDup l -> In n l -> (n < length d)%nat ->
    element (bind_all l d) n = add_listener (WatchlistClick n) (element d n).
Proof.
  induction l as [| b l IH]; intros d Hnd Hin Hlt; [destruct Hin |].
  apply NoDup_cons in Hnd as [Hb Hnd].
  rewrite list_elem_of_In in Hb.
  cbn [bind_all fold_left]. fold (bind_all l (alter (add_listener (WatchlistClick b)) b d)).
  destruct Hin as [-> | Hin].
  - rewrite element_bind_all_other by exact Hb.
    rewrite element_alter.
    destruct (lookup_lt_is_Some_2 d n Hlt) as [e He]. rewrite He.
    rewrite decide_True by reflexivity. rewrite (element_lookup _ _ _ He).
    reflexivity.
  - rewrite IH; [| exact Hnd | exact Hin | rewrite length_alter; exact Hlt].
    rewrite element_alter_other; [reflexivity |].
    intros ->. contradiction.
Qed.

Lemma NoDup_querySelectorAll_class (cls : jsstring) (d : list Element) :
  NoDup (querySelectorAll_class cls d).
Proof.
  unfold querySelectorAll_class.
  apply NoDup_ListNoDup, List.NoDup_filter, seq_NoDup.
Qed.

Lemma with_document_twice (d d' : list Element) (st : State) :
  with_document d' (with_document d st) = with_document d' st.
Proof. reflexivity. Qed.

Lemma forEach_bind (l : list NodeId) :
  forall st,
    forEach l (fun btn => addEventListener_click btn (WatchlistClick btn)) st
    = (Normal tt, with_document (bind_all l (document st)) st).
Proof.
  induction l as [| b l IH]; intros st.
  - destruct st. reflexivity.
  - cbn [forEach]. unfold mbind, Eff_bind.
    unfold addEventListener_click at 1. unfold modify at 1.
    rewrite IH. reflexivity.
Qed.

(** Binding leaves every toggle of the page with one more click handler
    and changes nothing else. *)
Lemma bind_watchlist_buttons_eq (st : State) :
  bind_watchlist_buttons st
  = (Normal tt, with_document (bind_all (toggles (document st)) (document st)) st).
Proof.
  unfold bind_watchlist_buttons, mbind, Eff_bind. cbn [get_state].
  apply forEach_bind.
Qed.

Lemma clickListeners_bound (d : list Element) (b : NodeId) :
  In b (toggles d) ->
  clickListeners (element (bind_all (toggles d) d) b)
  = clickListeners (element d b) ++ [WatchlistClick b].
Proof.
  intros Hb. rewrite element_bind_all; [reflexivity | | exact Hb |].
  - apply NoDup_querySelectorAll_class.
  - eapply querySelectorAll_class_range, Hb.
Qed.

End Binding.

(** ** The Store: [getWatchlist], [saveWatchlist], [toggleWatchlist] *)

Section Store.

Lemma persisted_after_save (st : State) (w : list jsstring) :
  localStorage st !! WATCHLIST_KEY = Some (JSON_stringify (map JStr w)) ->
  persisted st w.
Proof.
  intros Hst. unfold persisted, getWatchlist. rewrite Hst.
  pose proof (JSON_parse_stringify_strings w) as Hrt.
  unfold JSON_stringify in *. cbn [stringify_value] in *.
  rewrite Hrt. reflexivity.
Qed.

(** What one call of [toggleWatchlist] leaves in storage. *)
Lemma toggleWatchlist_persisted (id : jsstring) (w : list jsstring) (st : State) :
  persisted st w ->
  persisted (after (toggleWatchlist (Some id)) st) (toggle id w).
Proof.
  intros Hp. apply persisted_after_save.
  unfold after, toggleWatchlist, mbind, Eff_bind. rewrite Hp.
  unfold saveWatchlist at 1. unfold modify at 1.
  rewrite toggled_strings.
  match goal with
  | |- context [updateWatchlistButtons ?s] =>
      pose proof (updateWatchlistButtons_localStorage s) as Hu
  end.
  unfold after in Hu.
  destruct (updateWatchlistButtons _) as [[[] | e] st2]; cbn [snd] in *;
    rewrite Hu; cbn [localStorage with_localStorage]; apply lookup_insert_eq.
Qed.

Lemma contains_remove_all (id : jsstring) (w : list jsstring) :
  contains (remove_all id w) id = false.
Proof.
  unfold contains, remove_all. apply bool_decide_eq_false.
  rewrite list_elem_of_In, filter_In. intros [_ H].
  unfold jsstring_eqb in H. rewrite bool_decide_eq_true_2 in H by reflexivity.
  discriminate.
Qed.

Lemma remove_all_absent (id : jsstring) (w : list jsstring) :
  contains w id = false -> remove_all id w = w.
Proof.
  unfold contains, remove_all. intros H. apply bool_decide_eq_false in H.
  induction w as [| x w IH]; [reflexivity |].
  cbn [List.filter].
  rewrite not_elem_of_cons in H. destruct H as [Hne Hw].
  replace (jsstring_eqb x id) with false
    by (symmetry; apply bool_decide_eq_false; congruence).
  cbn [negb]. rewrite IH by exact Hw. reflexivity.
Qed.

Lemma remove_all_app (id : jsstring) (u v : list jsstring) :
  remove_all id (u ++ v) = remove_all id u ++ remove_all id v.
Proof. unfold remove_all. apply List.filter_app. Qed.

Lemma remove_all_self (id : jsstring) : remove_all id [id] = [].
Proof.
  unfold remove_all. cbn [List.filter]. unfold jsstring_eqb.
  rewrite bool_decide_eq_true_2 by reflexivity. reflexivity.
Qed.

Lemma remove_all_idempotent (id : jsstring) (w : list jsstring) :
  remove_all id (remove_all id w) = remove_all id w.
Proof. apply remove_all_absent, contains_remove_all. Qed.

(** Two successive toggles on sequences. *)
Lemma toggle_toggle (id : jsstring) (w : list jsstring) :
  toggle id (toggle id w) = if contains w id then remove_all id w ++ [id] else w.
Proof.
  unfold toggle at 2. destruct (contains w id) eqn:Hc.
  - unfold toggle. rewrite contains_remove_all. reflexivity.
  - unfold toggle.
    replace (contains (w ++ [id]) id) with true.
    + rewrite remove_all_app, remove_all_self, app_nil_r.
      apply remove_all_absent, Hc.
    + symmetry. apply bool_decide_eq_true. rewrite elem_of_app.
      right. apply list_elem_of_here.
Qed.

Lemma contains_toggle_other (id id' : jsstring) (w : list jsstring) :
  id' <> id -> contains (toggle id w) id' = contains w id'.
Proof.
  intros Hne. unfold toggle, contains. destruct (bool_decide (id ∈ w)).
  - apply bool_decide_ext. unfold remove_all.
    rewrite !list_elem_of_In, filter_In. unfold jsstring_eqb.
    rewrite (bool_decide_eq_false_2 (id' = id)) by exact Hne.
    cbn [negb]. tauto.
  - apply bool_decide_ext. rewrite elem_of_app, list_elem_of_singleton. tauto.
Qed.

Lemma remove_all_toggle (id : jsstring) (w : list jsstring) :
  remove_all id (toggle id w) = remove_all id w.
Proof.
  unfold toggle. destruct (contains w id).
  - apply remove_all_idempotent.
  - rewrite remove_all_app, remove_all_self. apply app_nil_r.
Qed.

(** C1 (as amended).  For every identifier and every starting Watchlist,
    two successive calls of [toggleWatchlist] leave in storage the original
    sequence when the identifier was absent; when it was present they leave
    the original sequence with every occurrence of the identifier removed
    and one occurrence appended at the end. *)
Theorem toggle_twice (id : jsstring) (w : list jsstring) (st : State) :
  persisted st w ->
  let st2 := after (toggleWatchlist (Some id)) (after (toggleWatchlist (Some id)) st) in
  (contains w id = false -> persisted st2 w) /\
  (contains w id = true -> persisted st2 (remove_all id w ++ [id])).
Proof.
  intros Hp st2.
  assert (H2 : persisted st2 (toggle id (toggle id w)))
    by (apply toggleWatchlist_persisted, toggleWatchlist_persisted, Hp).
  rewrite toggle_toggle in H2.
  split; intros Hc; rewrite Hc in H2; exact H2.
Qed.

Lemma persisted_stored (w : list jsstring) : persisted (stored w) w.
Proof. apply persisted_after_save. apply lookup_singleton_eq. Qed.

Lemma toggle_twice_witness :
  persisted
    (after (toggleWatchlist (Some (js "a")))
       (after (toggleWatchlist (Some (js "a"))) (stored [js "b"])))
    [js "b"].
Proof.
  apply (toggle_twice (js "a") [js "b"] (stored [js "b"])).
  - apply persisted_stored.
  - vm_compute. reflexivity.
Defined.

(** C1 (as stated) fails: from the Watchlist ["a"; "b"], toggling "a" twice
    leaves ["b"; "a"]. *)
Lemma toggle_twice_reorders :
  let st := stored [js "a"; js "b"] in
  let st2 := after (toggleWatchlist (Some (js "a")))
               (after (toggleWatchlist (Some (js "a"))) st) in
  persisted st [js "a"; js "b"] /\
  persisted st2 [js "b"; js "a"] /\
  ~ persisted st2 [js "a"; js "b"].
Proof.
  intros st st2. split; [apply persisted_stored |]. split.
  - apply (toggleWatchlist_persisted (js "a") [js "b"]).
    apply (toggleWatchlist_persisted (js "a") [js "a"; js "b"]).
    apply persisted_stored.
  - intros H. apply (f_equal fst) in H. vm_compute in H. discriminate H.
Qed.

(** C10.  [toggleWatchlist id] changes the membership of [id] only: for
    every other identifier, [isInWatchlist] answers after the call what it
    answered before, and the entries other than [id] keep their relative
    order. *)
Theorem toggle_changes_only_id (id id' : jsstring) (w : list jsstring) (st : State) :
  persisted st w ->
  id' <> id ->
  let st' := after (toggleWatchlist (Some id)) st in
  fst (isInWatchlist (Some id') st') = fst (isInWatchlist (Some id') st) /\
  exists w',
    persisted st' w' /\
    contains w' id' = contains w id' /\
    remove_all id w' = remove_all id w.
Proof.
  intros Hp Hne st'.
  assert (Hp' : persisted st' (toggle id w)) by apply toggleWatchlist_persisted, Hp.
  split.
  - rewrite (isInWatchlist_persisted _ _ _ Hp), (isInWatchlist_persisted _ _ _ Hp').
    cbn [fst]. rewrite !Array_includes_strings, contains_toggle_other by exact Hne.
    reflexivity.
  - exists (toggle id w). split; [exact Hp' |]. split.
    + apply contains_toggle_other, Hne.
    + apply remove_all_toggle.
Qed.

Lemma toggle_changes_only_id_witness :
  let st := stored [js "b"; js "a"; js "c"] in
  let st' := after (toggleWatchlist (Some (js "a"))) st in
  fst (isInWatchlist (Some (js "c")) st') = fst (isInWatchlist (Some (js "c")) st) /\
  exists w',
    persisted st' w' /\
    contains w' (js "c") = contains [js "b"; js "a"; js "c"] (js "c") /\
    remove_all (js "a") w' = remove_all (js "a") [js "b"; js "a"; js "c"].
Proof.
  apply (toggle_changes_only_id (js "a") (js "c") [js "b"; js "a"; js "c"]).
  - apply persisted_stored.
  - discriminate.
Defined.

(** C2 (as amended).  [getWatchlist] never changes the page; it returns the
    empty sequence when nothing is persisted or the payload is the empty
    string, the decoded value when the payload parses (in particular the
    sequence of identifiers that [saveWatchlist] wrote), and it throws a
    [SyntaxError] when the payload does not parse. *)
Theorem getWatchlist_cases (st : State) (payload : option jsstring) :
  localStorage st !! WATCHLIST_KEY = payload ->
  getWatchlist st =
    (match payload with
     | None | Some [] => Normal (JArr [])
     | Some text =>
         match JSON_parse text with
         | Some v => Normal v
         | None => Throw SyntaxError
         end
     end, st)
  /\ (forall w : list jsstring,
        payload = Some (JSON_stringify (map JStr w)) ->
        getWatchlist st = (Normal (JArr (map JStr w)), st)).
Proof.
  intros Hst. split.
  - unfold getWatchlist. rewrite Hst.
    destruct payload as [[| c r] |]; try reflexivity.
    destruct (JSON_parse (c :: r)); reflexivity.
  - intros w ->. apply persisted_after_save, Hst.
Qed.

Lemma getWatchlist_cases_witness :
  getWatchlist (stored [js "naruto"]) =
    (Normal (JArr [JStr (js "naruto")]), stored [js "naruto"]).
Proof.
  refine (proj2 (getWatchlist_cases (stored [js "naruto"]) _ _) [js "naruto"] eq_refl).
  apply lookup_singleton_eq.
Defined.

(** C2 (as stated) fails: a payload that does not parse makes
    [getWatchlist] throw instead of returning the empty sequence. *)
Lemma getWatchlist_corrupt_payload_throws :
  let st := storage_only {[ WATCHLIST_KEY := js "{oops" ]} in
  JSON_parse (js "{oops") = None /\
  getWatchlist st = (Throw SyntaxError, st) /\
  getWatchlist st <> (Normal (JArr []), st).
Proof.
  intros st.
  assert (Hg : getWatchlist st = (Throw SyntaxError, st)).
  { unfold getWatchlist. subst st. cbn [localStorage storage_only].
    rewrite lookup_singleton_eq. reflexivity. }
  split; [vm_compute; reflexivity |]. split; [exact Hg |].
  rewrite Hg. discriminate.
Qed.

End Store.


(** ** The view synchroniser: initialisation, observer, clicks *)

Section Synchroniser.

Import Examples.

Lemma refresh_removes_card_witness :
  let st := page [js "y"] watchlist_page in
  let st' := after updateWatchlistButtons st in
  fst (updateWatchlistButtons st) = Normal tt /\
  isConnected (document st') 2 = false /\
  ~ In 3%nat (toggles (document st')) /\
  localStorage st' = localStorage st /\
  persisted st' [js "y"].
Proof.
  apply (refresh_removes_card (page [js "y"] watchlist_page) [js "y"] 3 2 (js "x")).
  - apply persisted_after_save. apply lookup_singleton_eq.
  - intros c Hc. vm_compute in Hc.
    destruct Hc as [<- | [<- | []]]; eexists; split; vm_compute; reflexivity.
  - vm_compute. auto.
  - vm_compute. reflexivity.
  - reflexivity.
  - vm_compute. reflexivity.
  - reflexivity.
Defined.

(** C3.  On every page without the description-page button, the watchlist
    initialisation throws a [TypeError] right after binding the generic
    toggles: the initial refresh never runs and nothing is observed. *)
Theorem init_throws_without_description_button (st : State) :
  getElementById (js "description-watchlist-btn") (document st) = None ->
  fst (init st) = Throw TypeError /\
  observed (after init st) = observed st /\
  (forall n, textContent (element (document (after init st)) n)
             = textContent (element (document st) n)) /\
  (forall b, In b (toggles (document st)) ->
             clickListeners (element (document (after init st)) b)
             = clickListeners (element (document st) b) ++ [WatchlistClick b]).
Proof.
  intros Hnone.
  assert (Hinit : init st
            = (Throw TypeError,
               with_document (bind_all (toggles (document st)) (document st)) st)).
  { unfold init, mbind, Eff_bind. rewrite bind_watchlist_buttons_eq.
    cbn [get_state document with_document].
    rewrite (getElementById_rebound _ _ _ (doc_rebound_bind_all _ _)), Hnone.
    reflexivity. }
  unfold after. rewrite Hinit. cbn [fst snd document with_document observed].
  split; [reflexivity |]. split; [reflexivity |]. split.
  - intros n.
    destruct (proj2 (doc_rebound_bind_all (toggles (document st)) (document st)) n)
      as (_ & _ & _ & _ & _ & Ht). exact Ht.
  - intros b Hb. apply clickListeners_bound, Hb.
Qed.

Lemma init_throws_without_description_button_witness :
  fst (init (page [js "x"] search_page)) = Throw TypeError /\
  textContent (element (document (after init (page [js "x"] search_page))) 2) = [].
Proof.
  destruct (init_throws_without_description_button (page [js "x"] search_page))
    as (Hthrow & _ & Htext & _).
  - vm_compute. reflexivity.
  - split; [exact Hthrow |]. rewrite Htext. reflexivity.
Defined.

(** *** The observer *)

Lemma observer_record (m : MutationRecord) (st : State) :
  adds_nodes m = true ->
  let s1 := after (bind_watchlist_buttons ;; updateWatchlistButtons ;;
                   console_log (js "mutations deteced")) st in
  doc_shrinks (document st) (document s1) /\
  forall b, In b (toggles (document st)) ->
            clickListeners (element (document s1) b)
            = clickListeners (element (document st) b) ++ [WatchlistClick b].
Proof.
  intros _ s1. subst s1. unfold after, mbind, Eff_bind.
  rewrite bind_watchlist_buttons_eq.
  set (s0 := with_document (bind_all (toggles (document st)) (document st)) st).
  pose proof (updateWatchlistButtons_evolves s0) as Hev. unfold tree_evolves, after in Hev.
  assert (Hs0 : doc_shrinks (document st) (document s0))
    by apply doc_rebound_shrinks, doc_rebound_bind_all.
  assert (Hl0 : forall b, In b (toggles (document st)) ->
            clickListeners (element (document s0) b)
            = clickListeners (element (document st) b) ++ [WatchlistClick b])
    by (intros b Hb; apply clickListeners_bound, Hb).
  destruct (updateWatchlistButtons s0) as [[[] | e] s2];
    cbn [snd document console_log modify with_console] in *.
  - split; [eapply doc_shrinks_trans; [exact Hs0 | apply doc_evolves_shrinks, Hev] |].
    intros b Hb. destruct (proj2 Hev b) as (_ & _ & _ & _ & -> & _). apply Hl0, Hb.
  - split; [eapply doc_shrinks_trans; [exact Hs0 | apply doc_evolves_shrinks, Hev] |].
    intros b Hb. destruct (proj2 Hev b) as (_ & _ & _ & _ & -> & _). apply Hl0, Hb.
Qed.

Lemma observer_callback_cons (m : MutationRecord) (ms : list MutationRecord) (st : State) :
  observer_callback (m :: ms) st =
  if adds_nodes m then
    match (bind_watchlist_buttons ;; updateWatchlistButtons ;;
           console_log (js "mutations deteced")) st with
    | (Normal _, s1) => observer_callback ms s1
    | (Throw e, s1) => (Throw e, s1)
    end
  else observer_callback ms st.
Proof.
  unfold observer_callback at 1. cbn [forEach]. fold (observer_callback ms).
  unfold adds_nodes. unfold mbind at 1, Eff_bind at 1.
  destruct (_ && _); reflexivity.
Qed.

Lemma observer_callback_shrinks (ms : list MutationRecord) :
  forall st, doc_shrinks (document st) (document (after (observer_callback ms) st)).
Proof.
  induction ms as [| m ms IH]; intros st; [apply doc_shrinks_refl |].
  unfold after. rewrite observer_callback_cons.
  destruct (adds_nodes m) eqn:Hm; [| apply IH].
  pose proof (observer_record m st Hm) as [Hs _]. unfold after in Hs.
  destruct ((bind_watchlist_buttons ;; _) st) as [[[] | e] s1]; cbn [snd] in *.
  - eapply doc_shrinks_trans; [exact Hs | apply IH].
  - exact Hs.
Qed.

(** After a batch of records that was processed to its end, a toggle still
    in the document carries one more handler for each record of the batch
    that reported added nodes. *)
Lemma observer_adds_one_handler_per_record
    (ms : list MutationRecord) (st : State) (b : NodeId) :
  fst (observer_callback ms st) = Normal tt ->
  In b (toggles (document (after (observer_callback ms) st))) ->
  clickListeners (element (document (after (observer_callback ms) st)) b)
  = clickListeners (element (document st) b) ++ repeat (WatchlistClick b) (rebinds ms).
Proof.
  revert st. induction ms as [| m ms IH]; intros st Hnormal Hb.
  - cbn. rewrite app_nil_r. reflexivity.
  - unfold after in Hb |- *. rewrite observer_callback_cons in *.
    unfold rebinds. cbn [List.filter].
    destruct (adds_nodes m) eqn:Hm; [| apply IH; assumption].
    pose proof (observer_record m st Hm) as [Hs Hbound]. unfold after in Hs, Hbound.
    destruct ((bind_watchlist_buttons ;; _) st) as [[[] | e] s1];
      cbn [fst snd] in *; [| discriminate].
    pose proof (IH s1 Hnormal) as IH1.
    pose proof (observer_callback_shrinks ms s1) as Hs1.
    unfold after in IH1, Hs1.
    rewrite (IH1 Hb). fold (rebinds ms).
    assert (Hb1 : In b (toggles (document s1))).
    { eapply querySelectorAll_class_shrinks; [exact Hs1 | exact Hb]. }
    assert (Hb0 : In b (toggles (document st))).
    { eapply querySelectorAll_class_shrinks; [exact Hs | exact Hb1]. }
    rewrite (Hbound b Hb0), <- app_assoc. reflexivity.
Qed.

Lemma run_listener_watchlist (btn : NodeId) (st : State) :
  run_listener (WatchlistClick btn) st
  = toggleWatchlist (dataset_anime (element (document st) btn))
      (with_event true (propagationStopped st) st).
Proof. reflexivity. Qed.

(** The handlers of a toggle run one after the other, and each of them
    toggles the identifier once. *)
Lemma toggleWatchlist_dataset (anime : option jsstring) (st : State) (b : NodeId) :
  dataset_anime (element (document (after (toggleWatchlist anime) st)) b)
  = dataset_anime (element (document st) b).
Proof.
  unfold after, toggleWatchlist, mbind, Eff_bind.
  pose proof (getWatchlist_state st) as Hg. unfold after in Hg.
  destruct (getWatchlist st) as [[v | e] s0]; cbn [snd] in Hg; subst s0;
    [| reflexivity].
  destruct v; try reflexivity.
  unfold saveWatchlist, modify.
  match goal with
  | |- context [updateWatchlistButtons ?s] =>
      pose proof (updateWatchlistButtons_evolves s) as Hev
  end.
  unfold tree_evolves, after in Hev.
  destruct (updateWatchlistButtons _) as [[[] | e] s2]; cbn [snd] in *;
    destruct (proj2 Hev b) as (_ & _ & -> & _); reflexivity.
Qed.

Lemma invoke_watchlist_click (b : NodeId) (id : jsstring) (w : list jsstring) (st : State) :
  persisted st w ->
  dataset_anime (element (document st) b) = Some id ->
  persisted (invoke (WatchlistClick b) st) (toggle id w) /\
  dataset_anime (element (document (invoke (WatchlistClick b) st)) b) = Some id.
Proof.
  intros Hp Hid.
  assert (Hp1 : persisted (with_event true (propagationStopped st) st) w)
    by (apply (persisted_storage st); [reflexivity | exact Hp]).
  pose proof (toggleWatchlist_persisted id w _ Hp1) as Hp2.
  pose proof (toggleWatchlist_dataset (Some id)
                (with_event true (propagationStopped st) st) b) as Hd.
  unfold invoke. rewrite run_listener_watchlist, Hid. unfold after in Hp2, Hd.
  destruct (toggleWatchlist _ _) as [[[] | e] s1]; cbn [snd] in *.
  - split; [exact Hp2 | rewrite Hd; exact Hid].
  - split; [apply (persisted_storage s1); [reflexivity | exact Hp2] |].
    cbn [document with_reported]. rewrite Hd. exact Hid.
Qed.

Lemma invoke_watchlist_clicks (b : NodeId) (id : jsstring) (k : nat) :
  forall (w : list jsstring) (st : State),
    persisted st w ->
    dataset_anime (element (document st) b) = Some id ->
    persisted (fold_left (fun s l => invoke l s) (repeat (WatchlistClick b) k) st)
              (Nat.iter k (toggle id) w).
Proof.
  induction k as [| k IH]; intros w st Hp Hid; [exact Hp |].
  rewrite Nat.iter_succ_r. cbn [repeat fold_left].
  destruct (invoke_watchlist_click b id w st Hp Hid) as [Hp1 Hid1].
  apply IH; assumption.
Qed.

(** C4.  The observer binds again what is bound already: every mutation
    record that reports added nodes makes it attach one more click handler
    to every toggle then in the document.  After a batch that was
    processed to its end, a toggle still in the document carries as many
    additional handlers as the batch had such records, and since all
    handlers of a toggle run on a click, one click performs that many
    toggles of its identifier in the Store instead of one. *)
Theorem observer_rebinds_every_toggle
    (ms : list MutationRecord) (st : State) (b : NodeId) :
  fst (observer_callback ms st) = Normal tt ->
  let st' := after (observer_callback ms) st in
  In b (toggles (document st')) ->
  clickListeners (element (document st') b)
  = clickListeners (element (document st) b) ++ repeat (WatchlistClick b) (rebinds ms)
  /\
  forall (id : jsstring) (w : list jsstring) (k : nat),
    clickListeners (element (document st') b) = repeat (WatchlistClick b) k ->
    dataset_anime (element (document st') b) = Some id ->
    persisted st' w ->
    propagationStopped st' = false ->
    persisted (invoke_listeners b st') (Nat.iter k (toggle id) w).
Proof.
  intros Hnormal st' Hb. split.
  - apply observer_adds_one_handler_per_record; assumption.
  - intros id w k Hl Hid Hp Hstop. unfold invoke_listeners.
    rewrite Hstop, Hl. apply invoke_watchlist_clicks; assumption.
Qed.

Lemma observer_rebinds_every_toggle_witness :
  clickListeners
    (element (document (after (observer_callback [card_added]) injected_grid)) 3)
  = clickListeners (element (document injected_grid) 3) ++ [WatchlistClick 3].
Proof.
  refine (proj1 (observer_rebinds_every_toggle [card_added] injected_grid 3 _ _)).
  - vm_compute. reflexivity.
  - vm_compute. auto.
Defined.

(** *** Clicks *)

Lemma toggleWatchlist_unfold (id : jsstring) (w : list jsstring) (st : State) :
  persisted st w ->
  toggleWatchlist (Some id) st
  = updateWatchlistButtons
      (with_localStorage
         (<[WATCHLIST_KEY := JSON_stringify (map JStr (toggle id w))]> (localStorage st))
         st).
Proof.
  intros Hp. unfold toggleWatchlist, mbind, Eff_bind. rewrite Hp.
  unfold saveWatchlist, modify. rewrite toggled_strings. reflexivity.
Qed.

Lemma updateWatchlistButtons_event (st : State) :
  defaultPrevented (after updateWatchlistButtons st) = defaultPrevented st /\
  propagationStopped (after updateWatchlistButtons st) = propagationStopped st.
Proof.
  pose proof (updateWatchlistButtons_document_only st) as H.
  unfold document_only in H. rewrite H. split; reflexivity.
Qed.

(** C5 (as amended).  The click handler bound to a toggle cancels the
    default action of the click, saves the Watchlist toggled at the
    toggle's identifier, then refreshes all views; it does not stop the
    propagation of the event. *)
Theorem watchlist_click_handler
    (btn : NodeId) (id : jsstring) (w : list jsstring) (st : State) :
  persisted st w ->
  dataset_anime (element (document st) btn) = Some id ->
  let st' := after (run_listener (WatchlistClick btn)) st in
  run_listener (WatchlistClick btn) st
  = updateWatchlistButtons
      (with_localStorage
         (<[WATCHLIST_KEY := JSON_stringify (map JStr (toggle id w))]> (localStorage st))
         (with_event true (propagationStopped st) st)) /\
  persisted st' (toggle id w) /\
  defaultPrevented st' = true /\
  propagationStopped st' = propagationStopped st.
Proof.
  intros Hp Hid st'.
  assert (Hp1 : persisted (with_event true (propagationStopped st) st) w)
    by (apply (persisted_storage st); [reflexivity | exact Hp]).
  assert (Hrun : run_listener (WatchlistClick btn) st
                 = toggleWatchlist (Some id) (with_event true (propagationStopped st) st))
    by (rewrite run_listener_watchlist, Hid; reflexivity).
  split; [rewrite Hrun, (toggleWatchlist_unfold _ _ _ Hp1); reflexivity |].
  subst st'. unfold after. rewrite Hrun.
  fold (after (toggleWatchlist (Some id)) (with_event true (propagationStopped st) st)).
  split; [apply toggleWatchlist_persisted, Hp1 |].
  unfold after. rewrite (toggleWatchlist_unfold _ _ _ Hp1).
  match goal with
  | |- context [updateWatchlistButtons ?s] =>
      destruct (updateWatchlistButtons_event s) as [Hd Hs]
  end.
  unfold after in Hd, Hs. rewrite Hd, Hs. split; reflexivity.
Qed.

Lemma watchlist_click_handler_witness :
  let st := after init (page [js "x"; js "y"] watchlist_page) in
  let st' := after (run_listener (WatchlistClick 5)) st in
  persisted st' [js "x"] /\ defaultPrevented st' = true /\ propagationStopped st' = false.
Proof.
  destruct (watchlist_click_handler 5 (js "y") [js "x"; js "y"]
              (after init (page [js "x"; js "y"] watchlist_page)))
    as (_ & Hp & Hd & Hs).
  - vm_compute. reflexivity.
  - vm_compute. reflexivity.
  - split; [exact Hp |]. split; [exact Hd |]. rewrite Hs. vm_compute. reflexivity.
Defined.

(** On a page whose cards are links, a click on a toggle does not follow
    the link of its card. *)
Lemma click_on_toggle_keeps_page :
  let st := after init (page [js "x"; js "y"] watchlist_page) in
  href (element (document st) 4) = Some (js "/anime/y") /\
  location (dispatch_click 5 st) = None /\
  location (dispatch_click 4 st) = Some (js "/anime/y").
Proof. vm_compute. repeat split. Qed.

(** C5 (as stated) fails: the click reaches the navigation handler of the
    card that contains the toggle. *)
Lemma click_bubbles_to_card :
  let st := initialised_grid in
  let st' := dispatch_click 3 st in
  fst (init (page [] grid_page)) = Normal tt /\
  clickListeners (element (document st) 3) = [WatchlistClick 3] /\
  clickListeners (element (document st) 2) = [NavigationHandler (js "/anime/x")] /\
  location st = None /\
  propagationStopped st' = false /\
  location st' = Some (js "/anime/x").
Proof. vm_compute. repeat split. Qed.

(** After one record of added nodes the toggle that was bound at
    initialisation carries two handlers, and one click on it toggles its
    identifier twice: the Watchlist is as before the click. *)
Lemma observer_rebinds_bound_toggle :
  let st1 := after (observer_callback [card_added]) injected_grid in
  clickListeners (element (document initialised_grid) 3) = [WatchlistClick 3] /\
  clickListeners (element (document st1) 3) = [WatchlistClick 3; WatchlistClick 3] /\
  fst (getWatchlist (dispatch_click 3 initialised_grid)) = Normal (JArr [JStr (js "x")]) /\
  fst (getWatchlist st1) = Normal (JArr []) /\
  fst (getWatchlist (dispatch_click 3 st1)) = Normal (JArr []).
Proof. vm_compute. repeat split. Qed.

(** On the watchlist page, once the observer handled one record, each
    toggle carries two handlers.  One click on the toggle of "x" then
    removes the card of "x" from the page (first handler) and stores "x"
    again (second handler): the card is gone and the entry is kept. *)
Lemma click_on_rebound_remove_toggle :
  let st := rebound_watchlist in
  let st' := dispatch_click 3 st in
  clickListeners (element (document st) 3) = [WatchlistClick 3; WatchlistClick 3] /\
  fst (getWatchlist st) = Normal (JArr [JStr (js "x"); JStr (js "y"); JStr (js "z")]) /\
  isConnected (document st) 2 = true /\
  isConnected (document st') 2 = false /\
  fst (getWatchlist st') = Normal (JArr [JStr (js "y"); JStr (js "z"); JStr (js "x")]).
Proof. vm_compute. repeat split. Qed.

(** *** The remove-only mark *)

(** The script's test implies the mark. *)
Lemma remove_test_marked (d : list Element) (btn : NodeId) :
  remove_test d btn -> remove_only d btn.
Proof.
  unfold remove_test, remove_only, classList_item, has_class. intros H.
  apply existsb_exists. exists (js "remove-btn"). split.
  - apply list_elem_of_In. eapply list_elem_of_lookup_2, H.
  - unfold jsstring_eqb. apply bool_decide_eq_true. reflexivity.
Qed.

(** A toggle whose second class is not the marker class only gets its
    glyph, whatever classes it carries: its refresh removes no element. *)
Lemma update_button_without_second_class (st : State) (w : list jsstring) (btn : NodeId) :
  persisted st w ->
  (btn < length (document st))%nat ->
  ~ remove_test (document st) btn ->
  update_button btn st =
    (Normal tt,
     with_document
       (replace_children btn
          (if Array_includes (map JStr w) (dataset_anime (element (document st) btn))
           then star_filled else star_hollow)
          (document st))
       st).
Proof.
  intros Hp Hn Hno. rewrite (update_button_step st w btn Hp Hn). cbn zeta.
  rewrite (bool_decide_eq_false_2 _ Hno), andb_false_r. reflexivity.
Qed.

(** C7.  The refresh does not remove the card of every toggle marked as
    remove-only whose identifier is absent from the Watchlist: it
    recognises the mark only as the second class of the toggle.  On the
    watchlist page whose first toggle carries the classes
    "remove-btn watchlist-btn" and whose identifier "x" is absent from the
    Watchlist, the refresh completes, the toggle shows the hollow glyph,
    and the card and its toggle stay in the document; with the two classes
    in the other order the card is removed. *)
Theorem refresh_misses_reordered_mark :
  let st := page [js "y"] reordered_page in
  let st' := after updateWatchlistButtons st in
  In 3%nat (toggles (document st)) /\
  remove_only (document st) 3 /\
  ~ remove_test (document st) 3 /\
  dataset_anime (element (document st) 3) = Some (js "x") /\
  contains [js "y"] (js "x") = false /\
  parentElement (document st) 3 = Some 2%nat /\
  fst (updateWatchlistButtons st) = Normal tt /\
  textContent (element (document st') 3) = star_hollow /\
  isConnected (document st') 2 = true /\
  In 3%nat (toggles (document st')) /\
  isConnected (document (after updateWatchlistButtons (page [js "y"] watchlist_page))) 2
  = false.
Proof.
  cbn zeta. repeat split; try (vm_compute; reflexivity); try (vm_compute; auto; fail).
  vm_compute. discriminate.
Qed.

End Synchroniser.

(** ** The player *)

Section PlayerProperties.

Import Player.
Local Open Scope Q_scope.

(** The guard of the player: on a page without the video element or
    without the player container the initialisation returns at once; it
    registers nothing and throws nothing. *)
Lemma player_init_guard (p : Page) :
  present p (js "video") = false \/ present p (js "playerContainer") = false ->
  init p = (Normal tt, p).
Proof.
  intros H. unfold init, mbind, Eff_bind. cbn [get_state].
  destruct H as [-> | ->]; [| rewrite orb_true_r]; reflexivity.
Qed.

Lemma Math_max_zero (x : Q) :
  exists y, Math_max (Num x) (Num 0) = Num y /\ 0 <= y /\ (0 <= x -> y <= x) /\
            (x <= 0 -> y == 0).
Proof.
  unfold Math_max. destruct (Qle_bool x 0) eqn:Hle.
  - apply Qle_bool_iff in Hle. exists 0. repeat split; try lra.
  - assert (Hlt : ~ x <= 0) by (rewrite <- Qle_bool_iff, Hle; discriminate).
    exists x. repeat split; lra.
Qed.

Lemma Math_min_bound (x d : Q) :
  exists y, Math_min (Num x) (Num d) = Num y /\ y <= d /\ (0 <= x -> 0 <= d -> 0 <= y).
Proof.
  unfold Math_min. destruct (Qle_bool x d) eqn:Hle.
  - apply Qle_bool_iff in Hle. exists x. repeat split; lra.
  - exists d. repeat split; lra.
Qed.

(** C6.  With a known duration and a current position inside
    [0, duration], each relative seek (the 88-second skip buttons and the
    10-second arrow keys) completes and sets a position that is again
    inside [0, duration]; a skip back from position 5 sets position 0. *)
Theorem relative_seek_stays_in_range (a : RelativeSeek) (p : Page) (d : Q) :
  duration p = Num d ->
  0 <= currentTime p ->
  currentTime p <= d ->
  fst (seek_handler a p) = Normal tt /\
  0 <= currentTime (after (seek_handler a) p) /\
  currentTime (after (seek_handler a) p) <= d /\
  (currentTime p == 5 -> currentTime (after on_rewind_click p) == 0).
Proof.
  intros Hd H0 Hle.
  assert (Hback : forall step, 0 <= step ->
            exists y, Math_max (Num (currentTime p - step)) (Num 0) = Num y /\
                      0 <= y /\ y <= d).
  { intros step Hstep.
    destruct (Math_max_zero (currentTime p - step)) as (y & Hy & Hy0 & Hyx & Hyz).
    exists y. split; [exact Hy |]. split; [exact Hy0 |].
    destruct (Qlt_le_dec (currentTime p - step) 0) as [Hneg | Hpos].
    - rewrite Hyz by lra. lra.
    - specialize (Hyx Hpos). lra. }
  assert (Hfwd : forall step, 0 <= step ->
            exists y, Math_min (Num (currentTime p + step)) (duration p) = Num y /\
                      0 <= y /\ y <= d).
  { intros step Hstep. rewrite Hd.
    destruct (Math_min_bound (currentTime p + step) d) as (y & Hy & Hyd & Hy0).
    exists y. split; [exact Hy |]. split; [apply Hy0; lra | exact Hyd]. }
  split; [| split; [| split]].
  - destruct a; unfold seek_handler, on_rewind_click, on_forward_click, on_keydown,
      mbind, Eff_bind; cbn [get_state].
    + destruct (Hback 88) as (y & -> & _); [lra | reflexivity].
    + destruct (Hfwd 88) as (y & -> & _); [lra | reflexivity].
    + replace (jsstring_eqb (js "ArrowLeft") (js "ArrowRight")) with false by reflexivity.
      replace (jsstring_eqb (js "ArrowLeft") (js "ArrowLeft")) with true by reflexivity.
      destruct (Hback 10) as (y & -> & _); [lra | reflexivity].
    + replace (jsstring_eqb (js "ArrowRight") (js "ArrowRight")) with true by reflexivity.
      destruct (Hfwd 10) as (y & -> & _); [lra | reflexivity].
  - destruct a; unfold after, seek_handler, on_rewind_click, on_forward_click, on_keydown,
      mbind, Eff_bind; cbn [get_state].
    + destruct (Hback 88) as (y & -> & Hy & _); [lra | exact Hy].
    + destruct (Hfwd 88) as (y & -> & Hy & _); [lra | exact Hy].
    + replace (jsstring_eqb (js "ArrowLeft") (js "ArrowRight")) with false by reflexivity.
      replace (jsstring_eqb (js "ArrowLeft") (js "ArrowLeft")) with true by reflexivity.
      destruct (Hback 10) as (y & -> & Hy & _); [lra | exact Hy].
    + replace (jsstring_eqb (js "ArrowRight") (js "ArrowRight")) with true by reflexivity.
      destruct (Hfwd 10) as (y & -> & Hy & _); [lra | exact Hy].
  - destruct a; unfold after, seek_handler, on_rewind_click, on_forward_click, on_keydown,
      mbind, Eff_bind; cbn [get_state].
    + destruct (Hback 88) as (y & -> & _ & Hy); [lra | exact Hy].
    + destruct (Hfwd 88) as (y & -> & _ & Hy); [lra | exact Hy].
    + replace (jsstring_eqb (js "ArrowLeft") (js "ArrowRight")) with false by reflexivity.
      replace (jsstring_eqb (js "ArrowLeft") (js "ArrowLeft")) with true by reflexivity.
      destruct (Hback 10) as (y & -> & _ & Hy); [lra | exact Hy].
    + replace (jsstring_eqb (js "ArrowRight") (js "ArrowRight")) with true by reflexivity.
      destruct (Hfwd 10) as (y & -> & _ & Hy); [lra | exact Hy].
  - intros H5. unfold after, on_rewind_click, mbind, Eff_bind. cbn [get_state].
    destruct (Math_max_zero (currentTime p - 88)) as (y & -> & _ & _ & Hyz).
    cbn [set_currentTime modify snd currentTime with_currentTime].
    apply Hyz. lra.
Qed.

Lemma relative_seek_stays_in_range_witness :
  fst (on_rewind_click (playing 5 1440)) = Normal tt /\
  0 <= currentTime (after on_rewind_click (playing 5 1440)) /\
  currentTime (after on_rewind_click (playing 5 1440)) <= 1440 /\
  currentTime (after on_rewind_click (playing 5 1440)) == 0.
Proof.
  destruct (relative_seek_stays_in_range SkipBack (playing 5 1440) 1440)
    as (Hn & H0 & Hd & H5).
  - reflexivity.
  - vm_compute. discriminate.
  - vm_compute. discriminate.
  - split; [exact Hn |]. split; [exact H0 |]. split; [exact Hd |].
    apply H5. reflexivity.
Defined.

(** *** The timestamp *)

Lemma Qfloor_unique (x : Q) (n : Z) :
  inject_Z n <= x -> x < inject_Z (n + 1) -> Qfloor x = n.
Proof.
  intros Hle Hlt.
  pose proof (Qfloor_le x) as Hf. pose proof (Qlt_floor x) as Hf'.
  assert (n <= Qfloor x)%Z
    by (rewrite <- (Qfloor_Z n); apply Qfloor_resp_le; exact Hle).
  assert (Qfloor x < n + 1)%Z
    by (rewrite Zlt_Qlt; eapply Qle_lt_trans; eassumption).
  lia.
Qed.

Lemma remainder_floor (x : Q) :
  0 <= x ->
  0 <= remainder x 60 /\ remainder x 60 < 60 /\
  Qfloor (remainder x 60) = (Qfloor x mod 60)%Z.
Proof.
  intros Hx. unfold remainder, trunc.
  set (y := x / 60).
  assert (Hxy : x == 60 * y) by (subst y; field).
  assert (Hy : 0 <= y) by lra.
  replace (Qle_bool 0 y) with true by (symmetry; apply Qle_bool_iff; exact Hy).
  set (k := Qfloor y).
  pose proof (Qfloor_le y) as Hk. pose proof (Qlt_floor y) as Hk'. fold k in Hk, Hk'.
  rewrite inject_Z_plus in Hk'. change (inject_Z 1) with 1 in Hk'.
  pose proof (Qfloor_le x) as Hf. pose proof (Qlt_floor x) as Hf'.
  rewrite inject_Z_plus in Hf'. change (inject_Z 1) with 1 in Hf'.
  split; [lra |]. split; [lra |].
  assert (Hlow : (60 * k <= Qfloor x)%Z).
  { rewrite <- (Qfloor_Z (60 * k)). apply Qfloor_resp_le.
    rewrite inject_Z_mult. change (inject_Z 60) with 60. lra. }
  assert (Hhigh : (Qfloor x < 60 * k + 60)%Z).
  { rewrite Zlt_Qlt, inject_Z_plus, inject_Z_mult.
    change (inject_Z 60) with 60. lra. }
  transitivity (Qfloor x - 60 * k)%Z.
  - apply Qfloor_unique.
    + unfold Z.sub. rewrite inject_Z_plus, inject_Z_opp, inject_Z_mult.
      change (inject_Z 60) with 60. lra.
    + unfold Z.sub. rewrite !inject_Z_plus, inject_Z_opp, inject_Z_mult.
      change (inject_Z 60) with 60. change (inject_Z 1) with 1. lra.
  - apply Z.mod_unique with k; lia.
Qed.

Lemma parseInt_plain (x : Q) :
  0 <= x -> x < 60 -> plain x -> parseInt x = Qfloor x.
Proof.
  intros H0 H60 Hp. unfold parseInt, parseInt_magnitude.
  replace (Qle_bool 0 x) with true by (symmetry; apply Qle_bool_iff; exact H0).
  destruct (Qeq_bool x 0) eqn:Hz.
  - apply Qeq_bool_eq in Hz. rewrite (Qfloor_comp _ _ Hz). reflexivity.
  - apply Qeq_bool_neq in Hz.
    destruct (Qle_bool exponent_from x) eqn:Hbig.
    + apply Qle_bool_iff in Hbig. unfold exponent_from in Hbig. lra.
    + destruct Hp as [Hp | Hp]; [contradiction |].
      replace (Qle_bool exponent_below x) with true
        by (symmetry; apply Qle_bool_iff; exact Hp).
      reflexivity.
Qed.

Lemma timestamp_text_plain (t : Q) :
  0 <= t ->
  plain (remainder (t / 60) 60) ->
  plain (remainder t 60) ->
  timestamp_text t
  = toLocaleString_2 (Qfloor (t / 60) mod 60) ++ js ":"
      ++ toLocaleString_2 (Qfloor t mod 60).
Proof.
  intros Ht Hm Hs. unfold timestamp_text.
  assert (Ht60 : 0 <= t / 60).
  { set (y := t / 60). assert (t == 60 * y) by (subst y; field). lra. }
  destruct (remainder_floor t Ht) as (Hs0 & Hs60 & Hsf).
  destruct (remainder_floor (t / 60) Ht60) as (Hm0 & Hm60 & Hmf).
  rewrite (parseInt_plain _ Hm0 Hm60 Hm), (parseInt_plain _ Hs0 Hs60 Hs).
  rewrite Hmf, Hsf. reflexivity.
Qed.

Lemma plain_multiple (r : Q) (j : Z) (q : Q) :
  0 <= r -> 0 < q -> q <= 60 -> q * r == inject_Z j -> plain r.
Proof.
  intros Hr Hq Hq60 Hj. unfold plain, exponent_below.
  assert (Hj0 : (0 <= j)%Z).
  { rewrite Zle_Qle. change (inject_Z 0) with 0. rewrite <- Hj. nra. }
  destruct (Z.eq_dec j 0%Z) as [-> | Hne].
  - left. change (inject_Z 0) with 0 in Hj. nra.
  - right. assert (H1 : (1 <= j)%Z) by lia.
    rewrite Zle_Qle in H1. change (inject_Z 1) with 1 in H1. rewrite <- Hj in H1.
    nra.
Qed.

Lemma timestamp_text_whole_seconds (n : Z) :
  (0 <= n)%Z ->
  timestamp_text (inject_Z n)
  = toLocaleString_2 ((n / 60) mod 60) ++ js ":" ++ toLocaleString_2 (n mod 60).
Proof.
  intros Hn.
  assert (Ht : 0 <= inject_Z n) by (rewrite Zle_Qle in Hn; exact Hn).
  assert (Ht60 : 0 <= inject_Z n / 60).
  { set (y := inject_Z n / 60). assert (inject_Z n == 60 * y) by (subst y; field). lra. }
  rewrite timestamp_text_plain; [| exact Ht | |].
  - rewrite Qfloor_Z. change 60 with (inject_Z 60) at 1. rewrite <- Zdiv_Qdiv.
    reflexivity.
  - destruct (remainder_floor _ Ht60) as (H0 & _ & _).
    apply (plain_multiple _ (n - 3600 * trunc (inject_Z n / 60 / 60)) 60);
      [exact H0 | lra | lra |].
    unfold remainder. unfold Z.sub.
    rewrite inject_Z_plus, inject_Z_opp, inject_Z_mult.
    change (inject_Z 3600) with 3600. field.
  - destruct (remainder_floor _ Ht) as (H0 & _ & _).
    apply (plain_multiple _ (n - 60 * trunc (inject_Z n / 60)) 1);
      [exact H0 | lra | lra |].
    unfold remainder. unfold Z.sub.
    rewrite inject_Z_plus, inject_Z_opp, inject_Z_mult.
    change (inject_Z 60) with 60. ring.
Qed.

(** The timestamp of the specification's example. *)
Lemma timestamp_text_125 : timestamp_text 125 = js "02:05".
Proof. vm_compute. reflexivity. Qed.

(** C8.  On a [timeupdate] at 45 microseconds (duration 24 minutes) the
    timestamp display reads "07:00": the minute field is the leading digit
    of 7.5e-7, the exponent form in which the number is handed to
    [parseInt]. *)
Theorem timeupdate_reads_exponent_digit :
  let p := playing (45 # 1000000) 1440 in
  fst (on_timeupdate p) = Normal tt /\
  timestamp_innerHTML (after on_timeupdate p) = js "07:00" /\
  timestamp_innerHTML (after on_timeupdate (playing 125 1440)) = js "02:05".
Proof. vm_compute. repeat split. Qed.

End PlayerProperties.

(** ** The suggestion fetcher *)

Section SearchProperties.

Import Search.

(** C9.  An [input] event with an empty query sends no request and does
    not wait for one; the handler returns at once, and when the suggestion
    list exists it is empty afterwards. *)
Theorem empty_query_clears_without_request (p : Page) :
  searchInput_value p = [] ->
  requests (snd (on_input p)) = requests p /\
  (forall query, fst (on_input p) <> AwaitingFetch query) /\
  (forall rows, suggestions p = Some rows ->
                fst (on_input p) = Fulfilled /\ suggestions (snd (on_input p)) = Some []).
Proof.
  intros Hq. unfold on_input. rewrite Hq.
  destruct (suggestions p) as [rows |]; cbn.
  - repeat split; try discriminate.
  - repeat split; discriminate.
Qed.

Lemma empty_query_clears_without_request_witness :
  let p := mkPage [] (Some [js "Naruto"]) [js "n"] [] in
  requests (snd (on_input p)) = [js "n"] /\
  fst (on_input p) = Fulfilled /\
  suggestions (snd (on_input p)) = Some [].
Proof.
  destruct (empty_query_clears_without_request
              (mkPage [] (Some [js "Naruto"]) [js "n"] []) eq_refl)
    as (Hr & _ & Hs).
  destruct (Hs [js "Naruto"] eq_refl) as [Hf Hl].
  split; [exact Hr |]. split; [exact Hf | exact Hl].
Defined.

(** A non-empty query that can be encoded does send a request. *)
Lemma non_empty_query_requests (p : Page) (c : N) (r : jsstring) :
  searchInput_value p = c :: r ->
  well_formed (c :: r) = true ->
  on_input p = (AwaitingFetch (c :: r), with_request (c :: r) p).
Proof. intros Hq Hw. unfold on_input. rewrite Hq, Hw. reflexivity. Qed.

End SearchProperties.



(** ** What a refresh shows *)

Section Glyphs.

Import Examples.







(** The refresh, split at the end of its loop. *)
Lemma updateWatchlistButtons_split (st : State) (w : list jsstring) :
  persisted st w ->
  toggles_in_cards (document st) ->
  exists s1,
    forEach (toggles (document st)) update_button st = (Normal tt, s1) /\
    loop_inv w (document st) s1 /\
    updateWatchlistButtons st = update_description_button s1.
Proof.
  intros Hp Hcards.
  destruct (forEach_update_button_inv w (document st) Hcards
              (toggles (document st)) st (fun c Hc => Hc) (loop_inv_initial w st Hp))
    as (s1 & Hrun & Hinv & _ & _).
  exists s1. split; [exact Hrun |]. split; [exact Hinv |].
  unfold updateWatchlistButtons, mbind, Eff_bind. cbn [get_state].
  fold (toggles (document st)). rewrite Hrun. reflexivity.
Qed.
















End Glyphs.

(** ** Refreshing twice *)

Section Idempotent.

Import Examples.





Lemma not_own_parent (d : list Element) (n : NodeId) :
  isConnected d n = true -> parentNode (element d n) <> ChildOf n.
Proof.
  unfold isConnected. intros Hc Hp.
  assert (H : forall f, connected_from f d n = false).
  { induction f as [| f IH]; [reflexivity |]. cbn [connected_from]. rewrite Hp. exact IH. }
  rewrite H in Hc. discriminate.
Qed.




End Idempotent.



(** ** Initialisation on a page that has the description button *)

Section InitClick.

Import Examples.







End InitClick.

(** ** A click on a bound toggle *)

Section Clicks.

Import Examples.

Lemma toggleWatchlist_evolves (anime : option jsstring) :
  preserves tree_evolves (toggleWatchlist anime).
Proof.
  intros st. unfold after, toggleWatchlist, mbind, Eff_bind.
  pose proof (getWatchlist_state st) as Hg. unfold after in Hg.
  destruct (getWatchlist st) as [[v | e] s0]; cbn [snd] in Hg; subst s0;
    [| apply tree_evolves_refl].
  destruct v; try apply tree_evolves_refl.
  unfold saveWatchlist at 1, modify at 1.
  match goal with
  | |- context [updateWatchlistButtons ?s] =>
      pose proof (updateWatchlistButtons_evolves s) as Hev
  end.
  unfold after in Hev.
  destruct (updateWatchlistButtons _) as [[[] | e] s2]; exact Hev.
Qed.

(** A toggle of the Store leaves the flags of the event and the location
    alone. *)
Lemma toggleWatchlist_event (anime : option jsstring) (st : State) :
  let s := after (toggleWatchlist anime) st in
  defaultPrevented s = defaultPrevented st /\
  propagationStopped s = propagationStopped st /\
  location s = location st.
Proof.
  cbn zeta. unfold after, toggleWatchlist, mbind, Eff_bind.
  pose proof (getWatchlist_state st) as Hg. unfold after in Hg.
  destruct (getWatchlist st) as [[v | e] s0]; cbn [snd] in Hg; subst s0;
    [| repeat split].
  destruct v; try (repeat split; fail).
  unfold saveWatchlist at 1 2 3, modify at 1 2 3.
  match goal with
  | |- context [updateWatchlistButtons ?s] =>
      pose proof (updateWatchlistButtons_document_only s) as Hd
  end.
  unfold document_only, after in Hd.
  destruct (updateWatchlistButtons _) as [r s2]. cbn [snd] in *.
  destruct r; cbn [snd]; rewrite Hd; repeat split.
Qed.

Lemma invoke_watchlist_click_event (b : NodeId) (st : State) :
  let s := invoke (WatchlistClick b) st in
  defaultPrevented s = true /\
  propagationStopped s = propagationStopped st /\
  location s = location st /\
  doc_evolves (document st) (document s).
Proof.
  cbn zeta. unfold invoke. rewrite run_listener_watchlist.
  set (st0 := with_event true (propagationStopped st) st).
  set (anime := dataset_anime (element (document st) b)).
  destruct (toggleWatchlist_event anime st0) as (Hd & Hs & Hl).
  pose proof (toggleWatchlist_evolves anime st0) as Hev.
  unfold tree_evolves, after in Hd, Hs, Hl, Hev.
  destruct (toggleWatchlist anime st0) as [[[] | e] s1]; cbn [snd] in *;
    cbn [defaultPrevented propagationStopped location document with_reported];
    rewrite Hd, Hs, Hl; (split; [reflexivity |]); (split; [reflexivity |]);
    (split; [reflexivity | exact Hev]).
Qed.

Lemma invoke_listeners_none (n : NodeId) (st : State) :
  clickListeners (element (document st) n) = [] -> invoke_listeners n st = st.
Proof.
  intros H. unfold invoke_listeners. rewrite H. destruct (propagationStopped st); reflexivity.
Qed.

Lemma bubble_past_silent_nodes (path : list NodeId) (st : State) :
  (forall a, In a path -> clickListeners (element (document st) a) = []) ->
  fold_left (fun s n => invoke_listeners n s) path st = st.
Proof.
  induction path as [| a path IH]; intros H; [reflexivity |].
  cbn [fold_left]. rewrite invoke_listeners_none by (apply H; left; reflexivity).
  apply IH. intros a' Ha'. apply H. right. exact Ha'.
Qed.

Lemma event_path_target (d : list Element) (b : NodeId) :
  (b < length d)%nat -> event_path (length d) d b = b :: ancestors d b.
Proof.
  unfold ancestors. destruct (length d) as [| f]; [lia |]. reflexivity.
Qed.

(** X11.  A click on a toggle that carries the one handler of the
    initialisation, and whose ancestors carry no click handler, toggles the
    toggle's identifier in the Store exactly once, cancels the default
    action, and starts no navigation: the link of the card is not
    followed. *)
Theorem click_toggles_once
    (st : State) (w : list jsstring) (b : NodeId) (id : jsstring) :
  persisted st w ->
  dataset_anime (element (document st) b) = Some id ->
  clickListeners (element (document st) b) = [WatchlistClick b] ->
  (forall a, In a (ancestors (document st) b) ->
             clickListeners (element (document st) a) = []) ->
  let st' := dispatch_click b st in
  persisted st' (toggle id w) /\
  defaultPrevented st' = true /\
  location st' = location st.
Proof.
  intros Hp Hid Hl Hanc st'.
  assert (Hb : (b < length (document st))%nat).
  { destruct (document st !! b) as [e |] eqn:He; [eapply lookup_lt_Some, He |].
    rewrite (element_out_of_range _ _ He) in Hl. discriminate. }
  set (st0 := with_event false false st).
  assert (Hp0 : persisted st0 w) by (apply (persisted_storage st); [reflexivity | exact Hp]).
  destruct (invoke_watchlist_click b id w st0 Hp0 Hid) as [Hp1 _].
  destruct (invoke_watchlist_click_event b st0) as (Hd1 & Hs1 & Hloc1 & Hev1).
  set (s1 := invoke (WatchlistClick b) st0) in *.
  assert (Hst' : st' = s1).
  { subst st'. unfold dispatch_click. rewrite (event_path_target _ _ Hb).
    cbn [fold_left]. fold st0.
    assert (Hfirst : invoke_listeners b st0 = s1).
    { unfold invoke_listeners. cbn [propagationStopped st0 with_event document].
      rewrite Hl. reflexivity. }
    rewrite Hfirst.
    rewrite bubble_past_silent_nodes.
    - rewrite Hd1. reflexivity.
    - intros a Ha. destruct (proj2 Hev1 a) as (_ & _ & _ & _ & -> & _).
      apply Hanc, Ha. }
  rewrite Hst'. split; [exact Hp1 |]. split; [exact Hd1 | exact Hloc1].
Qed.

Lemma click_toggles_once_witness :
  let st := after init (page [js "x"; js "y"] watchlist_page) in
  persisted (dispatch_click 5 st) [js "x"] /\
  location (dispatch_click 5 st) = None.
Proof.
  destruct (click_toggles_once (after init (page [js "x"; js "y"] watchlist_page))
              [js "x"; js "y"] 5 (js "y")) as (Hp & _ & Hl).
  - vm_compute. reflexivity.
  - vm_compute. reflexivity.
  - vm_compute. reflexivity.
  - assert (Hanc : ancestors
                     (document (after init (page [js "x"; js "y"] watchlist_page))) 5
                   = [4; 1; 0]%nat) by (vm_compute; reflexivity).
    rewrite Hanc. intros a [<- | [<- | [<- | []]]]; vm_compute; reflexivity.
  - split; [exact Hp | exact Hl].
Defined.

End Clicks.

(** ** The observer and records without added nodes *)

Section ObserverRecords.

Import Examples.

(** X12.  A batch of mutation records none of which reports added nodes
    (removals, such as the refresh's own, or other kinds of mutation)
    leaves the page as it is: nothing is bound and nothing refreshed. *)
Theorem observer_ignores_removals (ms : list MutationRecord) (st : State) :
  rebinds ms = 0%nat -> observer_callback ms st = (Normal tt, st).
Proof.
  induction ms as [| m ms IH]; intros H; [reflexivity |].
  rewrite observer_callback_cons. unfold rebinds in H. cbn [List.filter] in H.
  destruct (adds_nodes m); [discriminate |]. apply IH, H.
Qed.

Lemma observer_ignores_removals_witness :
  observer_callback [mkMutation (js "childList") []; mkMutation (js "attributes") [3%nat]]
    initialised_grid
  = (Normal tt, initialised_grid).
Proof.
  apply (observer_ignores_removals
           [mkMutation (js "childList") []; mkMutation (js "attributes") [3%nat]]
           initialised_grid).
  reflexivity.
Defined.

End ObserverRecords.

(** ** What a refresh leaves alone *)

Section RefreshFrame.

(** X6.  A refresh, whether it completes or throws, writes to the node
    table only, and there it only sets texts and removes elements: no
    element is added, moved or attached again, and no id, class,
    identifier, link or listener changes. *)
Theorem refresh_only_retexts_and_removes (st : State) :
  document_only st (after updateWatchlistButtons st) /\
  tree_evolves st (after updateWatchlistButtons st).
Proof.
  split; [apply updateWatchlistButtons_document_only | apply updateWatchlistButtons_evolves].
Qed.

End RefreshFrame.

(** ** More on the Store *)

Section StoreMore.

(** X1.  Saving a sequence of identifiers and reading the Watchlist back
    gives that sequence, whatever the storage held before. *)
Theorem save_then_get (st : State) (w : list jsstring) :
  let st' := after (saveWatchlist (map JStr w)) st in
  getWatchlist st' = (Normal (JArr (map JStr w)), st').
Proof.
  apply persisted_after_save. unfold after, saveWatchlist, modify.
  cbn [snd localStorage with_localStorage]. apply lookup_insert_eq.
Qed.

Lemma contains_toggle_self (id : jsstring) (w : list jsstring) :
  contains (toggle id w) id = negb (contains w id).
Proof.
  unfold toggle. destruct (contains w id) eqn:Hc; cbn [negb].
  - apply contains_remove_all.
  - unfold contains. apply bool_decide_eq_true. rewrite elem_of_app. right.
    apply list_elem_of_here.
Qed.

(** X2.  A toggle flips the membership of its identifier: [isInWatchlist]
    answers after [toggleWatchlist id] the opposite of what it answered
    before. *)
Theorem toggle_flips_membership (id : jsstring) (w : list jsstring) (st : State) :
  persisted st w ->
  let st' := after (toggleWatchlist (Some id)) st in
  isInWatchlist (Some id) st = (Normal (contains w id), st) /\
  isInWatchlist (Some id) st' = (Normal (negb (contains w id)), st').
Proof.
  intros Hp st'. split.
  - rewrite (isInWatchlist_persisted _ _ _ Hp), Array_includes_strings. reflexivity.
  - pose proof (toggleWatchlist_persisted id w st Hp) as Hp'. fold st' in Hp'.
    rewrite (isInWatchlist_persisted _ _ _ Hp'), Array_includes_strings,
      contains_toggle_self.
    reflexivity.
Qed.

Lemma toggle_flips_membership_witness :
  let st := stored [js "b"] in
  fst (isInWatchlist (Some (js "a")) st) = Normal false /\
  fst (isInWatchlist (Some (js "a")) (after (toggleWatchlist (Some (js "a"))) st))
  = Normal true.
Proof.
  destruct (toggle_flips_membership (js "a") [js "b"] (stored [js "b"])
              (persisted_stored [js "b"])) as [H0 H1].
  split; [rewrite H0 | rewrite H1]; reflexivity.
Defined.

Lemma NoDup_remove_all (id : jsstring) (w : list jsstring) :
  NoDup w -> NoDup (remove_all id w).
Proof.
  intros H. unfold remove_all. apply NoDup_ListNoDup, List.NoDup_filter.
  apply NoDup_ListNoDup. exact H.
Qed.

Lemma length_remove_all (id : jsstring) (w : list jsstring) :
  NoDup w -> id ∈ w -> S (length (remove_all id w)) = length w.
Proof.
  induction w as [| x w IH]; intros Hnd Hin; [apply elem_of_nil in Hin; destruct Hin |].
  apply NoDup_cons in Hnd as [Hx Hnd]. unfold remove_all in *. cbn [List.filter].
  unfold jsstring_eqb at 1. destruct (decide (x = id)) as [-> | Hne].
  - rewrite bool_decide_eq_true_2 by reflexivity. cbn [negb length]. f_equal.
    fold (remove_all id w). rewrite remove_all_absent; [reflexivity |].
    apply bool_decide_eq_false. exact Hx.
  - rewrite bool_decide_eq_false_2 by exact Hne. cbn [negb length]. f_equal.
    apply IH; [exact Hnd |]. apply elem_of_cons in Hin as [-> | Hin]; [contradiction | exact Hin].
Qed.

(** X3.  A Watchlist without duplicates stays without duplicates under
    [toggleWatchlist], and gets one entry longer or one entry shorter. *)
Theorem toggle_keeps_duplicate_free (id : jsstring) (w : list jsstring) (st : State) :
  persisted st w ->
  NoDup w ->
  exists w',
    persisted (after (toggleWatchlist (Some id)) st) w' /\
    NoDup w' /\
    length w' = if contains w id then (length w - 1)%nat else (length w + 1)%nat.
Proof.
  intros Hp Hnd. exists (toggle id w).
  split; [apply toggleWatchlist_persisted, Hp |].
  unfold toggle, contains. destruct (bool_decide (id ∈ w)) eqn:Hc.
  - apply bool_decide_eq_true in Hc. split; [apply NoDup_remove_all, Hnd |].
    pose proof (length_remove_all id w Hnd Hc). lia.
  - apply bool_decide_eq_false in Hc. split.
    + apply NoDup_app. split; [exact Hnd |]. split; [| apply NoDup_singleton].
      intros x Hx Hx'. apply list_elem_of_singleton in Hx'. subst x. contradiction.
    + rewrite length_app. reflexivity.
Qed.

Lemma toggle_keeps_duplicate_free_witness :
  exists w',
    persisted (after (toggleWatchlist (Some (js "a"))) (stored [js "b"; js "a"; js "c"])) w' /\
    NoDup w' /\ length w' = 2%nat.
Proof.
  apply (toggle_keeps_duplicate_free (js "a") [js "b"; js "a"; js "c"]
           (stored [js "b"; js "a"; js "c"])).
  - apply persisted_stored.
  - repeat (apply NoDup_cons; split; [vm_compute; intros H; repeat (apply elem_of_cons in H as [H|H]; [discriminate H|]); apply elem_of_nil in H; exact H |]).
    apply NoDup_nil_2.
Defined.

(** X4.  When the stored payload decodes to a value that is not an array,
    [toggleWatchlist] throws a [TypeError] and leaves the page, the
    payload included, as it is. *)
Theorem toggle_on_non_array_payload (st : State) (v : JSValue) (anime : option jsstring) :
  getWatchlist st = (Normal v, st) ->
  (forall items, v <> JArr items) ->
  toggleWatchlist anime st = (Throw TypeError, st).
Proof.
  intros Hg Hv. unfold toggleWatchlist, mbind, Eff_bind. rewrite Hg.
  destruct v; try reflexivity. exfalso. eapply Hv. reflexivity.
Qed.

Lemma toggle_on_non_array_payload_witness :
  let st := storage_only {[ WATCHLIST_KEY := js "{}" ]} in
  toggleWatchlist (Some (js "x")) st = (Throw TypeError, st).
Proof.
  apply (toggle_on_non_array_payload _ (JObj []) (Some (js "x"))).
  - vm_compute. reflexivity.
  - discriminate.
Defined.

End StoreMore.

(** ** Toggles without an identifier *)

Section Blanks.

Lemma parse_value_entry (fuel : nat) (v : JSValue) (rest : jsstring) :
  is_entry v = true ->
  parse_value (S fuel) (stringify_value v ++ rest) = Some (reread v, rest).
Proof.
  destruct v; try discriminate; intros _.
  - reflexivity.
  - reflexivity.
  - apply parse_value_string.
Qed.

Lemma stringify_entry_head (v : JSValue) (rest : jsstring) :
  is_entry v = true ->
  exists c x, stringify_value v ++ rest = c :: x /\ is_ws c = false /\ (c =? 93) = false.
Proof.
  destruct v; try discriminate; intros _.
  - exists 110, (js "ull" ++ rest). repeat split.
  - exists 110, (js "ull" ++ rest). repeat split.
  - exists 34, (quote_chars s ++ [34] ++ rest). unfold stringify_value, QuoteJSONString.
    rewrite <- app_comm_cons, <- app_assoc. repeat split.
Qed.

Lemma parse_elements_entries (vs : list JSValue) :
  forall (fuel : nat) (rest : jsstring),
    vs <> [] -> forallb is_entry vs = true -> (length vs < fuel)%nat ->
    parse_elements fuel (join_comma (map stringify_value vs) ++ 93 :: rest)
    = Some (map reread vs, rest).
Proof.
  induction vs as [| a vs IH]; intros fuel rest Hne Hall Hfuel; [contradiction |].
  cbn [forallb] in Hall. apply andb_true_iff in Hall as [Ha Hall].
  destruct fuel as [| fuel]; [cbn in Hfuel; lia |].
  destruct fuel as [| fuel]; [cbn in Hfuel; lia |].
  rewrite parse_elements_S.
  destruct vs as [| b vs].
  - cbn [map join_comma]. rewrite (parse_value_entry _ _ _ Ha). reflexivity.
  - cbn [map]. rewrite join_comma_cons2.
    rewrite <- app_assoc, (parse_value_entry _ _ _ Ha).
    cbn [mbind option_bind app].
    change (skip_ws (44 :: ?x)) with (44 :: x). cbn match.
    change (44 =? 44) with true. cbn match.
    specialize (IH (S fuel) rest).
    cbn [map] in IH. rewrite IH; [reflexivity | discriminate | exact Hall |].
    cbn [length] in *. lia.
Qed.

Lemma length_join_comma_entries (vs : list JSValue) :
  forallb is_entry vs = true ->
  (length vs <= length (join_comma (map stringify_value vs)))%nat.
Proof.
  induction vs as [| a [| b vs] IH]; intros Hall.
  - reflexivity.
  - cbn [map join_comma length]. cbn [forallb] in Hall.
    apply andb_true_iff in Hall as [Ha _].
    destruct (stringify_entry_head a [] Ha) as (c & x & Hx & _).
    rewrite app_nil_r in Hx. rewrite Hx. cbn [length]. lia.
  - cbn [map]. rewrite join_comma_cons2.
    cbn [forallb] in Hall. apply andb_true_iff in Hall as [_ Hall].
    specialize (IH Hall). cbn [map] in IH. rewrite length_app. cbn [length] in *. lia.
Qed.

(** [JSON.parse (JSON.stringify vs)] for an array of entries: the blanks
    come back as [null]. *)
Lemma JSON_parse_stringify_entries (vs : list JSValue) :
  forallb is_entry vs = true ->
  JSON_parse (JSON_stringify vs) = Some (JArr (map reread vs)).
Proof.
  intros Hall. unfold JSON_parse, JSON_stringify. cbn [stringify_value].
  set (body := join_comma (map stringify_value vs)).
  assert (Hlen : (length vs <= length body)%nat)
    by apply length_join_comma_entries, Hall.
  replace (2 * length (91%N :: body ++ [93%N]) + 2)%nat
    with (S (S (2 * length body + 4))) by (cbn [length]; rewrite length_app; cbn; lia).
  destruct vs as [| a vs].
  - reflexivity.
  - cbn [parse_value]. change (skip_ws (91 :: ?x)) with (91 :: x). cbn match.
    change (91 =? 34) with false. change (91 =? 91) with true. cbn match.
    assert (Hq : exists c x, body ++ [93] = c :: x /\ is_ws c = false /\ (c =? 93) = false).
    { subst body. cbn [forallb] in Hall. apply andb_true_iff in Hall as [Ha _].
      destruct vs as [| b vs].
      - cbn [map join_comma]. apply stringify_entry_head, Ha.
      - cbn [map]. rewrite join_comma_cons2, <- app_assoc.
        apply stringify_entry_head, Ha. }
    destruct Hq as (c & x & Hx & Hws & H93).
    assert (Hskip : skip_ws (body ++ [93]) = c :: x)
      by (rewrite Hx; cbn [skip_ws]; rewrite Hws; reflexivity).
    rewrite Hskip, H93.
    subst body. rewrite parse_elements_entries; [reflexivity | discriminate | exact Hall |].
    cbn [length] in *. lia.
Qed.

Lemma Array_includes_blank (w : list jsstring) (k : nat) :
  Array_includes (map JStr w ++ repeat JNull k) None = false.
Proof.
  unfold Array_includes. rewrite existsb_app.
  apply orb_false_iff. split.
  - induction w as [| x w IH]; [reflexivity | exact IH].
  - induction k as [| k IH]; [reflexivity | exact IH].
Qed.

Lemma getWatchlist_stringified (st : State) (vs : list JSValue) :
  forallb is_entry vs = true ->
  localStorage st !! WATCHLIST_KEY = Some (JSON_stringify vs) ->
  getWatchlist st = (Normal (JArr (map reread vs)), st).
Proof.
  intros Hall Hst. unfold getWatchlist. rewrite Hst.
  pose proof (JSON_parse_stringify_entries vs Hall) as Hrt.
  unfold JSON_stringify in *. cbn [stringify_value] in *. rewrite Hrt. reflexivity.
Qed.

Lemma entries_strings (w : list jsstring) : forallb is_entry (map JStr w) = true.
Proof. induction w as [| x w IH]; [reflexivity | exact IH]. Qed.

Lemma entries_nulls (k : nat) : forallb is_entry (repeat JNull k) = true.
Proof. induction k as [| k IH]; [reflexivity | exact IH]. Qed.

Lemma reread_nulls (k : nat) : map reread (repeat JNull k) = repeat JNull k.
Proof. induction k as [| k IH]; [reflexivity | cbn [repeat map reread]; rewrite IH; reflexivity]. Qed.

Lemma reread_entries (w : list jsstring) (k : nat) :
  map reread (map JStr w ++ repeat JNull k ++ [JUndefined])
  = map JStr w ++ repeat JNull (S k).
Proof.
  rewrite !map_app, map_map, reread_nulls. cbn [map reread repeat].
  rewrite repeat_cons. reflexivity.
Qed.

Lemma toggle_blank_step (st : State) (w : list jsstring) (k : nat) :
  getWatchlist st = (Normal (JArr (map JStr w ++ repeat JNull k)), st) ->
  let st' := after (toggleWatchlist None) st in
  getWatchlist st' = (Normal (JArr (map JStr w ++ repeat JNull (S k))), st').
Proof.
  intros Hg st'.
  assert (Hst : localStorage st' !! WATCHLIST_KEY
                = Some (JSON_stringify (map JStr w ++ repeat JNull k ++ [JUndefined]))).
  { subst st'. unfold after, toggleWatchlist, mbind, Eff_bind. rewrite Hg.
    unfold toggled. rewrite Array_includes_blank.
    unfold saveWatchlist at 1, modify at 1.
    match goal with
    | |- context [updateWatchlistButtons ?s] =>
        pose proof (updateWatchlistButtons_localStorage s) as Hu
    end.
    unfold after in Hu.
    destruct (updateWatchlistButtons _) as [[[] | e] st2]; cbn [snd] in *;
      rewrite Hu; cbn [localStorage with_localStorage]; rewrite <- app_assoc;
      apply lookup_insert_eq. }
  assert (Hall : forallb is_entry (map JStr w ++ repeat JNull k ++ [JUndefined]) = true).
  { rewrite !forallb_app, entries_strings, entries_nulls. reflexivity. }
  rewrite (getWatchlist_stringified st' _ Hall Hst), reread_entries. reflexivity.
Qed.

(** X5.  A toggle without [data-anime] never counts as in the Watchlist,
    and every click on it makes the stored array one [null] longer: after
    [k] toggles of the undefined identifier the storage holds the Watchlist
    followed by [k] nulls. *)
Theorem toggle_without_identifier (st : State) (w : list jsstring) (k : nat) :
  persisted st w ->
  let st' := Nat.iter k (after (toggleWatchlist None)) st in
  getWatchlist st' = (Normal (JArr (map JStr w ++ repeat JNull k)), st') /\
  isInWatchlist None st' = (Normal false, st').
Proof.
  intros Hp st'.
  assert (Hg : getWatchlist st' = (Normal (JArr (map JStr w ++ repeat JNull k)), st')).
  { subst st'. induction k as [| k IH].
    - cbn [Nat.iter repeat]. rewrite app_nil_r. exact Hp.
    - cbn [Nat.iter]. apply toggle_blank_step, IH. }
  split; [exact Hg |].
  unfold isInWatchlist, mbind, Eff_bind. rewrite Hg.
  rewrite Array_includes_blank. reflexivity.
Qed.

Lemma toggle_without_identifier_witness :
  let st' := Nat.iter 2 (after (toggleWatchlist None)) (stored [js "x"]) in
  getWatchlist st' = (Normal (JArr [JStr (js "x"); JNull; JNull]), st') /\
  isInWatchlist None st' = (Normal false, st').
Proof.
  apply (toggle_without_identifier (stored [js "x"]) [js "x"] 2).
  apply persisted_stored.
Defined.

End Blanks.

(** ** Class lists *)

Section TokenLists.

Lemma jsstring_eqb_eq (a b : jsstring) : jsstring_eqb a b = true <-> a = b.
Proof. unfold jsstring_eqb. apply bool_decide_eq_true. Qed.

Lemma jsstring_eqb_refl (a : jsstring) : jsstring_eqb a a = true.
Proof. apply jsstring_eqb_eq. reflexivity. Qed.

Lemma classList_contains_remove (t : jsstring) (l : list jsstring) :
  classList_contains t (classList_remove t l) = false.
Proof.
  unfold classList_contains, classList_remove.
  induction l as [| c l IH]; [reflexivity |]. cbn [List.filter].
  destruct (jsstring_eqb c t) eqn:Hc; cbn [negb]; [exact IH |].
  cbn [existsb]. rewrite IH, orb_false_r.
  destruct (jsstring_eqb t c) eqn:Htc; [| reflexivity].
  apply jsstring_eqb_eq in Htc. subst c. rewrite jsstring_eqb_refl in Hc. discriminate.
Qed.

Lemma classList_contains_add (t : jsstring) (l : list jsstring) :
  classList_contains t (classList_add t l) = true.
Proof.
  unfold classList_add. destruct (classList_contains t l) eqn:Hc; [exact Hc |].
  unfold classList_contains. rewrite existsb_app. cbn [existsb].
  rewrite jsstring_eqb_refl, orb_true_r. reflexivity.
Qed.

Lemma classList_remove_add (t : jsstring) (l : list jsstring) :
  classList_remove t (classList_add t l) = classList_remove t l.
Proof.
  unfold classList_add. destruct (classList_contains t l); [reflexivity |].
  unfold classList_remove. rewrite List.filter_app. cbn [List.filter].
  rewrite jsstring_eqb_refl. cbn [negb]. apply app_nil_r.
Qed.

Lemma classList_remove_remove (t : jsstring) (l : list jsstring) :
  classList_remove t (classList_remove t l) = classList_remove t l.
Proof.
  unfold classList_remove. induction l as [| c l IH]; [reflexivity |].
  cbn [List.filter]. destruct (negb (jsstring_eqb c t)) eqn:Hc; [| exact IH].
  cbn [List.filter]. rewrite Hc, IH. reflexivity.
Qed.

End TokenLists.

(** ** The navbar *)

Section NavbarProperties.

Import Navbar.
Local Open Scope Q_scope.

Lemma on_mousemove_some (y : Q) (classes : list jsstring) :
  exists classes',
    on_mousemove y (Some classes) = Some classes' /\
    classList_contains (js "show") classes' = Qle_bool y 50 /\
    classList_remove (js "show") classes' = classList_remove (js "show") classes.
Proof.
  unfold on_mousemove. destruct (Qle_bool y 50); eexists; (split; [reflexivity |]); split.
  - apply classList_contains_add.
  - apply classList_remove_add.
  - apply classList_contains_remove.
  - apply classList_remove_remove.
Qed.

Lemma mousemoves_some (ys : list Q) :
  forall classes, exists classes',
    mousemoves ys (Some classes) = Some classes' /\
    classList_remove (js "show") classes' = classList_remove (js "show") classes.
Proof.
  induction ys as [| y ys IH]; intros classes.
  - exists classes. split; reflexivity.
  - destruct (on_mousemove_some y classes) as (c1 & H1 & _ & Hr1).
    destruct (IH c1) as (c2 & H2 & Hr2).
    exists c2. split; [| congruence].
    unfold mousemoves in *. cbn [fold_left]. rewrite H1. exact H2.
Qed.

(** X21.  After any sequence of pointer moves on a page with a navbar, the
    navbar carries the class "show" exactly when the last move was at most
    50 pixels from the top, and its other classes are the ones it had, in
    their order. *)
Theorem navbar_follows_pointer (ys : list Q) (y : Q) (classes : list jsstring) :
  exists classes',
    mousemoves (ys ++ [y]) (Some classes) = Some classes' /\
    classList_contains (js "show") classes' = Qle_bool y 50 /\
    classList_remove (js "show") classes' = classList_remove (js "show") classes.
Proof.
  destruct (mousemoves_some ys classes) as (c1 & H1 & Hr1).
  destruct (on_mousemove_some y c1) as (c2 & H2 & Hs & Hr2).
  exists c2. split; [| split; [exact Hs | congruence]].
  unfold mousemoves in *. rewrite fold_left_app, H1. exact H2.
Qed.

End NavbarProperties.

(** ** The mode switch *)

Section ModeSwitchProperties.

Import ModeSwitch.

Lemma getAll_without_same (name : jsstring) (l : list (jsstring * jsstring)) :
  URLSearchParams_getAll name (without name l) = [].
Proof.
  unfold URLSearchParams_getAll. induction l as [| [n v] l IH]; [reflexivity |].
  cbn [without]. destruct (jsstring_eqb n name) eqn:Hn; [exact IH |].
  cbn [List.filter fst]. rewrite Hn. exact IH.
Qed.

Lemma getAll_without_other (name name' : jsstring) (l : list (jsstring * jsstring)) :
  name' <> name ->
  URLSearchParams_getAll name' (without name l) = URLSearchParams_getAll name' l.
Proof.
  intros Hne. unfold URLSearchParams_getAll.
  induction l as [| [n v] l IH]; [reflexivity |].
  cbn [without List.filter fst]. destruct (jsstring_eqb n name) eqn:Hn.
  - apply jsstring_eqb_eq in Hn. subst n.
    replace (jsstring_eqb name name') with false; [exact IH |].
    symmetry. apply bool_decide_eq_false. congruence.
  - cbn [List.filter fst]. destruct (jsstring_eqb n name'); cbn [map]; rewrite IH; reflexivity.
Qed.

Lemma getAll_set_same (name value : jsstring) (l : list (jsstring * jsstring)) :
  URLSearchParams_getAll name (set_first name value l) = [value].
Proof.
  induction l as [| [n v] l IH].
  - unfold URLSearchParams_getAll. cbn. rewrite jsstring_eqb_refl. reflexivity.
  - cbn [set_first]. destruct (jsstring_eqb n name) eqn:Hn.
    + pose proof (getAll_without_same name l) as Hw.
      unfold URLSearchParams_getAll in *. cbn [List.filter fst]. rewrite Hn.
      cbn [map snd]. rewrite Hw. reflexivity.
    + unfold URLSearchParams_getAll in *. cbn [List.filter fst]. rewrite Hn. exact IH.
Qed.

Lemma getAll_set_other (name name' value : jsstring) (l : list (jsstring * jsstring)) :
  name' <> name ->
  URLSearchParams_getAll name' (set_first name value l)
  = URLSearchParams_getAll name' l.
Proof.
  intros Hne. induction l as [| [n v] l IH].
  - unfold URLSearchParams_getAll. cbn.
    replace (jsstring_eqb name name') with false; [reflexivity |].
    symmetry. apply bool_decide_eq_false. congruence.
  - cbn [set_first]. destruct (jsstring_eqb n name) eqn:Hn.
    + pose proof (getAll_without_other name name' l Hne) as Hw.
      apply jsstring_eqb_eq in Hn. subst n.
      unfold URLSearchParams_getAll in *. cbn [List.filter fst].
      replace (jsstring_eqb name name') with false
        by (symmetry; apply bool_decide_eq_false; congruence).
      exact Hw.
    + unfold URLSearchParams_getAll in *. cbn [List.filter fst].
      destruct (jsstring_eqb n name'); cbn [map]; rewrite IH; reflexivity.
Qed.

Lemma without_without (name : jsstring) (l : list (jsstring * jsstring)) :
  without name (without name l) = without name l.
Proof.
  induction l as [| [n v] l IH]; [reflexivity |]. cbn [without].
  destruct (jsstring_eqb n name) eqn:Hn; [exact IH |].
  cbn [without]. rewrite Hn, IH. reflexivity.
Qed.

Lemma without_set_same (name value : jsstring) (l : list (jsstring * jsstring)) :
  without name (set_first name value l) = without name l.
Proof.
  induction l as [| [n v] l IH].
  - cbn. rewrite jsstring_eqb_refl. reflexivity.
  - cbn [set_first without]. destruct (jsstring_eqb n name) eqn:Hn.
    + cbn [without]. rewrite Hn. apply without_without.
    + cbn [without]. rewrite Hn, IH. reflexivity.
Qed.

Lemma without_comm (a b : jsstring) (l : list (jsstring * jsstring)) :
  without a (without b l) = without b (without a l).
Proof.
  induction l as [| [n v] l IH]; [reflexivity |]. cbn [without].
  destruct (jsstring_eqb n b) eqn:Hb, (jsstring_eqb n a) eqn:Ha; cbn [without];
    rewrite ?Hb, ?Ha, IH; reflexivity.
Qed.

Lemma without_set_other (name name' value : jsstring) (l : list (jsstring * jsstring)) :
  name' <> name ->
  without name' (set_first name value l)
  = set_first name value (without name' l).
Proof.
  intros Hne. induction l as [| [n v] l IH].
  - cbn. replace (jsstring_eqb name name') with false; [reflexivity |].
    symmetry. apply bool_decide_eq_false. congruence.
  - cbn [set_first without]. destruct (jsstring_eqb n name) eqn:Hn.
    + apply jsstring_eqb_eq in Hn. subst n.
      replace (jsstring_eqb name name') with false
        by (symmetry; apply bool_decide_eq_false; congruence).
      cbn [without set_first].
      replace (jsstring_eqb name name') with false
        by (symmetry; apply bool_decide_eq_false; congruence).
      rewrite jsstring_eqb_refl. rewrite without_comm. reflexivity.
    + cbn [without]. destruct (jsstring_eqb n name') eqn:Hn'; [exact IH |].
      cbn [set_first]. rewrite Hn, IH. reflexivity.
Qed.

Lemma without_none (name : jsstring) (l : list (jsstring * jsstring)) :
  URLSearchParams_getAll name l = [] -> without name l = l.
Proof.
  unfold URLSearchParams_getAll. induction l as [| [n v] l IH]; [reflexivity |].
  cbn [List.filter fst without]. destruct (jsstring_eqb n name); [discriminate |].
  intros H. rewrite IH by exact H. reflexivity.
Qed.

(** Setting a name to the only value it has changes nothing. *)
Lemma set_same_value (name value : jsstring) (l : list (jsstring * jsstring)) :
  URLSearchParams_getAll name l = [value] -> set_first name value l = l.
Proof.
  induction l as [| [n v] l IH]; [discriminate |].
  cbn [set_first]. unfold URLSearchParams_getAll in *.
  cbn [List.filter fst]. destruct (jsstring_eqb n name) eqn:Hn.
  - cbn [map snd]. intros H. injection H as -> Hrest.
    rewrite (without_none name l Hrest). reflexivity.
  - intros H. rewrite IH by exact H. reflexivity.
Qed.

Lemma title_is_not_mode : js "title" <> js "mode".
Proof. discriminate. Qed.

(** X22.  A click on a mode button starts one navigation, to the current
    URL with its query changed as follows: "mode" has exactly one value,
    the button's (the text "undefined" for a button without one); "title"
    has exactly one value, the button's, when the button carries a
    non-empty title, and the values it had otherwise; all other parameters
    are as before, in their order.  The values are the button's up to lone
    surrogates, which become U+FFFD. *)
Theorem mode_click_destination (btn : Button) (p : Page) :
  let u := location p in
  let u' := destination btn u in
  navigations (on_click btn p) = navigations p ++ [u'] /\
  URLSearchParams_getAll (js "mode") (searchParams u')
  = [USVString (ToString (dataset_mode btn))] /\
  URLSearchParams_getAll (js "title") (searchParams u')
  = match dataset_title btn with
    | Some (c :: title) => [USVString (c :: title)]
    | _ => URLSearchParams_getAll (js "title") (searchParams u)
    end /\
  without (js "mode") (without (js "title") (searchParams u'))
  = without (js "mode") (without (js "title") (searchParams u)) /\
  before_query u' = before_query u /\
  fragment u' = fragment u.
Proof.
  cbn zeta. split; [reflexivity |].
  unfold destination, URLSearchParams_set.
  change (USVString (js "mode")) with (js "mode").
  change (USVString (js "title")) with (js "title").
  cbn [searchParams with_searchParams before_query fragment].
  split; [apply getAll_set_same |].
  split; [| split; [| split; reflexivity]].
  - rewrite getAll_set_other by apply title_is_not_mode.
    destruct (dataset_title btn) as [[| c title] |]; try reflexivity.
    apply getAll_set_same.
  - rewrite without_comm, without_set_same, without_comm.
    destruct (dataset_title btn) as [[| c title] |]; try reflexivity.
    rewrite without_set_same. reflexivity.
Qed.

(** X23.  The destination of a mode button is a fixed point of that
    button: a click on the same button on the page it leads to leads to
    the same URL. *)
Theorem mode_click_twice (btn : Button) (u : URL) :
  destination btn (destination btn u) = destination btn u.
Proof.
  unfold destination at 1 3. cbn [searchParams with_searchParams before_query fragment].
  unfold with_searchParams. f_equal.
  unfold destination, URLSearchParams_set.
  change (USVString (js "mode")) with (js "mode").
  change (USVString (js "title")) with (js "title").
  set (m := USVString (ToString (dataset_mode btn))).
  assert (Hmode : forall l, set_first (js "mode") m
                              (set_first (js "mode") m l)
                            = set_first (js "mode") m l).
  { intros l. apply set_same_value, getAll_set_same. }
  cbn [searchParams with_searchParams].
  destruct (dataset_title btn) as [[| c title] |]; try apply Hmode.
  rewrite (set_same_value (js "title") (USVString (c :: title))); [apply Hmode |].
  rewrite getAll_set_other by apply title_is_not_mode.
  apply getAll_set_same.
Qed.

End ModeSwitchProperties.

(** ** Play, pause and the icons *)

Section PlaybackProperties.

Import Player Controls ControlsSpec.

Lemma togglePlay_result (s : Playback) (i j : nat) :
  playIcon s = Some i ->
  pauseIcon s = Some j ->
  togglePlay s
  = (Normal tt,
     if paused s then
       with_icons (alter (classList_remove (js "hidden")) j
                         (alter (classList_add (js "hidden")) i (icons s)))
                  (if may_play s then with_paused false s else s)
     else
       with_icons (alter (classList_add (js "hidden")) j
                         (alter (classList_remove (js "hidden")) i (icons s)))
                  (with_paused true s)).
Proof.
  intros Hi Hj. destruct s as [p m r l pi pa]. cbn [playIcon pauseIcon] in Hi, Hj.
  subst pi pa. destruct p, m; reflexivity.
Qed.

Lemma on_ended_result (s : Playback) (i j : nat) :
  playIcon s = Some i ->
  pauseIcon s = Some j ->
  on_ended s
  = (Normal tt,
     with_icons (alter (classList_add (js "hidden")) j
                       (alter (classList_remove (js "hidden")) i (icons s))) s).
Proof.
  intros Hi Hj. destruct s as [p m r l pi pa]. cbn [playIcon pauseIcon] in Hi, Hj.
  subst pi pa. reflexivity.
Qed.

Lemma icons_after_two (f g : list jsstring -> list jsstring)
    (l : list (list jsstring)) (i j : nat) (play pause : list jsstring) :
  i <> j ->
  l !! i = Some play ->
  l !! j = Some pause ->
  alter g j (alter f i l) !! i = Some (f play) /\
  alter g j (alter f i l) !! j = Some (g pause) /\
  forall n, n <> i -> n <> j -> alter g j (alter f i l) !! n = l !! n.
Proof.
  intros Hne Hi Hj. split; [| split].
  - rewrite list_lookup_alter_ne by congruence.
    rewrite list_lookup_alter_eq, Hi. reflexivity.
  - rewrite list_lookup_alter_eq.
    rewrite list_lookup_alter_ne by congruence. rewrite Hj. reflexivity.
  - intros n Hni Hnj.
    rewrite list_lookup_alter_ne by congruence.
    rewrite list_lookup_alter_ne by congruence. reflexivity.
Qed.

(** The icons can agree with the video only when they are two elements. *)
Lemma icons_agree_distinct (s : Playback) :
  icons_agree s -> playIcon s <> pauseIcon s.
Proof.
  intros (i & j & play & pause & Hi & Hj & Hpl & Hpa & H1 & H2) Heq.
  rewrite Hi, Hj in Heq. injection Heq as ->.
  rewrite Hpl in Hpa. injection Hpa as ->.
  rewrite H1 in H2. destruct (paused s); discriminate.
Qed.

(** X16.  With the play icon and the pause icon present and two different
    elements, [togglePlay] completes, pauses a playing video and starts a
    paused one if the user agent lets it, and touches no class but "hidden"
    and no element but the two icons.  Afterwards the icons agree with the
    state of the video exactly when the video was playing or was allowed
    to start: when [play()] is refused the pause icon shows over a paused
    video.  The [ended] listener makes the icons agree with a paused
    video. *)
Theorem togglePlay_icons (s : Playback) (i j : nat) (play pause : list jsstring) :
  playIcon s = Some i ->
  pauseIcon s = Some j ->
  i <> j ->
  icons s !! i = Some play ->
  icons s !! j = Some pause ->
  let s' := after togglePlay s in
  fst (togglePlay s) = Normal tt /\
  paused s' = (if paused s then negb (may_play s) else true) /\
  (icons_agree s' <-> paused s = false \/ may_play s = true) /\
  (paused s = true -> icons_agree (after on_ended s)) /\
  (exists play' pause',
    icons s' !! i = Some play' /\ icons s' !! j = Some pause' /\
    classList_remove (js "hidden") play' = classList_remove (js "hidden") play /\
    classList_remove (js "hidden") pause' = classList_remove (js "hidden") pause) /\
  (forall n, n <> i -> n <> j -> icons s' !! n = icons s !! n).
Proof.
  intros Hi Hj Hne Hplay Hpause. cbn zeta. unfold after.
  rewrite (togglePlay_result s i j Hi Hj), (on_ended_result s i j Hi Hj).
  cbn [fst snd].
  destruct (icons_after_two (classList_add (js "hidden")) (classList_remove (js "hidden"))
              (icons s) i j play pause Hne Hplay Hpause) as (Ha1 & Ha2 & Ha3).
  destruct (icons_after_two (classList_remove (js "hidden")) (classList_add (js "hidden"))
              (icons s) i j play pause Hne Hplay Hpause) as (Hb1 & Hb2 & Hb3).
  destruct s as [p m r l pi pa].
  cbn [playIcon pauseIcon icons paused may_play] in *. subst pi pa.
  split; [reflexivity |].
  split; [destruct p, m; reflexivity |].
  split; [| split; [| split]].
  - unfold icons_agree. split.
    + intros (i' & j' & play' & pause' & H1 & H2 & H3 & H4 & H5 & H6).
      destruct p; [| left; reflexivity]. right.
      destruct m; [reflexivity |].
      cbn [with_icons with_paused playIcon pauseIcon icons paused may_play
           supports_rate] in H1, H3, H5.
      injection H1 as <-. rewrite Ha1 in H3. injection H3 as <-.
      rewrite classList_contains_add in H5. discriminate.
    + intros H. destruct p.
      * destruct H as [H | H]; [discriminate |]. subst m.
        exists i, j. eexists. eexists.
        cbn [with_icons with_paused playIcon pauseIcon icons paused may_play
             supports_rate negb].
        split; [reflexivity |]. split; [reflexivity |].
        split; [exact Ha1 |]. split; [exact Ha2 |].
        split; [apply classList_contains_add | apply classList_contains_remove].
      * exists i, j. eexists. eexists.
        cbn [with_icons with_paused playIcon pauseIcon icons paused may_play
             supports_rate negb].
        split; [reflexivity |]. split; [reflexivity |].
        split; [exact Hb1 |]. split; [exact Hb2 |].
        split; [apply classList_contains_remove | apply classList_contains_add].
  - intros ->. unfold icons_agree. exists i, j. eexists. eexists.
    cbn [with_icons playIcon pauseIcon icons paused negb].
    split; [reflexivity |]. split; [reflexivity |].
    split; [exact Hb1 |]. split; [exact Hb2 |].
    split; [apply classList_contains_remove | apply classList_contains_add].
  - destruct p.
    + eexists. eexists.
      assert (Hic : forall t, icons (with_icons
                      (alter (classList_remove (js "hidden")) j
                         (alter (classList_add (js "hidden")) i l)) t)
                    = alter (classList_remove (js "hidden")) j
                         (alter (classList_add (js "hidden")) i l)) by reflexivity.
      rewrite Hic. split; [exact Ha1 |]. split; [exact Ha2 |].
      split; [apply classList_remove_add | apply classList_remove_remove].
    + eexists. eexists. cbn [with_icons icons].
      split; [exact Hb1 |]. split; [exact Hb2 |].
      split; [apply classList_remove_remove | apply classList_remove_add].
  - intros n Hni Hnj. destruct p.
    + destruct m; cbn [with_icons with_paused icons]; apply Ha3; assumption.
    + cbn [with_icons with_paused icons]. apply Hb3; assumption.
Qed.

Lemma togglePlay_icons_witness :
  let s := playback sample in
  fst (togglePlay s) = Normal tt /\
  paused (after togglePlay s) = false /\
  icons_agree (after togglePlay s).
Proof.
  assert (Hne : 0%nat <> 1%nat) by discriminate.
  destruct (togglePlay_icons (playback sample) 0 1 [js "play"] [js "pause"; js "hidden"]
              eq_refl eq_refl Hne eq_refl eq_refl)
    as (Hn & Hp & Ha & _).
  split; [exact Hn |]. split; [exact Hp |]. apply Ha. right. reflexivity.
Defined.

End PlaybackProperties.

(** ** The speed menu *)

Section SpeedMenuProperties.

Import Player Controls ControlsSpec.

Lemma mark_active_lookup (i j : nat) (buttons : list SpeedButton) :
  mark_active i buttons !! j
  = (fun b => if decide (j = i)
              then with_classes (classList_add (js "active"))
                     (with_classes (classList_remove (js "active")) b)
              else with_classes (classList_remove (js "active")) b)
    <$> buttons !! j.
Proof.
  unfold mark_active. destruct (decide (j = i)) as [-> | Hne].
  - rewrite list_lookup_alter_eq, list_lookup_fmap.
    destruct (buttons !! i); reflexivity.
  - rewrite list_lookup_alter_ne by congruence. rewrite list_lookup_fmap. reflexivity.
Qed.

(** X17.  A click on a speed button whose rate is a finite number that
    the user agent supports sets the playback rate, closes the menu and
    leaves exactly that button marked "active"; the other classes and the
    rates of the buttons stay.  With any other rate the listener throws, a
    [TypeError] for a rate that is not finite and a [NotSupportedError] for
    an unsupported one, and changes nothing: the menu stays as it was. *)
Theorem speed_option_click_marks_one (st : State) (i : nat) (b : SpeedButton) :
  speedButtons (menu st) !! i = Some b ->
  match speed_value b with
  | NaN => on_speed_option_click i st = (Throw TypeError, st)
  | Num speed =>
      if supports_rate (playback st) speed then
      let st' := after (on_speed_option_click i) st in
      fst (on_speed_option_click i st) = Normal tt /\
      playbackRate (page st') = speed /\
      currentSpeed (menu st') = speed /\
      display (menu st') = js "none" /\
      length (speedButtons (menu st')) = length (speedButtons (menu st)) /\
      forall j b0,
        speedButtons (menu st) !! j = Some b0 ->
        exists b',
          speedButtons (menu st') !! j = Some b' /\
          classList_contains (js "active") (button_classes b') = bool_decide (j = i) /\
          classList_remove (js "active") (button_classes b')
          = classList_remove (js "active") (button_classes b0) /\
          speed_value b' = speed_value b0
      else on_speed_option_click i st = (Throw NotSupportedError, st)
  end.
Proof.
  intros Hb. unfold on_speed_option_click, after, mbind, Eff_bind. cbn [get_state].
  rewrite Hb. destruct (speed_value b) as [| speed]; [reflexivity |].
  destruct (supports_rate (playback st) speed); [| reflexivity].
  cbn zeta. unfold modify. cbn [fst snd page menu with_page with_menu playbackRate
    with_playbackRate currentSpeed display speedButtons].
  split; [reflexivity |]. split; [reflexivity |]. split; [reflexivity |].
  split; [reflexivity |]. split.
  - unfold mark_active. rewrite length_alter, length_map. reflexivity.
  - intros j b0 Hj. rewrite mark_active_lookup, Hj. cbn [fmap option_fmap option_map].
    destruct (decide (j = i)) as [-> | Hne]; eexists; (split; [reflexivity |]).
    + rewrite bool_decide_eq_true_2 by reflexivity.
      cbn [button_classes with_classes speed_value].
      split; [apply classList_contains_add |]. split; [| reflexivity].
      rewrite classList_remove_add. apply classList_remove_remove.
    + rewrite bool_decide_eq_false_2 by exact Hne.
      cbn [button_classes with_classes speed_value].
      split; [apply classList_contains_remove |]. split; [| reflexivity].
      apply classList_remove_remove.
Qed.

Lemma speed_option_click_marks_one_witness :
  let st' := after (on_speed_option_click 2) sample in
  playbackRate (page st') = 2%Q /\ display (menu st') = js "none" /\
  map (fun b => classList_contains (js "active") (button_classes b))
      (speedButtons (menu st')) = [false; false; true].
Proof.
  pose proof (speed_option_click_marks_one sample 2 (mkSpeedButton (Num 2) []) eq_refl)
    as H.
  cbn [speed_value] in H.
  change (supports_rate (playback sample) 2) with true in H. cbn iota in H.
  destruct H as (_ & Hr & _ & Hd & _ & _).
  split; [exact Hr |]. split; [exact Hd |]. vm_compute. reflexivity.
Defined.

(** *** Clicks on and off the speed button *)

Lemma bubble_stopped (e : Event) (ts : list Target) (st : State) :
  propagationStopped st = true ->
  fold_left (fun s t => invoke_listeners e t s) ts st = st.
Proof.
  intros H. induction ts as [| t ts IH]; [reflexivity |].
  cbn [fold_left]. unfold invoke_listeners at 2. rewrite H. exact IH.
Qed.

(** X18.  A click on the speed button opens the menu when it is not shown
    as a block and closes it when it is; the click goes no further, so
    that no listener of an ancestor or of the document runs, and nothing
    but the menu changes. *)
Theorem speed_button_click_flips_menu (st : State) (ancestors : list Target) :
  listeners (bindings (page st)) (ById (js "speedBtn")) (js "click") = [SpeedToggle] ->
  let st' := dispatch (click (ById (js "speedBtn")) ancestors) st in
  display (menu st')
  = (if jsstring_eqb (display (menu st)) (js "block") then js "none" else js "block") /\
  propagationStopped st' = true /\
  st' = with_menu (menu st') (with_stopped true st).
Proof.
  intros Hl st'. subst st'. unfold dispatch, click. cbn [path fold_left].
  set (e := mkEvent (js "click") (ById (js "speedBtn") :: ancestors) []).
  assert (Hfirst : invoke_listeners e (ById (js "speedBtn")) (with_stopped false st)
                   = with_menu
                       (with_display
                          (if jsstring_eqb (display (menu st)) (js "block")
                           then js "none" else js "block") (menu st))
                       (with_stopped true st)).
  { unfold invoke_listeners. cbn [propagationStopped with_stopped page type e].
    rewrite Hl. reflexivity. }
  rewrite Hfirst, bubble_stopped by reflexivity.
  split; [reflexivity |]. split; reflexivity.
Qed.

Lemma speed_button_click_flips_menu_witness :
  display (menu (dispatch (click (ById (js "speedBtn"))
                             [ById (js "playerContainer"); TheDocument]) sample))
  = js "block".
Proof.
  refine (proj1 (speed_button_click_flips_menu sample
                   [ById (js "playerContainer"); TheDocument] _)).
  vm_compute. reflexivity.
Defined.

Ltac frame_steps Rrefl Rtrans :=
  repeat match goal with
    | |- preserves _ (mret _) => apply preserves_ret, Rrefl
    | |- preserves _ (throw _) => apply preserves_throw, Rrefl
    | |- preserves _ get_state => apply preserves_get_state, Rrefl
    | |- preserves _ (_ ≫= _) => apply preserves_bind; [exact Rtrans | | intros ?]
    | |- preserves _ (modify _) => apply preserves_modify; intros ?
    | |- preserves _ (if ?b then _ else _) => destruct b
    | |- preserves _ (match ?x with _ => _ end) => destruct x
    end.

Lemma same_bindings_refl (p : Page) : same_bindings p p.
Proof. reflexivity. Qed.

Lemma same_bindings_trans (p1 p2 p3 : Page) :
  same_bindings p1 p2 -> same_bindings p2 p3 -> same_bindings p1 p3.
Proof. unfold same_bindings. congruence. Qed.

Lemma page_handlers_keep_bindings (c : jsstring) :
  preserves same_bindings on_timeupdate /\
  preserves same_bindings on_seek_input /\
  preserves same_bindings (on_keydown c) /\
  preserves same_bindings on_rewind_click /\
  preserves same_bindings on_forward_click.
Proof.
  repeat split;
    unfold on_timeupdate, on_seek_input, on_keydown, on_rewind_click, on_forward_click,
      deref, set_currentTime;
    frame_steps same_bindings_refl same_bindings_trans; reflexivity.
Qed.

Lemma undisturbed_refl (st : State) : undisturbed st st.
Proof. unfold undisturbed. auto. Qed.

Lemma undisturbed_trans (s1 s2 s3 : State) :
  undisturbed s1 s2 -> undisturbed s2 s3 -> undisturbed s1 s3.
Proof.
  unfold undisturbed. intros (Hs & Hb & Hd) (Hs' & Hb' & Hd').
  split; [congruence |]. split; [congruence |].
  destruct Hd' as [Hd' | Hd']; [rewrite Hd'; exact Hd | right; exact Hd'].
Qed.

Lemma on_page_undisturbed {A : Type} (m : Eff Page A) :
  preserves same_bindings m -> preserves undisturbed (on_page m).
Proof.
  intros Hm st. specialize (Hm (page st)). unfold after, on_page in *.
  destruct (m (page st)) as [r p]. cbn [snd] in *.
  unfold undisturbed. cbn [propagationStopped page menu with_page]. auto.
Qed.

Lemma on_playback_undisturbed {A : Type} (m : Eff Playback A) :
  preserves undisturbed (on_playback m).
Proof.
  intros st. unfold after, on_playback. destruct (m (playback st)) as [r b].
  cbn [snd]. unfold undisturbed. cbn [propagationStopped page menu with_playback]. auto.
Qed.

Lemma run_handler_undisturbed (e : Event) (h : Handler) :
  h <> SpeedToggle -> preserves undisturbed (run_handler e h).
Proof.
  intros Hh. destruct (page_handlers_keep_bindings (code e)) as (H1 & H2 & H3 & H4 & H5).
  destruct h; cbn [run_handler]; try contradiction;
    try apply on_playback_undisturbed; try (apply on_page_undisturbed; assumption).
  - unfold on_video_click. frame_steps undisturbed_refl undisturbed_trans.
    apply on_playback_undisturbed.
  - unfold on_fullscreen_click. frame_steps undisturbed_refl undisturbed_trans;
      unfold undisturbed; cbn [propagationStopped page menu with_fullscreen_call]; auto.
  - unfold resetControlsTimer, set_opacity.
    frame_steps undisturbed_refl undisturbed_trans;
      unfold undisturbed;
      cbn [propagationStopped page menu with_page with_overlay bindings with_controls];
      auto.
  - unfold on_speed_option_click. frame_steps undisturbed_refl undisturbed_trans;
      unfold undisturbed;
      cbn [propagationStopped page menu with_page with_menu bindings with_playbackRate
           display];
      auto.
  - unfold on_document_click. frame_steps undisturbed_refl undisturbed_trans.
    unfold undisturbed.
    cbn [propagationStopped page menu with_menu display with_display]. auto.
Qed.

Lemma invoke_undisturbed (e : Event) (h : Handler) (st : State) :
  h <> SpeedToggle -> undisturbed st (invoke e h st).
Proof.
  intros Hh. pose proof (run_handler_undisturbed e h Hh st) as H.
  unfold after, invoke in *. destruct (run_handler e h st) as [[[] | x] s1]; exact H.
Qed.

Lemma invoke_all_undisturbed (e : Event) (hs : list Handler) :
  forall st, ~ In SpeedToggle hs ->
             undisturbed st (fold_left (fun s h => invoke e h s) hs st).
Proof.
  induction hs as [| h hs IH]; intros st Hno; [apply undisturbed_refl |].
  cbn [fold_left]. eapply undisturbed_trans.
  - apply (invoke_undisturbed e h st). intros ->. apply Hno. left. reflexivity.
  - apply IH. intros H. apply Hno. right. exact H.
Qed.

Lemma invoke_listeners_undisturbed (e : Event) (t : Target) (st : State) :
  ~ In SpeedToggle (listeners (bindings (page st)) t (type e)) ->
  undisturbed st (invoke_listeners e t st).
Proof.
  intros Hno. unfold invoke_listeners.
  destruct (propagationStopped st); [apply undisturbed_refl |].
  apply invoke_all_undisturbed, Hno.
Qed.

Lemma bubble_undisturbed (e : Event) (ts : list Target) :
  forall st,
    (forall t, In t ts -> ~ In SpeedToggle (listeners (bindings (page st)) t (type e))) ->
    undisturbed st (fold_left (fun s t => invoke_listeners e t s) ts st).
Proof.
  induction ts as [| t ts IH]; intros st Hno; [apply undisturbed_refl |].
  cbn [fold_left].
  assert (H1 : undisturbed st (invoke_listeners e t st))
    by (apply invoke_listeners_undisturbed, Hno; left; reflexivity).
  eapply undisturbed_trans; [exact H1 |]. apply IH.
  intros t' Ht'. destruct H1 as (_ & -> & _). apply Hno. right. exact Ht'.
Qed.

Lemma invoke_close (e : Event) (st : State) :
  display (menu (invoke e CloseSpeedMenu st)) = js "none".
Proof. reflexivity. Qed.

Lemma invoke_all_closes (e : Event) (hs : list Handler) :
  forall st,
    ~ In SpeedToggle hs ->
    In CloseSpeedMenu hs \/ display (menu st) = js "none" ->
    display (menu (fold_left (fun s h => invoke e h s) hs st)) = js "none".
Proof.
  induction hs as [| h hs IH]; intros st Hno Hc.
  - destruct Hc as [[] | Hc]. exact Hc.
  - cbn [fold_left]. apply IH; [intros H; apply Hno; right; exact H |].
    destruct Hc as [[-> | Hc] | Hc].
    + right. apply invoke_close.
    + left. exact Hc.
    + right. assert (Hh : h <> SpeedToggle) by (intros ->; apply Hno; left; reflexivity).
      destruct (invoke_undisturbed e h st Hh) as (_ & _ & [Hd | Hd]); congruence.
Qed.

(** X19.  A click that reaches the document without passing the speed
    button closes the speed menu, whatever else its listeners do, and is
    not stopped on its way. *)
Theorem click_elsewhere_closes_menu (st : State) (target : Target) (ancestors : list Target) :
  (forall t, In t (target :: ancestors ++ [TheDocument]) ->
             ~ In SpeedToggle (listeners (bindings (page st)) t (js "click"))) ->
  In CloseSpeedMenu (listeners (bindings (page st)) TheDocument (js "click")) ->
  let st' := dispatch (click target (ancestors ++ [TheDocument])) st in
  display (menu st') = js "none" /\ propagationStopped st' = false.
Proof.
  intros Hno Hclose st'. subst st'. unfold dispatch, click. cbn [path].
  set (e := mkEvent (js "click") (target :: ancestors ++ [TheDocument]) []).
  change (target :: ancestors ++ [TheDocument])
    with ((target :: ancestors) ++ [TheDocument]) in Hno |- *.
  rewrite fold_left_app.
  set (s0 := with_stopped false st).
  assert (H1 : undisturbed s0
                 (fold_left (fun s t => invoke_listeners e t s) (target :: ancestors) s0)).
  { apply bubble_undisturbed. intros t Ht. apply Hno. apply in_or_app. left. exact Ht. }
  set (s1 := fold_left _ (target :: ancestors) s0) in *.
  cbn [fold_left].
  destruct H1 as (Hs1 & Hb1 & _). cbn [propagationStopped page s0 with_stopped] in Hs1, Hb1.
  assert (Hno1 : ~ In SpeedToggle (listeners (bindings (page s1)) TheDocument (type e))).
  { rewrite Hb1. apply Hno. apply in_or_app. right. left. reflexivity. }
  split.
  - unfold invoke_listeners. rewrite Hs1.
    apply invoke_all_closes; [exact Hno1 |]. left. rewrite Hb1. exact Hclose.
  - destruct (invoke_listeners_undisturbed e TheDocument s1 Hno1) as (-> & _). exact Hs1.
Qed.

Lemma click_elsewhere_closes_menu_witness :
  let opened := dispatch (click (ById (js "speedBtn"))
                            [ById (js "playerContainer"); TheDocument]) sample in
  display (menu opened) = js "block" /\
  display (menu (dispatch (click (ById (js "video"))
                             ([ById (js "playerContainer")] ++ [TheDocument])) opened))
  = js "none".
Proof.
  split; [vm_compute; reflexivity |].
  refine (proj1 (click_elsewhere_closes_menu _ (ById (js "video"))
                   [ById (js "playerContainer")] _ _)).
  - intros t Ht H. vm_compute in Ht.
    destruct Ht as [<- | [<- | [<- | []]]]; vm_compute in H; intuition discriminate.
  - vm_compute. auto 20.
Defined.

End SpeedMenuProperties.

(** ** The timer that hides the controls *)

Section OverlayProperties.

Import Player Controls ControlsSpec.

Lemma resetControlsTimer_shown (st : State) :
  controls_bar (page st) = true ->
  resetControlsTimer st =
    (Normal tt,
     with_overlay
       (mkOverlay (clearTimeout (hideControlsTimeout (overlay st)) (timers (overlay st))
                     ++ [next_timer (overlay st)])
                  (S (next_timer (overlay st)))
                  (Some (next_timer (overlay st))))
       (with_page (with_controls (js "1") true (page st)) st)).
Proof.
  intros Hbar. unfold resetControlsTimer, set_opacity, mbind, Eff_bind.
  cbn [get_state]. rewrite Hbar. reflexivity.
Qed.

Lemma filter_single_same (id : nat) :
  List.filter (fun j => negb (Nat.eqb j id)) [id] = [].
Proof. cbn. rewrite Nat.eqb_refl. reflexivity. Qed.

Lemma on_timeout_pending (id : nat) (st : State) :
  controls_bar (page st) = true ->
  existsb (Nat.eqb id) (timers (overlay st)) = true ->
  let left := List.filter (fun j => negb (Nat.eqb j id)) (timers (overlay st)) in
  on_timeout id st =
    (Normal tt,
     with_page (with_controls (js "0") (negb (bool_decide (left = []))) (page st))
       (with_overlay
          (mkOverlay left (next_timer (overlay st)) (hideControlsTimeout (overlay st)))
          st)).
Proof.
  intros Hbar Hpending. cbn zeta. unfold on_timeout, mbind, Eff_bind. cbn [get_state].
  rewrite Hpending. unfold modify at 1. unfold set_opacity, mbind, Eff_bind.
  cbn [get_state page with_overlay]. rewrite Hbar. reflexivity.
Qed.

Lemma react_consistent (i : Input) (st : State) :
  controls_bar (page st) = true ->
  timers (overlay st) = [] \/ overlay_consistent st ->
  controls_bar (page (react i st)) = true /\
  (match i with
   | Activity => overlay_consistent (react i st)
   | Expiry _ =>
       (timers (overlay st) = [] -> react i st = st) /\
       (overlay_consistent st -> overlay_consistent (react i st))
   end).
Proof.
  intros Hbar Hinv. destruct i as [| id]; cbn [react].
  - rewrite (resetControlsTimer_shown st Hbar). cbn [snd page with_overlay with_page].
    split; [exact Hbar |]. right. exists (next_timer (overlay st)).
    cbn [overlay with_overlay timers hideControlsTimeout page with_page controls_opacity
         with_controls].
    split; [| split; reflexivity].
    destruct Hinv as [Hnone | [[Hnone _] | (id & Hone & Hvar & _)]].
    + rewrite Hnone. destruct (hideControlsTimeout (overlay st)); reflexivity.
    + rewrite Hnone. destruct (hideControlsTimeout (overlay st)); reflexivity.
    + rewrite Hone, Hvar. cbn [clearTimeout]. rewrite filter_single_same. reflexivity.
  - destruct (existsb (Nat.eqb id) (timers (overlay st))) eqn:Hpending.
    + rewrite (on_timeout_pending id st Hbar Hpending).
      cbn [snd page with_page with_overlay controls_bar with_controls].
      split; [exact Hbar |]. split.
      * intros Hnone. rewrite Hnone in Hpending. discriminate.
      * intros [[Hnone _] | (id0 & Hone & Hvar & _)].
        -- rewrite Hnone in Hpending. discriminate.
        -- rewrite Hone in Hpending |- *. cbn [existsb] in Hpending.
           rewrite orb_false_r in Hpending. apply Nat.eqb_eq in Hpending. subst id0.
           left. cbn [overlay with_overlay with_page timers page].
           rewrite filter_single_same. split; reflexivity.
    + unfold on_timeout, mbind, Eff_bind. cbn [get_state]. rewrite Hpending.
      cbn [snd mret Eff_ret]. split; [exact Hbar |]. split; [reflexivity | auto].
Qed.

Lemma reactions_consistent (inputs : list Input) :
  forall st,
    controls_bar (page st) = true ->
    overlay_consistent st ->
    overlay_consistent (fold_left (fun s i => react i s) inputs st).
Proof.
  induction inputs as [| i inputs IH]; intros st Hbar Hinv; [exact Hinv |].
  cbn [fold_left]. destruct (react_consistent i st Hbar (or_intror Hinv)) as [Hbar' H].
  apply IH; [exact Hbar' |]. destruct i; [exact H | apply H, Hinv].
Qed.

(** X20.  From a page with a controls bar and no pending timeout, after
    the first activity and whatever activities and expiries follow, at most
    one hide timer is pending, it is the one that [hideControlsTimeout]
    names, and the controls are shown exactly while it is pending. *)
Theorem one_hide_timer (inputs : list Input) (st : State) :
  controls_bar (page st) = true ->
  timers (overlay st) = [] ->
  overlay_consistent (fold_left (fun s i => react i s) (Activity :: inputs) st).
Proof.
  intros Hbar Hnone. cbn [fold_left].
  destruct (react_consistent Activity st Hbar (or_introl Hnone)) as [Hbar' H].
  apply reactions_consistent; assumption.
Qed.

Lemma one_hide_timer_witness :
  overlay_consistent
    (fold_left (fun s i => react i s) [Activity; Activity; Expiry 0; Expiry 1; Activity]
       sample).
Proof.
  apply (one_hide_timer [Activity; Expiry 0; Expiry 1; Activity] sample); reflexivity.
Defined.

End OverlayProperties.

(** ** Seeking with the range control *)

Section SeekProperties.

Import Player Controls ControlsSpec.
Local Open Scope Q_scope.



(** Without a duration the listener does nothing. *)
Lemma seek_input_without_duration (p : Page) :
  duration p = NaN \/ duration p = Num 0 -> on_seek_input p = (Normal tt, p).
Proof.
  intros [H | H]; unfold on_seek_input, mbind, Eff_bind; cbn [get_state]; rewrite H;
    reflexivity.
Qed.

End SeekProperties.

(** ** When the player's initialisation completes *)

Section InitProperties.

Import Player Controls ControlsSpec.

Lemma completes_deref (id : jsstring) (k : Eff Page unit) (P : Page -> Prop) :
  (forall q, fst (k q) = Normal tt <-> P q) ->
  forall q, fst ((deref id ;; k) q) = Normal tt <-> present q id = true /\ P q.
Proof.
  intros Hk q. unfold deref, mbind, Eff_bind. cbn [get_state].
  destruct (present q id); cbn [mret Eff_ret throw fst].
  - rewrite Hk. tauto.
  - split; [discriminate | intros [? _]; discriminate].
Qed.

Lemma completes_modify (f : Page -> Page) (k : Eff Page unit) (P : Page -> Prop) :
  (forall q, fst (k q) = Normal tt <-> P q) ->
  (forall q, P (f q) <-> P q) ->
  forall q, fst ((modify f ;; k) q) = Normal tt <-> P q.
Proof.
  intros Hk Hf q. unfold mbind, Eff_bind, modify. rewrite Hk. apply Hf.
Qed.

Lemma completes_listen (id ty : jsstring) (h : Handler) (k : Eff Page unit)
    (P : Page -> Prop) :
  (forall q, fst (k q) = Normal tt <-> P q) ->
  (forall b q, P (with_binding b q) <-> P q) ->
  forall q, fst ((listen id ty h ;; k) q) = Normal tt <-> present q id = true /\ P q.
Proof.
  intros Hk Hb q. unfold listen, deref, addEventListener, mbind, Eff_bind, modify.
  cbn [get_state]. destruct (present q id); cbn [mret Eff_ret throw fst].
  - rewrite Hk, Hb. tauto.
  - split; [discriminate | intros [? _]; discriminate].
Qed.

Lemma completes_forEach (f : nat -> Target) (ty : jsstring) (g : nat -> Handler)
    (k : Eff Page unit) (P : Page -> Prop) :
  (forall q, fst (k q) = Normal tt <-> P q) ->
  (forall b q, P (with_binding b q) <-> P q) ->
  forall l q,
    fst ((forEach l (fun i => addEventListener (f i) ty (g i)) ;; k) q) = Normal tt
    <-> P q.
Proof.
  intros Hk Hb l. induction l as [| i l IH]; intros q.
  - unfold mbind, Eff_bind. cbn [forEach mret Eff_ret]. apply Hk.
  - cbn [forEach]. unfold addEventListener at 1.
    unfold mbind at 1 2, Eff_bind at 1 2, modify at 1.
    specialize (IH (with_binding (mkBinding (f i) ty (g i)) q)).
    unfold mbind, Eff_bind in IH. rewrite IH. apply Hb.
Qed.

Lemma completes_resetControlsTimer (q : Page) :
  fst (Player.resetControlsTimer q) = Normal tt <-> controls_bar q = true.
Proof.
  unfold Player.resetControlsTimer, mbind, Eff_bind. cbn [get_state].
  destruct (controls_bar q); cbn [mret Eff_ret throw modify fst].
  - tauto.
  - split; discriminate.
Qed.

(** X13.  The player's initialisation completes exactly on two kinds of
    page: those without the video or without the player container, where
    it does nothing, and those that have every control it dereferences
    (play/pause, seek bar, rewind, forward, fullscreen, speed menu, speed
    button) and a controls bar.  On every other page it throws. *)
Theorem player_init_completes_iff (p : Page) :
  fst (init p) = Normal tt <->
  present p (js "video") = false \/
  present p (js "playerContainer") = false \/
  (forallb (present p) required_controls = true /\ controls_bar p = true).
Proof.
  unfold init. unfold mbind at 1, Eff_bind at 1. cbn [get_state].
  destruct (present p (js "video")) eqn:Hv; cbn [negb orb];
    [| split; [auto | reflexivity]].
  destruct (present p (js "playerContainer")) eqn:Hc; cbn [negb];
    [| split; [auto | reflexivity]].
  generalize (speedOptions p). intros n.
  match goal with
  | |- fst (?body p) = Normal tt <-> _ =>
      assert (Hbody : forall q, fst (body q) = Normal tt <->
                present q (js "playPause") = true /\
                present q (js "seekBar") = true /\
                present q (js "rewind") = true /\
                present q (js "forward") = true /\
                present q (js "fullscreen") = true /\
                present q (js "speedMenu") = true /\
                present q (js "speedBtn") = true /\
                controls_bar q = true)
  end.
  { unfold addEventListener.
    apply completes_deref.
    apply completes_modify; [| intros; reflexivity].
    apply completes_modify; [| intros; reflexivity].
    apply completes_modify; [| intros; reflexivity].
    apply completes_listen; [| intros; reflexivity].
    apply completes_modify; [| intros; reflexivity].
    apply completes_listen; [| intros; reflexivity].
    apply completes_listen; [| intros; reflexivity].
    apply completes_listen; [| intros; reflexivity].
    apply completes_modify; [| intros; reflexivity].
    apply completes_modify; [| intros; reflexivity].
    apply completes_modify; [| intros; reflexivity].
    apply completes_deref.
    apply completes_modify; [| intros; reflexivity].
    apply completes_listen; [| intros; reflexivity].
    intros q.
    apply (completes_forEach SpeedOption (js "click") SpeedSelect _
             (fun q => controls_bar q = true)); [| intros; reflexivity].
    apply completes_modify; [| intros; reflexivity].
    apply completes_resetControlsTimer. }
  rewrite Hbody. unfold required_controls. cbn [forallb].
  rewrite !andb_true_iff.
  split.
  - intros H. right. right. tauto.
  - intros [H | [H | H]]; [discriminate | discriminate | tauto].
Qed.

End InitProperties.

(** ** Requests of the search page *)

Section SessionProperties.

Import Search Session.

Lemma step_requests (p : Page) (e : Event) :
  requests (step p e)
  = requests p ++ match e with
                  | Typed text => if sendable text then [text] else []
                  | _ => []
                  end.
Proof.
  destruct e as [text | data | row]; cbn [step].
  - unfold on_input, sendable. cbn [searchInput_value with_value].
    destruct text as [| c r].
    + cbn [suggestions with_value]. rewrite app_nil_r.
      destruct (suggestions p); reflexivity.
    + rewrite bool_decide_eq_false_2 by discriminate. cbn [negb andb].
      destruct (well_formed (c :: r)); cbn [snd requests with_request with_console with_value];
        [reflexivity | rewrite app_nil_r; reflexivity].
  - rewrite app_nil_r. unfold on_response. destruct data as [titles |]; [| reflexivity].
    cbn [suggestions with_console]. destruct (suggestions p); reflexivity.
  - rewrite app_nil_r. destruct (suggestions p) as [rows |]; [| reflexivity].
    destruct (rows !! row); reflexivity.
Qed.

(** X24.  Over any sequence of edits, responses and clicks on rows, the
    page sends one request for each edit that leaves a sendable query in
    the field, in the order of the edits, and no other request: responses
    and clicks on rows send none, and equal queries are sent again. *)
Theorem one_request_per_query (events : list Event) (p : Page) :
  requests (fold_left step events p)
  = requests p ++ List.filter sendable (typed events).
Proof.
  revert p. induction events as [| e events IH]; intros p.
  - cbn. rewrite app_nil_r. reflexivity.
  - cbn [fold_left]. rewrite IH, step_requests, <- app_assoc. f_equal.
    unfold typed. cbn [flat_map]. rewrite List.filter_app.
    destruct e as [text | data | row]; cbn [List.filter app]; reflexivity.
Qed.

End SessionProperties.

(** ** The timestamp at whole milliseconds *)

Section ClockProperties.

Import Player Clock.
Local Open Scope Q_scope.

Lemma toLocaleString_2_two_digits (k : Z) :
  (0 <= k < 60)%Z -> toLocaleString_2 k = two_digits k.
Proof.
  intros Hk.
  assert (Hall : forallb (fun n => bool_decide (toLocaleString_2 (Z.of_nat n)
                                               = two_digits (Z.of_nat n)))
                         (seq 0 60) = true) by (vm_compute; reflexivity).
  rewrite forallb_forall in Hall.
  specialize (Hall (Z.to_nat k)). rewrite Z2Nat.id in Hall by lia.
  eapply bool_decide_eq_true_1, Hall. apply in_seq. lia.
Qed.

Lemma plain_fraction (r : Q) (j : Z) (q : Q) :
  0 <= r -> 0 < q -> q <= 1000000 -> q * r == inject_Z j -> plain r.
Proof.
  intros Hr Hq Hq6 Hj. unfold plain, exponent_below.
  assert (Hj0 : (0 <= j)%Z).
  { rewrite Zle_Qle. change (inject_Z 0) with 0. rewrite <- Hj. nra. }
  destruct (Z.eq_dec j 0%Z) as [-> | Hne].
  - left. change (inject_Z 0) with 0 in Hj. nra.
  - right. assert (H1 : (1 <= j)%Z) by lia.
    rewrite Zle_Qle in H1. change (inject_Z 1) with 1 in H1. rewrite <- Hj in H1.
    assert (H6 : (1 # 1000000) * q <= 1) by lra.
    nra.
Qed.

(** X14.  At every position that is a whole number of milliseconds the
    timestamp reads the minutes modulo 60 and the seconds modulo 60 of the
    elapsed time, two digits each. *)
Theorem timestamp_of_milliseconds (k : Z) :
  (0 <= k)%Z ->
  timestamp_text (k # 1000)
  = two_digits ((k / 60000) mod 60) ++ js ":" ++ two_digits ((k / 1000) mod 60).
Proof.
  intros Hk. set (t := k # 1000).
  assert (Hkt : inject_Z k == 1000 * t).
  { subst t. rewrite (Qmake_Qdiv k 1000). field. }
  assert (Ht : 0 <= t).
  { assert (0 <= inject_Z k) by (rewrite Zle_Qle in Hk; exact Hk). lra. }
  assert (Ht60 : 0 <= t / 60).
  { set (y := t / 60). assert (t == 60 * y) by (subst y; field). lra. }
  rewrite timestamp_text_plain; [| exact Ht | |].
  - assert (Hm : Qfloor (t / 60) = (k / 60000)%Z).
    { rewrite (Qfloor_comp (t / 60) (k # 60000)); [reflexivity |].
      subst t. rewrite (Qmake_Qdiv k 1000), (Qmake_Qdiv k 60000). field. }
    assert (Hs : Qfloor t = (k / 1000)%Z) by reflexivity.
    rewrite Hm, Hs.
    rewrite !toLocaleString_2_two_digits by (apply Z.mod_pos_bound; lia).
    reflexivity.
  - destruct (remainder_floor _ Ht60) as (H0 & _ & _).
    apply (plain_fraction _ (k - 3600000 * trunc (t / 60 / 60)) 60000);
      [exact H0 | lra | lra |].
    unfold remainder. unfold Z.sub.
    rewrite inject_Z_plus, inject_Z_opp, inject_Z_mult, Hkt.
    change (inject_Z 3600000) with 3600000. field.
  - destruct (remainder_floor _ Ht) as (H0 & _ & _).
    apply (plain_fraction _ (k - 60000 * trunc (t / 60)) 1000);
      [exact H0 | lra | lra |].
    unfold remainder. unfold Z.sub.
    rewrite inject_Z_plus, inject_Z_opp, inject_Z_mult, Hkt.
    change (inject_Z 60000) with 60000. ring.
Qed.

Lemma timestamp_of_milliseconds_witness :
  timestamp_text (3725250 # 1000) = js "02:05".
Proof.
  rewrite (timestamp_of_milliseconds 3725250); [reflexivity | lia].
Defined.

End ClockProperties.
